(** * SQL-generator: the CSV parser, the field mapper, the SQL generator and
      the UPDATE clause builder, embedded from the JavaScript sources.

    Layout: the JavaScript values and built-ins the four classes rely on
    ([JS]), then one module per class ([CSVParser], [FieldMapper],
    [SQLGenerator], [UpdateOperationHandler]), then the properties. *)

From Stdlib Require Import String Ascii ZArith NArith List Bool Lia.
From Stdlib Require Import QArith DecimalN DecimalPos.
Import ListNotations.
Set Warnings "-register-all".
Close Scope Q_scope.

Set Implicit Arguments.

(* ================================================================== *)
(** ** JavaScript values and built-ins *)

Module JS.
#[local] Open Scope N_scope.

(** A JavaScript string is a sequence of UTF-16 code units. *)
Abbreviation cu := N (only parsing).
Abbreviation jsstring := (list N) (only parsing).

(** String literals of the sources (ASCII only) as code units. *)
Definition lit (s : string) : jsstring :=
  map N_of_ascii (list_ascii_of_string s).

Definition nl : jsstring := [10%N].
Definition squote : cu := 39%N.
Definition dquote : cu := 34%N.

Fixpoint eqs (a b : jsstring) : bool :=
  match a, b with
  | [], [] => true
  | x :: a', y :: b' => N.eqb x y && eqs a' b'
  | _, _ => false
  end.

(** Numbers: the integer-valued ones and the three special values.
    [Int z] is the Number of value [z]; a Number is a double, so [z] is
    meant to be an integer that a double holds ([is_double] below). *)
Inductive number := Int (z : Z) | NaN | PosInf | NegInf.

(** [VObj text] is any other object or function; [text] is what [String]
    gives for it. *)
Inductive value :=
| VUndefined
| VNull
| VBool (b : bool)
| VNum (n : number)
| VStr (s : jsstring)
| VArr (l : list value)
| VObj (text : jsstring).

(** A thrown [Error] is its message; nothing else of the failed call
    survives. *)
Inductive result (A : Type) :=
| Ok (a : A)
| Throw (msg : jsstring).
Arguments Ok {A} a.
Arguments Throw {A} msg.

Definition bind {A B} (r : result A) (k : A -> result B) : result B :=
  match r with
  | Ok a => k a
  | Throw m => Throw m
  end.

Notation "x <- c ;; k" := (bind c (fun x => k))
  (at level 61, c at next level, right associativity).

(** [try { body } catch (error) { throw new Error(prefix + error.message) }] *)
Definition rethrow {A} (prefix : jsstring) (r : result A) : result A :=
  match r with
  | Ok a => Ok a
  | Throw m => Throw (prefix ++ m)
  end.

(** *** Strings *)

(** WhiteSpace and LineTerminator code units: what [trim] strips and what
    [\s] matches. *)
Definition is_ws (c : cu) : bool :=
  ((9 <=? c) && (c <=? 13) || (c =? 32) || (c =? 160) || (c =? 5760)
   || (8192 <=? c) && (c <=? 8202) || (c =? 8232) || (c =? 8233)
   || (c =? 8239) || (c =? 8287) || (c =? 12288) || (c =? 65279))%N.

Fixpoint trimStart (s : jsstring) : jsstring :=
  match s with
  | [] => []
  | c :: r => if is_ws c then trimStart r else s
  end.

Fixpoint trimEnd (s : jsstring) : jsstring :=
  match s with
  | [] => []
  | c :: r =>
      match trimEnd r with
      | [] => if is_ws c then [] else [c]
      | r' => c :: r'
      end
  end.

Definition trim (s : jsstring) : jsstring := trimEnd (trimStart s).

(** Case mapping of the ASCII letters; the other code units are left as
    they are. *)
Definition lower_cu (c : cu) : cu :=
  if ((65 <=? c) && (c <=? 90))%N then (c + 32)%N else c.
Definition upper_cu (c : cu) : cu :=
  if ((97 <=? c) && (c <=? 122))%N then (c - 32)%N else c.

(** [toLowerCase] and [toUpperCase] also map the code units outside ASCII.
    Those whose image holds an ASCII letter are listed (U+0130 and the
    Kelvin sign for the lower case; the sharp s, the dotless i, the long s,
    U+0149, U+01F0, U+1E96 to U+1E9A and the ligatures U+FB00 to U+FB06 for
    the upper case); the others map outside ASCII and are left as they
    are. *)
Definition lower_cus (c : cu) : jsstring :=
  if (c =? 304)%N then [105; 775]%N
  else if (c =? 8490)%N then [107%N]
  else [lower_cu c].

Definition upper_cus (c : cu) : jsstring :=
  if (c =? 223)%N then [83; 83]%N
  else if (c =? 305)%N then [73%N]
  else if (c =? 329)%N then [700; 78]%N
  else if (c =? 383)%N then [83%N]
  else if (c =? 496)%N then [74; 780]%N
  else if (c =? 7830)%N then [72; 817]%N
  else if (c =? 7831)%N then [84; 776]%N
  else if (c =? 7832)%N then [87; 778]%N
  else if (c =? 7833)%N then [89; 778]%N
  else if (c =? 7834)%N then [65; 702]%N
  else if (c =? 64256)%N then [70; 70]%N
  else if (c =? 64257)%N then [70; 73]%N
  else if (c =? 64258)%N then [70; 76]%N
  else if (c =? 64259)%N then [70; 70; 73]%N
  else if (c =? 64260)%N then [70; 70; 76]%N
  else if (c =? 64261)%N then [83; 84]%N
  else if (c =? 64262)%N then [83; 84]%N
  else [upper_cu c].

Definition toLowerCase (s : jsstring) : jsstring := flat_map lower_cus s.
Definition toUpperCase (s : jsstring) : jsstring := flat_map upper_cus s.

Fixpoint startsWith (s p : jsstring) {struct p} : bool :=
  match p, s with
  | [], _ => true
  | x :: p', y :: s' => N.eqb x y && startsWith s' p'
  | _ :: _, [] => false
  end.

Definition endsWith (s p : jsstring) : bool := startsWith (rev s) (rev p).

(** [s.includes(p)] *)
Fixpoint includes (s p : jsstring) : bool :=
  startsWith s p ||
  match s with
  | [] => false
  | _ :: s' => includes s' p
  end.

(** [s.replace(p, r)] with a string pattern: the first occurrence only. *)
Fixpoint replaceFirst (s p r : jsstring) : jsstring :=
  if startsWith s p then r ++ skipn (length p) s
  else match s with
       | [] => []
       | c :: s' => c :: replaceFirst s' p r
       end.

(** [s.replace(/c/g, r)] for a one-character pattern. *)
Fixpoint replaceAll (s : jsstring) (c : cu) (r : jsstring) : jsstring :=
  match s with
  | [] => []
  | x :: s' => (if N.eqb x c then r else [x]) ++ replaceAll s' c r
  end.

(** [parts.join(sep)] *)
Fixpoint join (sep : jsstring) (parts : list jsstring) : jsstring :=
  match parts with
  | [] => []
  | [x] => x
  | x :: rest => x ++ sep ++ join sep rest
  end.

(** [list.includes(s)] on an array of strings. *)
Definition includesStr (l : list jsstring) (s : jsstring) : bool :=
  existsb (eqs s) l.

(** *** Number to string, string to number *)

Fixpoint uint_cus (d : Decimal.uint) : jsstring :=
  match d with
  | Decimal.Nil => []
  | Decimal.D0 d => 48%N :: uint_cus d
  | Decimal.D1 d => 49%N :: uint_cus d
  | Decimal.D2 d => 50%N :: uint_cus d
  | Decimal.D3 d => 51%N :: uint_cus d
  | Decimal.D4 d => 52%N :: uint_cus d
  | Decimal.D5 d => 53%N :: uint_cus d
  | Decimal.D6 d => 54%N :: uint_cus d
  | Decimal.D7 d => 55%N :: uint_cus d
  | Decimal.D8 d => 56%N :: uint_cus d
  | Decimal.D9 d => 57%N :: uint_cus d
  end.

(** The double nearest to an integer, ties to the even significand; from
    [2^1024 - 2^970] on it is [Infinity]. *)
Definition to_double (z : Z) : number :=
  let a := Z.abs z in
  let shift := (Z.log2 a + 1 - 53)%Z in
  if (shift <=? 0)%Z then Int z
  else
    let q := (a / 2 ^ shift)%Z in
    let r := (a mod 2 ^ shift)%Z in
    let half := (2 ^ (shift - 1))%Z in
    let q' :=
      if (half <? r)%Z || ((r =? half)%Z && Z.odd q) then (q + 1)%Z else q in
    let m := (q' * 2 ^ shift)%Z in
    if (2 ^ 1024 <=? m)%Z then (if (z <? 0)%Z then NegInf else PosInf)
    else Int (if (z <? 0)%Z then - m else m)%Z.

(** The integers that are Numbers. *)
Definition is_double (z : Z) : Prop := to_double z = Int z.

(** [a === b] on numbers. *)
Definition eq_num (a b : number) : bool :=
  match a, b with
  | Int x, Int y => (x =? y)%Z
  | PosInf, PosInf | NegInf, NegInf => true
  | _, _ => false
  end.

(** [a < b] and [a + b] on numbers.  The sum of two integers is taken
    exact: it is, as long as it stays within 2^53, and the sums of the
    sources are an array index plus a step. *)
Definition lt_num (a b : number) : bool :=
  match a, b with
  | NaN, _ | _, NaN => false
  | Int x, Int y => (x <? y)%Z
  | NegInf, NegInf | PosInf, _ => false
  | NegInf, _ => true
  | Int _, PosInf => true
  | Int _, NegInf => false
  end.

Definition add_num (a b : number) : number :=
  match a, b with
  | NaN, _ | _, NaN => NaN
  | Int x, Int y => Int (x + y)
  | PosInf, NegInf | NegInf, PosInf => NaN
  | PosInf, _ | _, PosInf => PosInf
  | NegInf, _ | _, NegInf => NegInf
  end.

(** The number of decimal digits of [a]: the least [n >= 1] with
    [a < 10^n]. *)
Fixpoint digits_from (fuel : nat) (a n : Z) : Z :=
  match fuel with
  | O => n
  | S fuel' => if (a <? 10 ^ n)%Z then n else digits_from fuel' a (n + 1)
  end.

Definition digits (a : Z) : Z := digits_from (Z.to_nat (Z.log2 a)) a 1.

(** Number::toString writes a Number [x] from integers [n], [k], [s] with
    [10^(k-1) <= s < 10^k], such that [s * 10^(n-k)] is a numeral of [x]
    (it rounds to [x]), with [k] as small as possible and, for that [k],
    the numeral closest to [x] (the even [s] when two are as close). *)
Record decimal := { dec_s : Z; dec_k : Z; dec_n : Z }.

Definition dec_value (d : decimal) : Z :=
  (dec_s d * 10 ^ (dec_n d - dec_k d))%Z.

(** The numerals of [k] digits to consider: for each [n], the two
    multiples of [10^(n-k)] around [x]. *)
Definition candidates (x k : Z) : list decimal :=
  let D := digits x in
  flat_map
    (fun n =>
       let p := (n - k)%Z in
       if (p <? 0)%Z then []
       else
         filter
           (fun d =>
              (10 ^ (k - 1) <=? dec_s d)%Z && (dec_s d <? 10 ^ k)%Z
              && eq_num (to_double (dec_value d)) (Int x))
           [ {| dec_s := (x / 10 ^ p)%Z; dec_k := k; dec_n := n |};
             {| dec_s := (x / 10 ^ p + 1)%Z; dec_k := k; dec_n := n |} ])
    [(D - 1)%Z; D; (D + 1)%Z].

Definition closer (x : Z) (a b : decimal) : decimal :=
  let da := Z.abs (dec_value a - x) in
  let db := Z.abs (dec_value b - x) in
  if (da <? db)%Z then a
  else if (db <? da)%Z then b
  else if Z.even (dec_s a) then a else b.

Definition closest (x : Z) (l : list decimal) : option decimal :=
  match l with
  | [] => None
  | d :: rest => Some (fold_left (closer x) rest d)
  end.

Fixpoint shortest_from (fuel : nat) (x k : Z) : decimal :=
  match fuel with
  | O => {| dec_s := x; dec_k := digits x; dec_n := digits x |}
  | S fuel' =>
      match closest x (candidates x k) with
      | Some d => d
      | None => shortest_from fuel' x (k + 1)
      end
  end.

(** Seventeen digits tell any double from its neighbours. *)
Definition shortest (x : Z) : decimal := shortest_from 17 x 1.

Definition digits_cus (a : Z) : jsstring := uint_cus (N.to_uint (Z.to_N a)).

(** The text of a positive integer Number: the digits of [s] and [n - k]
    zeros up to [n = 21], the exponent form beyond ([1e+21]). *)
Definition magnitude_toString (x : Z) : jsstring :=
  let d := shortest x in
  let s := digits_cus (dec_s d) in
  if (dec_n d <=? 21)%Z
  then s ++ repeat 48%N (Z.to_nat (dec_n d - dec_k d))
  else
    firstn 1 s
    ++ (if (dec_k d =? 1)%Z then [] else 46%N :: skipn 1 s)
    ++ lit "e+" ++ digits_cus (dec_n d - 1).

Definition Number_toString (n : number) : jsstring :=
  match n with
  | Int z =>
      if (z =? 0)%Z then lit "0"
      else if (z <? 0)%Z then 45%N :: magnitude_toString (- z)
      else magnitude_toString z
  | NaN => lit "NaN"
  | PosInf => lit "Infinity"
  | NegInf => lit "-Infinity"
  end.

(** [String(v)]; inside an array [null] and [undefined] print as nothing. *)
Fixpoint String_ (v : value) : jsstring :=
  match v with
  | VUndefined => lit "undefined"
  | VNull => lit "null"
  | VBool true => lit "true"
  | VBool false => lit "false"
  | VNum n => Number_toString n
  | VStr s => s
  | VArr l =>
      join (lit ",")
        (map (fun x => match x with
                       | VUndefined | VNull => []
                       | _ => String_ x
                       end) l)
  | VObj text => text
  end.

(** The value of a digit in radix 10 or 16. *)
Definition digit_val (radix : Z) (c : cu) : option Z :=
  let z := Z.of_N c in
  if ((48 <=? c) && (c <=? 57))%N then Some (z - 48)%Z
  else if (radix =? 16)%Z && ((97 <=? c) && (c <=? 102))%N then Some (z - 87)%Z
  else if (radix =? 16)%Z && ((65 <=? c) && (c <=? 70))%N then Some (z - 55)%Z
  else None.

(** The longest prefix of digits, read in the radix; [None] if there is no
    digit. *)
Fixpoint parse_digits (radix : Z) (acc : option Z) (s : jsstring) : option Z :=
  match s with
  | [] => acc
  | c :: r =>
      match digit_val radix c with
      | Some d =>
          parse_digits radix
            (Some (match acc with Some a => a * radix + d | None => d end)%Z) r
      | None => acc
      end
  end.

(** [parseInt(s)] with no radix argument: leading white space, a sign, an
    optional [0x] prefix, then digits; the result is the Number nearest to
    the integer read, [Infinity] past the largest one. *)
Definition parseInt_str (s : jsstring) : number :=
  let s1 := trimStart s in
  let '(neg, s2) :=
    match s1 with
    | c :: r => if (c =? 45)%N then (true, r)
                else if (c =? 43)%N then (false, r) else (false, s1)
    | [] => (false, s1)
    end in
  let '(radix, s3) :=
    match s2 with
    | z :: x :: r =>
        if ((z =? 48) && ((x =? 120) || (x =? 88)))%N then (16%Z, r)
        else (10%Z, s2)
    | _ => (10%Z, s2)
    end in
  match parse_digits radix None s3 with
  | Some m => to_double (if neg then - m else m)%Z
  | None => NaN
  end.

(** [parseInt(v)]: the argument is converted with [String] first. *)
Definition parseInt (v : value) : number := parseInt_str (String_ v).

(** Truthiness of a number ([0] and [NaN] are falsy). *)
Definition truthy_num (n : number) : bool :=
  match n with
  | Int z => negb (z =? 0)%Z
  | NaN => false
  | _ => true
  end.

(** [!v] is [negb (truthy v)]. *)
Definition truthy (v : value) : bool :=
  match v with
  | VUndefined | VNull => false
  | VBool b => b
  | VNum n => truthy_num n
  | VStr s => negb (eqs s [])
  | VArr _ => true
  | VObj _ => true
  end.

(** [Math.max(...xs)]: the maximum over no argument is [-Infinity]. *)
Definition Math_max (xs : list Z) : number :=
  fold_left (fun acc x =>
               match acc with
               | Int a => Int (Z.max a x)
               | _ => Int x
               end) xs NegInf.

(** *** Regular expressions

    The patterns of the sources are all anchored ([^...$], no [m] flag), so
    [pattern.test(s)] is a match of the whole string; it is decided with
    derivatives. *)
Inductive re :=
| Void
| Eps
| Cls (p : cu -> bool)
| Cat (a b : re)
| Alt (a b : re)
| Star (a : re).

Fixpoint nullable (r : re) : bool :=
  match r with
  | Void => false
  | Eps => true
  | Cls _ => false
  | Cat a b => nullable a && nullable b
  | Alt a b => nullable a || nullable b
  | Star _ => true
  end.

Definition cat (a b : re) : re :=
  match a, b with
  | Void, _ => Void
  | _, Void => Void
  | Eps, _ => b
  | _, _ => Cat a b
  end.

Definition alt (a b : re) : re :=
  match a, b with
  | Void, _ => b
  | _, Void => a
  | _, _ => Alt a b
  end.

Fixpoint deriv (c : cu) (r : re) : re :=
  match r with
  | Void => Void
  | Eps => Void
  | Cls p => if p c then Eps else Void
  | Cat a b =>
      if nullable a then alt (cat (deriv c a) b) (deriv c b)
      else cat (deriv c a) b
  | Alt a b => alt (deriv c a) (deriv c b)
  | Star a => cat (deriv c a) (Star a)
  end.

(** [/^r$/.test(s)] *)
Definition test (r : re) (s : jsstring) : bool :=
  nullable (fold_left (fun r c => deriv c r) s r).

Definition chr (c : cu) : re := Cls (N.eqb c).
(** A character under the [i] flag. *)
Definition chr_i (c : cu) : re := Cls (fun x => N.eqb (lower_cu x) (lower_cu c)).
Definition digit : re := Cls (fun c => ((48 <=? c) && (c <=? 57))%N).
Definition space : re := Cls is_ws.
Definition plus (r : re) : re := Cat r (Star r).
Definition opt (r : re) : re := Alt Eps r.
Fixpoint times (n : nat) (r : re) : re :=
  match n with
  | O => Eps
  | S n' => Cat r (times n' r)
  end.
Fixpoint word (s : jsstring) : re :=
  match s with
  | [] => Eps
  | c :: s' => Cat (chr c) (word s')
  end.
Fixpoint word_i (s : jsstring) : re :=
  match s with
  | [] => Eps
  | c :: s' => Cat (chr_i c) (word_i s')
  end.
Fixpoint alts (l : list re) : re :=
  match l with
  | [] => Void
  | [r] => r
  | r :: l' => Alt r (alts l')
  end.

(** *** [isNaN] on a string: the StringNumericLiteral grammar *)

Definition hexdigit : re :=
  Cls (fun c => ((48 <=? c) && (c <=? 57) || (97 <=? c) && (c <=? 102)
                 || (65 <=? c) && (c <=? 70))%N).
Definition octdigit : re := Cls (fun c => ((48 <=? c) && (c <=? 55))%N).
Definition bindigit : re := Cls (fun c => ((48 <=? c) && (c <=? 49))%N).
Definition sign : re := Alt (chr 43) (chr 45).
Definition exponent : re :=
  Cat (Alt (chr 101) (chr 69)) (Cat (opt sign) (plus digit)).

Definition StrUnsignedDecimalLiteral : re :=
  alts [ word (lit "Infinity");
         Cat (plus digit) (Cat (chr 46) (Cat (Star digit) (opt exponent)));
         Cat (chr 46) (Cat (plus digit) (opt exponent));
         Cat (plus digit) (opt exponent) ].

Definition StrNumericLiteral : re :=
  alts [ Cat (opt sign) StrUnsignedDecimalLiteral;
         Cat (chr 48) (Cat (Alt (chr 120) (chr 88)) (plus hexdigit));
         Cat (chr 48) (Cat (Alt (chr 111) (chr 79)) (plus octdigit));
         Cat (chr 48) (Cat (Alt (chr 98) (chr 66)) (plus bindigit)) ].

Definition StringNumericLiteral : re :=
  Cat (Star space) (opt (Cat StrNumericLiteral (Star space))).

(** [isNaN(v)]: [v] is converted to a number first. *)
Definition isNaN (v : value) : bool :=
  match v with
  | VUndefined => true
  | VNull => false
  | VBool _ => false
  | VNum NaN => true
  | VNum _ => false
  | VStr s => negb (test StringNumericLiteral s)
  | VArr l => negb (test StringNumericLiteral (String_ (VArr l)))
  | VObj text => negb (test StringNumericLiteral text)
  end.

End JS.


Import JS.

(* ================================================================== *)
(** ** js/csv-parser.js: class CSVParser *)

Module CSVParser.

(** The fields the constructor sets. *)
Record parser := {
  supportedEncodings : list jsstring;
  supportedDelimiters : list jsstring;
  maxFileSize : Z;
  maxRows : Z
}.

Definition new : parser := {|
  supportedEncodings := [lit "UTF-8"; lit "UTF-16"; lit "Big5"];
  supportedDelimiters := [lit ","; lit ";"; [9%N]; lit "|"];
  maxFileSize := 10 * 1024 * 1024;
  maxRows := 100000
|}.

(** The [options] argument of [parseCSVText], after destructuring;
    [delimiter = None] is [null]. *)
Record options := {
  delimiter : option jsstring;
  hasHeader : bool;
  encoding : jsstring;
  skipEmptyLines : bool;
  trimValues : bool
}.

(** [options = {}] *)
Definition defaults : options := {|
  delimiter := None;
  hasHeader := true;
  encoding := lit "UTF-8";
  skipEmptyLines := true;
  trimValues := true
|}.

Record metadata := {
  originalLineCount : Z;
  processedRows : Z;
  skippedRows : Z;
  md_hasHeader : bool;
  maxColumnCount : number
}.

Record table := {
  headers : list jsstring;
  rows : list (list jsstring);
  totalRows : Z;
  columns : Z;
  tb_delimiter : jsstring;
  tb_encoding : jsstring;
  tb_metadata : metadata
}.

(** [removeBOM] *)
Definition removeBOM (text : jsstring) : jsstring :=
  match text with
  | c :: rest =>
      if (c =? 65279)%N then rest
      else if eqs (firstn 3 text) [239%N; 187%N; 191%N] then skipn 3 text
      else text
  | [] => text
  end.

(** [text.split(/\r?\n/)] *)
Fixpoint split_lines (s : jsstring) : list jsstring :=
  match s with
  | [] => [[]]
  | c :: rest =>
      if (c =? 10)%N then [] :: split_lines rest
      else
        let keep :=
          match split_lines rest with
          | l :: ls => (c :: l) :: ls
          | [] => [[c]]
          end in
        if (c =? 13)%N then
          match rest with
          | d :: rest' => if (d =? 10)%N then [] :: split_lines rest' else keep
          | [] => keep
          end
        else keep
  end.

Definition is_quote (c : cu) : bool := (c =? dquote)%N || (c =? squote)%N.

(** The loop of [parseCSVLine]: [current], [inQuotes] and [quoteChar] are the
    loop's variables, [result] the fields pushed so far; the step that
    consumes an escaped quote takes two characters ([i++]). *)
Fixpoint parseCSVLine_loop (line : jsstring) (delimiter : jsstring)
    (trimValues : bool) (result : list jsstring) (current : jsstring)
    (inQuotes : bool) (quoteChar : cu) : list jsstring :=
  match line with
  | [] => result ++ [if trimValues then trim current else current]
  | char :: rest =>
      if is_quote char then
        if negb inQuotes then
          parseCSVLine_loop rest delimiter trimValues result current true char
        else if (char =? quoteChar)%N then
          match rest with
          | nextChar :: rest' =>
              if (nextChar =? quoteChar)%N then
                parseCSVLine_loop rest' delimiter trimValues result
                  (current ++ [char]) inQuotes quoteChar
              else
                parseCSVLine_loop rest delimiter trimValues result current
                  false quoteChar
          | [] =>
              parseCSVLine_loop rest delimiter trimValues result current
                false quoteChar
          end
        else
          parseCSVLine_loop rest delimiter trimValues result
            (current ++ [char]) inQuotes quoteChar
      else if eqs [char] delimiter && negb inQuotes then
        parseCSVLine_loop rest delimiter trimValues
          (result ++ [if trimValues then trim current else current]) []
          inQuotes quoteChar
      else
        parseCSVLine_loop rest delimiter trimValues result
          (current ++ [char]) inQuotes quoteChar
  end.

Definition parseCSVLine (line delimiter : jsstring) (trimValues : bool)
  : list jsstring :=
  parseCSVLine_loop line delimiter trimValues [] [] false dquote.

(** The loop of [countDelimiterOccurrences]; [quoteChar] starts as the
    empty string. *)
Fixpoint countDelimiterOccurrences_loop (line : jsstring)
    (delimiter : jsstring) (count : nat) (inQuotes : bool)
    (quoteChar : jsstring) : nat :=
  match line with
  | [] => count
  | char :: rest =>
      if is_quote char && negb inQuotes then
        countDelimiterOccurrences_loop rest delimiter count true [char]
      else if eqs [char] quoteChar && inQuotes then
        match rest with
        | next :: rest' =>
            if eqs [next] quoteChar then
              countDelimiterOccurrences_loop rest' delimiter count inQuotes
                quoteChar
            else
              countDelimiterOccurrences_loop rest delimiter count false
                quoteChar
        | [] =>
            countDelimiterOccurrences_loop rest delimiter count false quoteChar
        end
      else if eqs [char] delimiter && negb inQuotes then
        countDelimiterOccurrences_loop rest delimiter (S count) inQuotes
          quoteChar
      else
        countDelimiterOccurrences_loop rest delimiter count inQuotes quoteChar
  end.

Definition countDelimiterOccurrences (line delimiter : jsstring) : nat :=
  countDelimiterOccurrences_loop line delimiter 0 false [].

(** [detectDelimiter]: the state of the [for ... of] loop is
    [(maxCount, bestDelimiter)]. *)
Definition detect_step (line : jsstring) (st : nat * jsstring)
    (delimiter : jsstring) : nat * jsstring :=
  let '(maxCount, bestDelimiter) := st in
  let count := countDelimiterOccurrences line delimiter in
  if (maxCount <? count)%nat then (count, delimiter)
  else (maxCount, bestDelimiter).

Definition detectDelimiter (line : jsstring) : jsstring :=
  let delimiters := [lit ","; lit ";"; [9%N]; lit "|"] in
  snd (fold_left (detect_step line) delimiters (0%nat, lit ",")).

(** [while (rowData.length < headers.length) rowData.push('')] *)
Definition pad (rowData : list jsstring) (n : nat) : list jsstring :=
  rowData ++ repeat [] (n - length rowData).

(** The loop over the data lines.  [parseCSVLine] cannot throw on a string,
    so the inner [catch] is never entered. *)
Fixpoint parseRows (p : parser) (lines : list jsstring)
    (detectedDelimiter : jsstring) (trimValues skipEmptyLines : bool)
    (headers : list jsstring) (rows : list (list jsstring))
  : list (list jsstring) :=
  match lines with
  | [] => rows
  | line :: rest =>
      if (Z.of_nat (length rows) >=? maxRows p)%Z then rows
      else
        let rowData := parseCSVLine line detectedDelimiter trimValues in
        if skipEmptyLines && forallb (fun cell => eqs cell []) rowData then
          parseRows p rest detectedDelimiter trimValues skipEmptyLines
            headers rows
        else
          parseRows p rest detectedDelimiter trimValues skipEmptyLines
            headers (rows ++ [pad rowData (length headers)])
  end.

(** [`Column_${index + 1}`] *)
Definition column_name (index : nat) : jsstring :=
  lit "Column_" ++ Number_toString (Int (Z.of_nat index + 1)).

(** The lines [parseCSVText] works on: BOM removed, split, blank lines
    filtered out when asked. *)
Definition lines_of (csvText : jsstring) (o : options) : list jsstring :=
  let lines := split_lines (removeBOM csvText) in
  if skipEmptyLines o
  then filter (fun line => negb (eqs (trim line) [])) lines
  else lines.

(** The size in bytes of a text once encoded in UTF-8, the measure
    [maxFileSize] is expressed in: one to three bytes per code unit, the two
    halves of a surrogate pair sharing four. *)
Definition byteSize (text : jsstring) : Z :=
  fold_right
    (fun c acc =>
       ((if (c <? 128)%N then 1
         else if (c <? 2048)%N then 2
         else if ((55296 <=? c) && (c <=? 57343))%N then 2
         else 3) + acc)%Z)
    0%Z text.

Definition parseCSVText (p : parser) (csvText : jsstring) (o : options)
  : result table :=
  rethrow (lit "CSV parsing failed: ")
    (if eqs csvText [] then Throw (lit "Invalid CSV text input")
     else
       let lines := lines_of csvText o in
       match lines with
       | [] => Throw (lit "CSV file is empty")
       | line0 :: _ =>
           let detectedDelimiter :=
             match delimiter o with
             | Some d => if eqs d [] then detectDelimiter line0 else d
             | None => detectDelimiter line0
             end in
           hs <- (if hasHeader o then
                    let headers :=
                      parseCSVLine line0 detectedDelimiter (trimValues o) in
                    if (length headers =? 0)%nat
                    then Throw (lit "No headers found in CSV file")
                    else Ok (headers, 1%nat)
                  else
                    let firstRowData :=
                      parseCSVLine line0 detectedDelimiter (trimValues o) in
                    Ok (map column_name (seq 0 (length firstRowData)), 0%nat)) ;;
           let '(headers, dataStartIndex) := hs in
           let rows :=
             parseRows p (skipn dataStartIndex lines) detectedDelimiter
               (trimValues o) (skipEmptyLines o) headers [] in
           if (length headers =? 0)%nat
           then Throw (lit "No valid columns found in CSV file")
           else
             Ok {| headers := headers;
                   rows := rows;
                   totalRows := Z.of_nat (length rows);
                   columns := Z.of_nat (length headers);
                   tb_delimiter := detectedDelimiter;
                   tb_encoding := encoding o;
                   tb_metadata := {|
                     originalLineCount := Z.of_nat (length lines);
                     processedRows := Z.of_nat (length rows);
                     skippedRows :=
                       Z.of_nat (length lines) - Z.of_nat (length rows)
                       - (if hasHeader o then 1 else 0);
                     md_hasHeader := hasHeader o;
                     maxColumnCount :=
                       Math_max (map (fun row => Z.of_nat (length row)) rows)
                   |} |}
       end).

(** *** [validateCSV] and [detectTemplateType]

    Both lower-case the headers.  [lower] stands for
    [String.prototype.toLowerCase], whose Unicode tables are outside the
    development; [toLowerCase] is its restriction to ASCII. *)

Record summary := {
  s_totalRows : Z;
  s_totalColumns : Z;
  s_delimiter : jsstring;
  s_encoding : jsstring
}.

Record validation := {
  v_isValid : bool;
  v_errors : list jsstring;
  v_warnings : list jsstring;
  v_summary : summary
}.

Record detection := {
  d_type : jsstring;
  d_confidence : Q;
  d_reason : jsstring
}.

(** The first [headers.forEach] of [validateCSV]:
    [`Header ${index + 1} is empty`]. *)
Fixpoint empty_header_errors (index : nat) (hs : list jsstring)
  : list jsstring :=
  match hs with
  | [] => []
  | header :: rest =>
      (if eqs header [] || eqs (trim header) [] then
         [lit "Header " ++ Number_toString (Int (Z.of_nat index + 1))
          ++ lit " is empty"]
       else [])
      ++ empty_header_errors (S index) rest
  end.

(** The rows loop of [validateCSV]: the count of inconsistent rows so far
    comes in, the final count and the warnings pushed (for the first five
    only) come out. *)
Fixpoint row_warnings (expectedColumnCount index inconsistentRows : nat)
    (rs : list (list jsstring)) : nat * list jsstring :=
  match rs with
  | [] => (inconsistentRows, [])
  | row :: rest =>
      if (length row =? expectedColumnCount)%nat then
        row_warnings expectedColumnCount (S index) inconsistentRows rest
      else
        let n := S inconsistentRows in
        let '(total, ws) := row_warnings expectedColumnCount (S index) n rest in
        (total,
         (if (n <=? 5)%nat then
            [lit "Row " ++ Number_toString (Int (Z.of_nat index + 2))
             ++ lit " has " ++ Number_toString (Int (Z.of_nat (length row)))
             ++ lit " columns, expected "
             ++ Number_toString (Int (Z.of_nat expectedColumnCount))]
          else [])
         ++ ws)
  end.

Section LowerCase.
Variable lower : jsstring -> jsstring.

(** The second [headers.forEach] of [validateCSV]; [headerSet] is the
    [Set] of the lower-cased headers seen. *)
Fixpoint duplicate_header_warnings (headerSet : list jsstring)
    (hs : list jsstring) : list jsstring :=
  match hs with
  | [] => []
  | header :: rest =>
      (if includesStr headerSet (lower header) then
         [lit "Duplicate header found: " ++ [dquote] ++ header ++ [dquote]]
       else [])
      ++ duplicate_header_warnings (lower header :: headerSet) rest
  end.

(** [validateCSV].  On a table ([headers] and [rows] arrays of strings)
    nothing in the [try] block throws. *)
Definition validateCSV (p : parser) (csvData : table) : validation :=
  let errors :=
    (if (length (headers csvData) =? 0)%nat
     then [lit "No headers found in CSV file"] else [])
    ++ (if (length (rows csvData) =? 0)%nat
        then [lit "No data rows found in CSV file"] else [])
    ++ empty_header_errors 0 (headers csvData) in
  let '(inconsistentRows, rowWarnings) :=
    row_warnings (length (headers csvData)) 0 0 (rows csvData) in
  let warnings :=
    duplicate_header_warnings [] (headers csvData)
    ++ rowWarnings
    ++ (if (5 <? inconsistentRows)%nat then
          [Number_toString (Int (Z.of_nat inconsistentRows - 5))
           ++ lit " more rows have column count inconsistencies"]
        else [])
    ++ (if (maxRows p <? totalRows csvData)%Z then
          [lit "File has " ++ Number_toString (Int (totalRows csvData))
           ++ lit " rows, which exceeds recommended limit of "
           ++ Number_toString (Int (maxRows p))]
        else [])
    ++ (if (100 <? columns csvData)%Z then
          [lit "File has " ++ Number_toString (Int (columns csvData))
           ++ lit " columns, which may impact performance"]
        else []) in
  {| v_isValid := (length errors =? 0)%nat;
     v_errors := errors;
     v_warnings := warnings;
     v_summary := {|
       s_totalRows := totalRows csvData;
       s_totalColumns := columns csvData;
       s_delimiter :=
         if eqs (tb_delimiter csvData) [] then lit ","
         else tb_delimiter csvData;
       s_encoding :=
         if eqs (tb_encoding csvData) [] then lit "UTF-8"
         else tb_encoding csvData |} |}.

(** [patterns.filter((pattern) => headers.some((header) =>
    header.includes(pattern))).length] *)
Definition pattern_matches (patterns hs : list jsstring) : nat :=
  length (filter (fun pattern =>
                    existsb (fun header => includes header pattern) hs)
                 patterns).

Definition updatePatterns : list jsstring :=
  map lit ["where_condition"; "set_values"; "_where"; "_set"; "[where]";
           "[set]"]%string.

Definition insertPatterns : list jsstring :=
  map lit ["id"; "name"; "email"; "created"; "updated"]%string.

(** [Math.min(x, 1.0)] *)
Definition min_one (x : Q) : Q := if Qle_bool x 1 then x else 1%Q.

(** [detectTemplateType] *)
Definition detectTemplateType (csvData : table) : detection :=
  if (length (headers csvData) =? 0)%nat then
    {| d_type := lit "unknown"; d_confidence := 0;
       d_reason := lit "No headers found" |}
  else
    let hs := map lower (headers csvData) in
    let updateMatches := pattern_matches updatePatterns hs in
    if (2 <=? updateMatches)%nat then
      {| d_type := lit "UPDATE";
         d_confidence := min_one (Z.of_nat updateMatches # 2);
         d_reason :=
           lit "Found " ++ Number_toString (Int (Z.of_nat updateMatches))
           ++ lit " UPDATE-specific patterns" |}
    else
      let insertMatches := pattern_matches insertPatterns hs in
      if (2 <=? insertMatches)%nat then
        {| d_type := lit "INSERT";
           d_confidence :=
             min_one (Z.of_nat insertMatches
                      # Pos.of_nat (length insertPatterns));
           d_reason :=
             lit "Found " ++ Number_toString (Int (Z.of_nat insertMatches))
             ++ lit " common INSERT patterns" |}
      else if (0 <? totalRows csvData)%Z then
        {| d_type := lit "INSERT"; d_confidence := 1 # 2;
           d_reason := lit "Default assumption based on data presence" |}
      else
        {| d_type := lit "unknown"; d_confidence := 0;
           d_reason := lit "Unable to determine template type" |}.

End LowerCase.

(** A parser with another row limit. *)
Definition with_maxRows (n : Z) : parser := {|
  supportedEncodings := supportedEncodings new;
  supportedDelimiters := supportedDelimiters new;
  maxFileSize := maxFileSize new;
  maxRows := n
|}.

(** A character that is neither a quote nor the delimiter [d]. *)
Definition plain (d : jsstring) (c : cu) : bool :=
  negb (is_quote c) && negb (eqs [c] d).

(** A text of [n] letters [a], to try the parser on inputs of any size. *)
Definition letters (n : nat) : jsstring := repeat 97%N n.

End CSVParser.

(* ================================================================== *)
(** ** class FieldMapper *)

Module FieldMapper.

(** [this.typePatterns] *)
Definition dash : re := chr 45%N.
Definition colon : re := chr 58%N.
Definition not_space_at : re :=
  Cls (fun c => negb (is_ws c) && negb (c =? 64)%N).

Definition integer_pattern : re := Cat (opt dash) (plus digit).
Definition decimal_pattern : re :=
  Cat (opt dash) (Cat (plus digit) (Cat (chr 46%N) (plus digit))).
Definition boolean_pattern : re :=
  alts (map (fun w => word_i (lit w))
          ["true"; "false"; "1"; "0"; "yes"; "no"; "y"; "n"]%string).
Definition date_pattern : re :=
  Cat (times 4 digit) (Cat dash (Cat (times 2 digit) (Cat dash (times 2 digit)))).
Definition datetime_pattern : re :=
  Cat date_pattern
    (Cat (plus space)
       (Cat (times 2 digit)
          (Cat colon (Cat (times 2 digit) (Cat colon (times 2 digit)))))).
Definition email_pattern : re :=
  Cat (plus not_space_at)
    (Cat (chr 64%N)
       (Cat (plus not_space_at) (Cat (chr 46%N) (plus not_space_at)))).

(** [this.sqlTypes[type]] for the type names the class uses. *)
Definition sqlTypes (type : jsstring) : jsstring :=
  if eqs type (lit "integer") then lit "INT"
  else if eqs type (lit "decimal") then lit "DECIMAL(10,2)"
  else if eqs type (lit "boolean") then lit "BOOLEAN"
  else if eqs type (lit "date") then lit "DATE"
  else if eqs type (lit "datetime") then lit "DATETIME"
  else if eqs type (lit "email") then lit "VARCHAR(255)"
  else if eqs type (lit "shortText") then lit "VARCHAR(255)"
  else if eqs type (lit "longText") then lit "TEXT"
  else lit "VARCHAR(255)".

Record analysis := {
  jsType : jsstring;
  sqlType : jsstring;
  confidence : Q;
  hasNulls : bool;
  maxLength : number
}.

(** [v !== null && v !== undefined && v !== ''] *)
Definition nonEmpty (v : value) : bool :=
  match v with
  | VNull | VUndefined => false
  | VStr s => negb (eqs s [])
  | _ => true
  end.

(** The checks of [analyzeField], in the order of the array literal. *)
Definition typeChecks : list (jsstring * re) :=
  [ (lit "integer", integer_pattern);
    (lit "decimal", decimal_pattern);
    (lit "boolean", boolean_pattern);
    (lit "datetime", datetime_pattern);
    (lit "date", date_pattern);
    (lit "email", email_pattern) ].

(** [nonEmptyValues.filter((v) => check.pattern.test(String(v).trim()))] *)
Definition matches (pattern : re) (nonEmptyValues : list value) : list value :=
  filter (fun v => test pattern (trim (String_ v))) nonEmptyValues.

(** [matches.length / nonEmptyValues.length].  The quotient of two array
    lengths compares with the literal [0.8] as the exact fraction compares
    with 4/5, so the fraction is kept exact. *)
Definition fraction (pattern : re) (nonEmptyValues : list value) : Q :=
  Z.of_nat (length (matches pattern nonEmptyValues))
  # Pos.of_nat (length nonEmptyValues).

(** [determineStringType] *)
Definition determineStringType (values : list value) (maxLength : number)
  : jsstring :=
  if existsb (fun v => test email_pattern (String_ v)) values
  then sqlTypes (lit "email")
  else
    match maxLength with
    | Int m =>
        if (500 <? m)%Z then sqlTypes (lit "longText")
        else if (255 <? m)%Z then lit "VARCHAR(500)"
        else sqlTypes (lit "shortText")
    | PosInf => sqlTypes (lit "longText")
    | _ => sqlTypes (lit "shortText")
    end.

(** The [for (const check of typeChecks)] loop: the first check that
    reaches the threshold returns. *)
Fixpoint checkTypes (checks : list (jsstring * re))
    (nonEmptyValues : list value) (hasNulls : bool) (maxLength : number)
  : option analysis :=
  match checks with
  | [] => None
  | (type, pattern) :: rest =>
      let confidence := fraction pattern nonEmptyValues in
      if Qle_bool (8 # 10) confidence then
        Some {| jsType := type;
                sqlType := sqlTypes type;
                confidence := confidence;
                hasNulls := hasNulls;
                maxLength := maxLength |}
      else checkTypes rest nonEmptyValues hasNulls maxLength
  end.

Definition analyzeField (fieldName : jsstring) (values : list value)
  : analysis :=
  let nonEmptyValues := filter nonEmpty values in
  let hasNulls := (length nonEmptyValues <? length values)%nat in
  let maxLength :=
    Math_max (map (fun v => Z.of_nat (length (String_ v))) nonEmptyValues) in
  if (length nonEmptyValues =? 0)%nat then
    {| jsType := lit "string";
       sqlType := sqlTypes (lit "unknown");
       confidence := 0;
       hasNulls := true;
       maxLength := Int 0 |}
  else
    match checkTypes typeChecks nonEmptyValues hasNulls maxLength with
    | Some a => a
    | None =>
        {| jsType := lit "string";
           sqlType := determineStringType nonEmptyValues maxLength;
           confidence := 1;
           hasNulls := hasNulls;
           maxLength := maxLength |}
    end.

(** The two columns of the examples. *)
Definition digits_column : list value :=
  [VStr (lit "1"); VStr (lit "2"); VStr (lit "3")].
Definition emails_column : list value :=
  [VStr (lit "a@x.com"); VStr (lit "b@y.com")].

(** *** [sanitizeFieldName] and [validateMappings] *)

(** [\w] and the range [\u4e00-\u9fff] *)
Definition is_word (c : cu) : bool :=
  ((48 <=? c) && (c <=? 57) || (65 <=? c) && (c <=? 90)
   || (97 <=? c) && (c <=? 122) || (c =? 95))%N.
Definition is_cjk (c : cu) : bool := ((19968 <=? c) && (c <=? 40959))%N.
Definition underscore : cu := 95%N.

(** What the first replacement keeps. *)
Definition allowed (c : cu) : bool := is_word c || is_cjk c.

(** [.replace(/[^\w\u4e00-\u9fff]/g, '_')] *)
Definition replace_others (s : jsstring) : jsstring :=
  map (fun c => if is_word c || is_cjk c then c else underscore) s.

(** [.replace(/^_+|_+$/g, '')]: the leading run of underscores and the
    trailing one go. *)
Fixpoint strip_leading (s : jsstring) : jsstring :=
  match s with
  | [] => []
  | c :: r => if (c =? underscore)%N then strip_leading r else s
  end.

Fixpoint strip_trailing (s : jsstring) : jsstring :=
  match s with
  | [] => []
  | c :: r =>
      match strip_trailing r with
      | [] => if (c =? underscore)%N then [] else [c]
      | r' => c :: r'
      end
  end.

(** [.replace(/_+/g, '_')]: every run of underscores becomes one;
    [inRun] tells that the previous character was an underscore. *)
Fixpoint collapse_from (inRun : bool) (s : jsstring) : jsstring :=
  match s with
  | [] => []
  | c :: r =>
      if (c =? underscore)%N then
        if inRun then collapse_from true r
        else underscore :: collapse_from true r
      else c :: collapse_from false r
  end.

Definition collapse (s : jsstring) : jsstring := collapse_from false s.

Definition starts_with_underscore (s : jsstring) : bool :=
  match s with
  | c :: _ => (c =? underscore)%N
  | [] => false
  end.

(** [sanitizeFieldName]; [lower] is [String.prototype.toLowerCase]. *)
Definition sanitizeFieldName (lower : jsstring -> jsstring)
    (fieldName : jsstring) : jsstring :=
  firstn 64
    (collapse (strip_trailing (strip_leading (replace_others (lower fieldName))))).

(** A field mapping as [generateMapping] builds it. *)
Record fieldMapping := {
  fm_sqlFieldName : jsstring;
  fm_sqlType : jsstring;
  fm_jsType : jsstring;
  fm_confidence : Q;
  fm_nullable : bool;
  fm_maxLength : number;
  fm_sampleValues : list value
}.

(** The entry the [forEach] of [generateMapping] stores under [header];
    [columnData] is the column it read from the rows
    ([Object.values(row)[index] || '']). *)
Definition mappingEntry (lower : jsstring -> jsstring) (header : jsstring)
    (columnData : list value) : fieldMapping :=
  let fieldAnalysis := analyzeField header columnData in
  {| fm_sqlFieldName := sanitizeFieldName lower header;
     fm_sqlType := sqlType fieldAnalysis;
     fm_jsType := jsType fieldAnalysis;
     fm_confidence := confidence fieldAnalysis;
     fm_nullable := hasNulls fieldAnalysis;
     fm_maxLength := maxLength fieldAnalysis;
     fm_sampleValues := filter truthy (firstn 3 columnData) |}.

Record mappingValidation := {
  mv_isValid : bool;
  mv_errors : list jsstring;
  mv_warnings : list jsstring
}.

(** The state of the [forEach] of [validateMappings]. *)
Record mappingCheck := {
  mc_errors : list jsstring;
  mc_warnings : list jsstring;
  mc_usedSqlNames : list jsstring
}.

Section Percent.
(** [percent c] is the text of [(c * 100).toFixed(0)], a floating-point
    rendering the development does not fix. *)
Variable percent : Q -> jsstring.

(** One entry of [Object.entries(fieldMappings).forEach]. *)
Definition checkMapping (st : mappingCheck)
    (entry : jsstring * fieldMapping) : mappingCheck :=
  let '(originalName, m) := entry in
  let duplicate := includesStr (mc_usedSqlNames st) (fm_sqlFieldName m) in
  {| mc_errors :=
       mc_errors st
       ++ (if duplicate
           then [lit "Duplicate SQL field name: " ++ fm_sqlFieldName m]
           else [])
       ++ (if (64 <? length (fm_sqlFieldName m))%nat
           then [lit "SQL field name too long: " ++ fm_sqlFieldName m]
           else []);
     mc_warnings :=
       mc_warnings st
       ++ (if Qle_bool (1 # 2) (fm_confidence m) then []
           else [lit "Low confidence mapping for field: " ++ originalName
                 ++ lit " (" ++ percent (fm_confidence m) ++ lit "%)"]);
     mc_usedSqlNames :=
       if duplicate then mc_usedSqlNames st
       else mc_usedSqlNames st ++ [fm_sqlFieldName m] |}.

(** [validateMappings] *)
Definition validateMappings (fieldMappings : list (jsstring * fieldMapping))
  : mappingValidation :=
  let st :=
    fold_left checkMapping fieldMappings
      {| mc_errors := []; mc_warnings := []; mc_usedSqlNames := [] |} in
  {| mv_isValid := (length (mc_errors st) =? 0)%nat;
     mv_errors := mc_errors st;
     mv_warnings := mc_warnings st |}.

End Percent.

End FieldMapper.

(* ================================================================== *)
(** ** class SQLGenerator *)

Module SQLGenerator.

(** One entry of [this.syntaxMap]; the keys an entry does not define are
    [None]. *)
Record syntax := {
  quoteChar : jsstring;
  quoteCharEnd : option jsstring;
  stringQuote : jsstring;
  booleanTrue : jsstring;
  booleanFalse : jsstring;
  autoIncrement : jsstring;
  primaryKey : jsstring;
  createTable : jsstring;
  insertIgnore : jsstring;
  onDuplicateKey : option jsstring;
  onConflict : option jsstring
}.

Definition mysql : syntax := {|
  quoteChar := lit "`"; quoteCharEnd := None; stringQuote := lit "'";
  booleanTrue := lit "TRUE"; booleanFalse := lit "FALSE";
  autoIncrement := lit "AUTO_INCREMENT"; primaryKey := lit "PRIMARY KEY";
  createTable := lit "CREATE TABLE IF NOT EXISTS";
  insertIgnore := lit "INSERT IGNORE INTO";
  onDuplicateKey := Some (lit "ON DUPLICATE KEY UPDATE");
  onConflict := None |}.

Definition postgresql : syntax := {|
  quoteChar := [dquote]; quoteCharEnd := None; stringQuote := lit "'";
  booleanTrue := lit "TRUE"; booleanFalse := lit "FALSE";
  autoIncrement := lit "SERIAL"; primaryKey := lit "PRIMARY KEY";
  createTable := lit "CREATE TABLE IF NOT EXISTS";
  insertIgnore := lit "INSERT INTO";
  onDuplicateKey := None;
  onConflict := Some (lit "ON CONFLICT DO NOTHING") |}.

Definition sqlite : syntax := {|
  quoteChar := [dquote]; quoteCharEnd := None; stringQuote := lit "'";
  booleanTrue := lit "1"; booleanFalse := lit "0";
  autoIncrement := lit "INTEGER PRIMARY KEY AUTOINCREMENT";
  primaryKey := lit "PRIMARY KEY";
  createTable := lit "CREATE TABLE IF NOT EXISTS";
  insertIgnore := lit "INSERT OR IGNORE INTO";
  onDuplicateKey := None; onConflict := None |}.

Definition sqlserver : syntax := {|
  quoteChar := lit "["; quoteCharEnd := Some (lit "]"); stringQuote := lit "'";
  booleanTrue := lit "1"; booleanFalse := lit "0";
  autoIncrement := lit "IDENTITY(1,1)"; primaryKey := lit "PRIMARY KEY";
  createTable := lit "CREATE TABLE";
  insertIgnore := lit "INSERT INTO";
  onDuplicateKey := None; onConflict := None |}.

Definition supportedDatabases : list jsstring :=
  [lit "mysql"; lit "postgresql"; lit "sqlite"; lit "sqlserver"].
Definition defaultBatchSize : Z := 500.

(** [this.syntaxMap[name]] *)
Definition syntaxMap (name : jsstring) : option syntax :=
  if eqs name (lit "mysql") then Some mysql
  else if eqs name (lit "postgresql") then Some postgresql
  else if eqs name (lit "sqlite") then Some sqlite
  else if eqs name (lit "sqlserver") then Some sqlserver
  else None.

(** What the generator reads of a field mapping. *)
Record mapping := {
  sqlFieldName : jsstring;
  sqlType : jsstring;
  jsType : jsstring;
  nullable : bool
}.

(** A JavaScript object used as a record of cells: its own keys, which
    are distinct, in the order of [Object.keys]. *)
Definition obj (A : Type) := list (jsstring * A).

Fixpoint own {A} (o : obj A) (key : jsstring) : option A :=
  match o with
  | [] => None
  | (k, v) :: rest => if eqs k key then Some v else own rest key
  end.

(** What an object literal inherits: the members of [Object.prototype],
    functions but for [__proto__], with the text [String] gives for them. *)
Definition native (name : string) : value :=
  VObj (lit "function " ++ lit name ++ lit "() { [native code] }").

Definition Object_prototype : obj value :=
  [ (lit "constructor", native "Object");
    (lit "__defineGetter__", native "__defineGetter__");
    (lit "__defineSetter__", native "__defineSetter__");
    (lit "hasOwnProperty", native "hasOwnProperty");
    (lit "__lookupGetter__", native "__lookupGetter__");
    (lit "__lookupSetter__", native "__lookupSetter__");
    (lit "isPrototypeOf", native "isPrototypeOf");
    (lit "propertyIsEnumerable", native "propertyIsEnumerable");
    (lit "toString", native "toString");
    (lit "valueOf", native "valueOf");
    (lit "__proto__", VObj (lit "[object Object]"));
    (lit "toLocaleString", native "toLocaleString") ].

(** [row[key]]: the row's own cell, else the inherited member, else
    [undefined]. *)
Definition get (row : obj value) (key : jsstring) : value :=
  match own row key with
  | Some v => v
  | None =>
      match own Object_prototype key with
      | Some v => v
      | None => VUndefined
      end
  end.

Definition keys {A} (o : obj A) : list jsstring := map fst o.

(** [config.options]; an absent key is [VUndefined]. *)
Record options := {
  batchSize : value;
  includeTransaction : value;
  includeComments : value;
  includeCreateTable : value;
  insertMode : value
}.

(** [options = {}] *)
Definition no_options : options := {|
  batchSize := VUndefined;
  includeTransaction := VUndefined;
  includeComments := VUndefined;
  includeCreateTable := VUndefined;
  insertMode := VUndefined
|}.

Record config := {
  operation : jsstring;
  databaseName : jsstring;
  tableName : jsstring;
  databaseType : jsstring;
  fieldMappings : obj mapping;
  csvData_rows : list (obj value);
  cfg_options : options
}.

Record metadata := {
  md_operation : jsstring;
  md_databaseType : jsstring;
  md_tableName : jsstring;
  recordCount : Z;
  batchCount : Z;
  generatedAt : jsstring
}.

Record generation := {
  sql : jsstring;
  gen_metadata : metadata;
  success : bool
}.

(** [x !== false] *)
Definition not_false (v : value) : bool :=
  match v with
  | VBool false => false
  | _ => true
  end.

(** [v === 'literal'] *)
Definition is_str (v : value) (s : jsstring) : bool :=
  match v with
  | VStr x => eqs x s
  | _ => false
  end.

(** [value === null || value === undefined || value === ''] *)
Definition is_blank (v : value) : bool :=
  match v with
  | VNull | VUndefined => true
  | VStr s => eqs s []
  | _ => false
  end.

(** [validateConfig]: [fieldMappings] and [csvData] are objects, hence
    truthy, and [csvData.rows] is an array; the string keys are missing when
    empty. *)
Definition validateConfig (c : config) : result unit :=
  let missing f := Throw (lit "Missing required configuration: " ++ lit f) in
  if eqs (operation c) [] then missing "operation"%string
  else if eqs (databaseName c) [] then missing "databaseName"%string
  else if eqs (tableName c) [] then missing "tableName"%string
  else if eqs (databaseType c) [] then missing "databaseType"%string
  else if negb (includesStr supportedDatabases (toLowerCase (databaseType c)))
  then Throw (lit "Unsupported database type: " ++ databaseType c)
  else if negb (includesStr [lit "INSERT"; lit "UPDATE"]
                  (toUpperCase (operation c)))
  then Throw (lit "Unsupported operation: " ++ operation c)
  else Ok tt.

(** [quoteIdentifier] *)
Definition quoteIdentifier (identifier : jsstring) (sx : syntax) : jsstring :=
  let endQuote :=
    match quoteCharEnd sx with
    | Some q => if eqs q [] then quoteChar sx else q
    | None => quoteChar sx
    end in
  quoteChar sx ++ identifier ++ endQuote.

(** [formatValue] *)
Definition formatValue (v : value) (m : mapping) (sx : syntax) : jsstring :=
  if is_blank v then lit "NULL"
  else
    let stringValue := trim (String_ v) in
    if eqs (jsType m) (lit "integer") then stringValue
    else if eqs (jsType m) (lit "decimal") then stringValue
    else if eqs (jsType m) (lit "boolean") then
      let boolValue := toLowerCase stringValue in
      if includesStr [lit "true"; lit "1"; lit "yes"; lit "y"] boolValue
      then booleanTrue sx else booleanFalse sx
    else
      let escapedValue := replaceAll stringValue squote [squote; squote] in
      stringQuote sx ++ escapedValue ++ stringQuote sx.

(** [quoteValue].  Its callers pass the syntax object as second argument, so
    the [switch] over dialect names always takes its [default] branch. *)
Definition quoteValue (v : value) (sx : syntax) : jsstring :=
  match v with
  | VNull | VUndefined => lit "NULL"
  | _ =>
      if (match v with VNum _ => true | _ => false end) || negb (isNaN v)
      then String_ v
      else
        let stringValue := String_ v in
        [squote] ++ replaceAll stringValue squote [squote; squote] ++ [squote]
  end.

(** [generateCreateTableSQL] *)
Definition generateCreateTableSQL (tableName : jsstring)
    (fieldMappings : obj mapping) (sx : syntax) : jsstring :=
  let columns :=
    map (fun '(_, m) =>
           lit "  " ++ quoteIdentifier (sqlFieldName m) sx ++ lit " "
           ++ sqlType m ++ (if nullable m then [] else lit " NOT NULL"))
        fieldMappings in
  createTable sx ++ lit " " ++ quoteIdentifier tableName sx ++ lit " (" ++ nl
  ++ join (lit "," ++ nl) columns ++ nl ++ lit ");".

(** [generateOnDuplicateKeyUpdate] *)
Definition generateOnDuplicateKeyUpdate (fieldMappings : obj mapping)
    (sx : syntax) : jsstring :=
  let updates :=
    map (fun '(_, m) =>
           let quotedField := quoteIdentifier (sqlFieldName m) sx in
           quotedField ++ lit " = VALUES(" ++ quotedField ++ lit ")")
        fieldMappings in
  lit "ON DUPLICATE KEY UPDATE" ++ nl ++ lit "  "
  ++ join (lit "," ++ nl ++ lit "  ") updates.

(** [rows.slice(start, end)]: negative indices count from the end,
    [-Infinity] is the start and [Infinity] the end of the array, [NaN] is
    0. *)
Definition slice_index (len : Z) (x : number) : Z :=
  match x with
  | Int z => if (z <? 0)%Z then Z.max (len + z) 0 else Z.min z len
  | NegInf | NaN => 0%Z
  | PosInf => len
  end.

Definition slice {A} (l : list A) (start stop : number) : list A :=
  let len := Z.of_nat (length l) in
  let k := slice_index len start in
  let final := slice_index len stop in
  firstn (Z.to_nat (final - k)) (skipn (Z.to_nat k) l).

(** [parseInt(options.batchSize) || this.defaultBatchSize]: [0] and [NaN]
    are falsy, the infinities are not. *)
Definition batchSize_of (o : options) : number :=
  let n := parseInt (batchSize o) in
  if truthy_num n then n else Int defaultBatchSize.

(** One value row of a batch: [`  (${values.join(', ')})`] *)
Definition rowValues (c : config) (sx : syntax) (row : obj value)
  : list jsstring :=
  map (fun '(field, m) => formatValue (get row field) m sx) (fieldMappings c).

Definition valueRow (c : config) (sx : syntax) (row : obj value) : jsstring :=
  lit "  (" ++ join (lit ", ") (rowValues c sx row) ++ lit ")".

(** The text one non-empty batch adds to [sql]. *)
Definition insertStatement (c : config) (sx : syntax)
    (batch : list (obj value)) : jsstring :=
  let o := cfg_options c in
  let quotedFields :=
    map (fun '(_, m) => quoteIdentifier (sqlFieldName m) sx)
        (fieldMappings c) in
  let insertType :=
    if is_str (insertMode o) (lit "ignore") then insertIgnore sx
    else lit "INSERT INTO" in
  insertType ++ lit " " ++ quoteIdentifier (tableName c) sx ++ nl
  ++ lit "  (" ++ join (lit ", ") quotedFields ++ lit ")" ++ nl
  ++ lit "VALUES" ++ nl
  ++ join (lit "," ++ nl) (map (valueRow c sx) batch)
  ++ (match onDuplicateKey sx with
      | Some _ =>
          if is_str (insertMode o) (lit "update")
          then nl ++ generateOnDuplicateKeyUpdate (fieldMappings c) sx
          else []
      | None => []
      end)
  ++ (match onConflict sx with
      | Some clause =>
          if is_str (insertMode o) (lit "ignore") then nl ++ clause else []
      | None => []
      end)
  ++ lit ";" ++ nl ++ nl.

(** What [generateInsertSQL] and [generateUpdateSQL] return. *)
Record body := {
  b_sql : jsstring;
  b_recordCount : Z;
  b_batchCount : Z
}.

(** The [for (let i = 0; i < rows.length; i += batchSize)] loop.  A negative
    batch size never brings [i] past [rows.length]: the loop is run on fuel
    and [None] is a run that has not finished. *)
Fixpoint insertLoop (fuel : nat) (c : config) (sx : syntax) (bs : number)
    (i : number) (st : body) : option body :=
  let rows := csvData_rows c in
  if lt_num i (Int (Z.of_nat (length rows))) then
    match fuel with
    | O => None
    | S fuel' =>
        let batch := slice rows i (add_num i bs) in
        if (length batch =? 0)%nat
        then insertLoop fuel' c sx bs (add_num i bs) st
        else
          insertLoop fuel' c sx bs (add_num i bs)
            {| b_sql := b_sql st ++ insertStatement c sx batch;
               b_recordCount := b_recordCount st + Z.of_nat (length batch);
               b_batchCount := b_batchCount st + 1 |}
    end
  else Some st.

(** The non-empty batches the loop goes through, in order: the same
    slicing, with the batches collected instead of rendered. *)
Fixpoint batches_from {A} (fuel : nat) (rows : list A) (bs : number)
    (i : number) : list (list A) :=
  if lt_num i (Int (Z.of_nat (length rows))) then
    match fuel with
    | O => []
    | S fuel' =>
        let batch := slice rows i (add_num i bs) in
        if (length batch =? 0)%nat
        then batches_from fuel' rows bs (add_num i bs)
        else batch :: batches_from fuel' rows bs (add_num i bs)
    end
  else [].

(** [generateInsertSQL] *)
Definition generateInsertSQL (fuel : nat) (c : config) (sx : syntax)
  : option body :=
  let o := cfg_options c in
  let bs := batchSize_of o in
  let sql0 :=
    if truthy (includeCreateTable o)
    then generateCreateTableSQL (tableName c) (fieldMappings c) sx ++ nl ++ nl
    else [] in
  insertLoop fuel c sx bs (Int 0)
    {| b_sql := sql0; b_recordCount := 0; b_batchCount := 0 |}.

(** The conditions one row contributes for the keys ending in [suffix]:
    [`${quoteIdentifier(fieldName)} = ${quoteValue(fieldValue)}`] for every
    such key whose cell is not blank. *)
Definition whereFields (row : obj value) (sx : syntax) : list jsstring :=
  flat_map (fun key =>
              if endsWith key (lit "[WHERE]") then
                let fieldName := replaceFirst key (lit "[WHERE]") [] in
                let fieldValue := get row key in
                if is_blank fieldValue then []
                else [quoteIdentifier fieldName sx ++ lit " = "
                      ++ quoteValue fieldValue sx]
              else [])
           (keys row).

Definition setFields (row : obj value) (sx : syntax) : list jsstring :=
  flat_map (fun key =>
              if endsWith key (lit "[WHERE]") then []
              else if endsWith key (lit "[SET]") then
                let fieldName := replaceFirst key (lit "[SET]") [] in
                let fieldValue := get row key in
                if is_blank fieldValue then []
                else [quoteIdentifier fieldName sx ++ lit " = "
                      ++ quoteValue fieldValue sx]
              else [])
           (keys row).

(** Whether a row has a [[WHERE]]-suffixed (a [[SET]]-suffixed) column
    whose cell is neither [null], [undefined] nor empty. *)
Definition has_where (row : obj value) : bool :=
  existsb (fun key => endsWith key (lit "[WHERE]")
                      && negb (is_blank (get row key)))
          (keys row).

Definition has_set (row : obj value) : bool :=
  existsb (fun key => endsWith key (lit "[SET]")
                      && negb (is_blank (get row key)))
          (keys row).

(** The body of [rows.forEach] in [generateUpdateSQL]. *)
Definition err_no_where : jsstring :=
  lit "UPDATE mode requires at least one WHERE condition field (column name with [WHERE] suffix)".
Definition err_no_set : jsstring :=
  lit "UPDATE mode requires at least one SET field (column name with [SET] suffix)".

Definition updateRow (c : config) (sx : syntax) (st : body)
    (row : obj value) : result body :=
  let wf := whereFields row sx in
  let sf := setFields row sx in
  if (length wf =? 0)%nat then Throw err_no_where
  else if (length sf =? 0)%nat then Throw err_no_set
  else
    Ok {| b_sql :=
            b_sql st
            ++ lit "UPDATE " ++ quoteIdentifier (tableName c) sx ++ nl
            ++ lit "SET " ++ join (lit ", ") sf ++ nl
            ++ lit "WHERE " ++ join (lit " AND ") wf ++ lit ";" ++ nl ++ nl;
          b_recordCount := b_recordCount st + 1;
          b_batchCount := b_batchCount st |}.

Fixpoint forEach_update (c : config) (sx : syntax) (rows : list (obj value))
    (st : body) : result body :=
  match rows with
  | [] => Ok st
  | row :: rest =>
      st' <- updateRow c sx st row ;;
      forEach_update c sx rest st'
  end.

(** [generateUpdateSQL] *)
Definition generateUpdateSQL (c : config) (sx : syntax) : result body :=
  forEach_update c sx (csvData_rows c)
    {| b_sql := []; b_recordCount := 0; b_batchCount := 1 |}.

(** [getTransactionStart], [getTransactionEnd], [getTransactionRollback] *)
Definition getTransactionStart (databaseType : jsstring) : jsstring :=
  let t := toLowerCase databaseType in
  if eqs t (lit "mysql") then lit "START TRANSACTION;" ++ nl ++ nl
  else if eqs t (lit "postgresql") then lit "BEGIN;" ++ nl ++ nl
  else if eqs t (lit "sqlite") then lit "BEGIN TRANSACTION;" ++ nl ++ nl
  else if eqs t (lit "sqlserver") then lit "BEGIN TRANSACTION;" ++ nl ++ nl
  else lit "BEGIN;" ++ nl ++ nl.

Definition getTransactionEnd (databaseType : jsstring) : jsstring :=
  nl ++ lit "COMMIT;" ++ nl.

Definition getTransactionRollback (databaseType : jsstring) : jsstring :=
  nl ++ lit "ROLLBACK;" ++ nl.

Definition rule : jsstring :=
  lit "-- =====================================================" ++ nl.

(** [generateHeader] *)
Definition generateHeader (c : config) (md : metadata) : jsstring :=
  rule
  ++ lit "-- Enhanced Import SQL Generator" ++ nl
  ++ lit "-- Generated: " ++ generatedAt md ++ nl
  ++ rule
  ++ lit "-- Operation: " ++ operation c ++ nl
  ++ lit "-- Database: " ++ databaseName c ++ nl
  ++ lit "-- Table: " ++ tableName c ++ nl
  ++ lit "-- Database Type: " ++ databaseType c ++ nl
  ++ rule ++ nl.

(** [generateFooter]; [completed] is the clock at that moment. *)
Definition generateFooter (md : metadata) (completed : jsstring) : jsstring :=
  nl ++ rule
  ++ lit "-- Summary:" ++ nl
  ++ lit "-- Records processed: " ++ Number_toString (Int (recordCount md)) ++ nl
  ++ lit "-- Batches generated: " ++ Number_toString (Int (batchCount md)) ++ nl
  ++ lit "-- Completed: " ++ completed ++ nl
  ++ rule.

(** [generateSQL].  [now] and [completed] are the two readings of the clock
    ([new Date().toISOString()]); [fuel] bounds the INSERT loop, and [None]
    is a call that has not returned. *)
Definition generateSQL (fuel : nat) (now completed : jsstring) (c : config)
  : option (result generation) :=
  match validateConfig c with
  | Throw m => Some (Throw m)
  | Ok _ =>
      match syntaxMap (toLowerCase (databaseType c)) with
      | None => Some (Throw (lit "Unsupported database type: " ++ databaseType c))
      | Some sx =>
          let o := cfg_options c in
          let md0 := {| md_operation := operation c;
                        md_databaseType := databaseType c;
                        md_tableName := tableName c;
                        recordCount := 0;
                        batchCount := 0;
                        generatedAt := now |} in
          let sqlScript :=
            (if not_false (includeComments o) then generateHeader c md0 else [])
            ++ (if not_false (includeTransaction o)
                then getTransactionStart (databaseType c) else []) in
          let finish (r : option body) :=
            let md :=
              match r with
              | Some b => {| md_operation := operation c;
                             md_databaseType := databaseType c;
                             md_tableName := tableName c;
                             recordCount := b_recordCount b;
                             batchCount := b_batchCount b;
                             generatedAt := now |}
              | None => md0
              end in
            Ok {| sql :=
                    sqlScript
                    ++ (match r with Some b => b_sql b | None => [] end)
                    ++ (if not_false (includeTransaction o)
                        then getTransactionEnd (databaseType c) else [])
                    ++ (if not_false (includeComments o)
                        then generateFooter md completed else []);
                  gen_metadata := md;
                  success := true |} in
          if eqs (operation c) (lit "INSERT") then
            match generateInsertSQL fuel c sx with
            | None => None
            | Some b => Some (finish (Some b))
            end
          else if eqs (operation c) (lit "UPDATE") then
            match generateUpdateSQL c sx with
            | Ok b => Some (finish (Some b))
            | Throw m => Some (Throw (lit "SQL generation failed: " ++ m))
            end
          else Some (finish None)
      end
  end.

(** The configuration of the end-to-end example: one row
    [{id: 1, name: "O'Brien"}] for table [users] on MySQL, [id] mapped as an
    integer and [name] as a string, no option set. *)
Definition m_id : mapping := {|
  sqlFieldName := lit "id"; sqlType := lit "INT";
  jsType := lit "integer"; nullable := false |}.
Definition m_name : mapping := {|
  sqlFieldName := lit "name"; sqlType := lit "VARCHAR(255)";
  jsType := lit "string"; nullable := false |}.
Definition obrien (db : jsstring) : config := {|
  operation := lit "INSERT";
  databaseName := db;
  tableName := lit "users";
  databaseType := lit "mysql";
  fieldMappings := [(lit "id", m_id); (lit "name", m_name)];
  csvData_rows := [[(lit "id", VNum (Int 1)); (lit "name", VStr (lit "O'Brien"))]];
  cfg_options := no_options
|}.
Definition obrien_statement : jsstring :=
  lit "INSERT INTO `users`" ++ nl
  ++ lit "  (`id`, `name`)" ++ nl
  ++ lit "VALUES" ++ nl
  ++ lit "  (1, 'O''Brien');" ++ nl ++ nl.

(** An UPDATE configuration of two rows, the second with an empty
    [[WHERE]] cell. *)
Definition update_example : config := {|
  operation := lit "UPDATE";
  databaseName := lit "shop";
  tableName := lit "users";
  databaseType := lit "postgresql";
  fieldMappings := [];
  csvData_rows :=
    [ [(lit "id[WHERE]", VStr (lit "7")); (lit "name[SET]", VStr (lit "Ann"))];
      [(lit "id[WHERE]", VStr []); (lit "name[SET]", VStr (lit "Bob"))] ];
  cfg_options := no_options
|}.

(** An INSERT configuration of [n] one-cell rows numbered from 1, with the
    given [batchSize] option. *)
Definition numbered (n : nat) (bs : value) : config := {|
  operation := lit "INSERT";
  databaseName := lit "shop";
  tableName := lit "items";
  databaseType := lit "sqlite";
  fieldMappings := [(lit "id", m_id)];
  csvData_rows :=
    map (fun k => [(lit "id", VNum (Int (Z.of_nat k)))]) (seq 1 n);
  cfg_options := {|
    batchSize := bs;
    includeTransaction := VUndefined;
    includeComments := VUndefined;
    includeCreateTable := VUndefined;
    insertMode := VUndefined |}
|}.

(** The number of [c] in [s]. *)
Definition count_cu (c : cu) (s : jsstring) : nat :=
  length (filter (N.eqb c) s).

(** *** [estimateSize] *)

Record estimate := {
  est_recordCount : Z;
  est_fieldCount : Z;
  est_batchCount : Z;
  estimatedSizeBytes : Z;
  estimatedSizeKB : Z;
  estimatedSizeMB : Q
}.

(** [Math.ceil(a / b)] for an integer [a] and a number [b] that is neither
    [0] nor [NaN]; a quotient by an infinity is a zero. *)
Definition Math_ceil_div (a : Z) (b : number) : Z :=
  match b with
  | Int z => (- ((- a) / z))%Z
  | _ => 0%Z
  end.

(** [Math.round(a / b)] on integers, [b] positive: halves go up. *)
Definition Math_round_div (a b : Z) : Z := ((2 * a + b) / (2 * b))%Z.

(** [estimateSize]; the sizes stay far below 2^53, where the divisions
    are exact.  The batch size is neither [0] nor [NaN], which are falsy. *)
Definition estimateSize (c : config) : estimate :=
  let recordCount := Z.of_nat (length (csvData_rows c)) in
  let fieldCount := Z.of_nat (length (keys (fieldMappings c))) in
  let batchSize := batchSize_of (cfg_options c) in
  let batchCount := Math_ceil_div recordCount batchSize in
  let avgFieldLength := 20%Z in
  let estimatedSize :=
    (recordCount * fieldCount * avgFieldLength + batchCount * 100)%Z in
  {| est_recordCount := recordCount;
     est_fieldCount := fieldCount;
     est_batchCount := batchCount;
     estimatedSizeBytes := estimatedSize;
     estimatedSizeKB := Math_round_div estimatedSize 1024;
     estimatedSizeMB :=
       Math_round_div (estimatedSize * 100) (1024 * 1024) # 100 |}.



(** The end-to-end example with its operation in lower case. *)
Definition obrien_lowercase : config := {|
  operation := lit "insert";
  databaseName := lit "shop";
  tableName := tableName (obrien (lit "shop"));
  databaseType := databaseType (obrien (lit "shop"));
  fieldMappings := fieldMappings (obrien (lit "shop"));
  csvData_rows := csvData_rows (obrien (lit "shop"));
  cfg_options := no_options
|}.

(** The statement one row of [generateUpdateSQL] adds to [sql]. *)
Definition updateStatement (c : config) (sx : syntax) (row : obj value)
  : jsstring :=
  lit "UPDATE " ++ quoteIdentifier (tableName c) sx ++ nl
  ++ lit "SET " ++ join (lit ", ") (setFields row sx) ++ nl
  ++ lit "WHERE " ++ join (lit " AND ") (whereFields row sx)
  ++ lit ";" ++ nl ++ nl.

(** What [generateSQL] puts around the statements. *)
Definition script_head (now : jsstring) (c : config) : jsstring :=
  (if not_false (includeComments (cfg_options c)) then
     generateHeader c
       {| md_operation := operation c;
          md_databaseType := databaseType c;
          md_tableName := tableName c;
          recordCount := 0;
          batchCount := 0;
          generatedAt := now |}
   else [])
  ++ (if not_false (includeTransaction (cfg_options c))
      then getTransactionStart (databaseType c) else []).

Definition script_tail (completed : jsstring) (c : config) (md : metadata)
  : jsstring :=
  (if not_false (includeTransaction (cfg_options c))
   then getTransactionEnd (databaseType c) else [])
  ++ (if not_false (includeComments (cfg_options c))
      then generateFooter md completed else []).

End SQLGenerator.

(* ================================================================== *)
(** ** class UpdateOperationHandler *)

Module UpdateOperationHandler.

Record setField := {
  name : jsstring;
  sf_value : value;
  sf_dataType : jsstring
}.

Record whereCondition := {
  fieldName : jsstring;
  operator : jsstring;
  wc_value : value;
  wc_dataType : jsstring;
  logicalOperator : jsstring
}.

(** The fields of a handler. *)
Record handler := {
  tableName : jsstring;
  setFields : list setField;
  whereConditions : list whereCondition;
  validationErrors : list jsstring
}.

(** [constructor] and [reset] *)
Definition new : handler := {|
  tableName := [];
  setFields := [];
  whereConditions := [];
  validationErrors := []
|}.

Definition reset (h : handler) : handler := new.

(** [setTableName] *)
Definition setTableName (h : handler) (tableName' : jsstring)
  : result handler :=
  if eqs tableName' [] || eqs (trim tableName') [] then
    Throw (lit "Table name is required and must be a non-empty string")
  else
    Ok {| tableName := trim tableName';
          setFields := setFields h;
          whereConditions := whereConditions h;
          validationErrors := validationErrors h |}.

(** [addSetField] *)
Definition addSetField (h : handler) (fieldName' : jsstring) (v : value)
    (dataType : jsstring) : result handler :=
  if eqs fieldName' [] || eqs (trim fieldName') [] then
    Throw (lit "Field name is required and must be a non-empty string")
  else
    Ok {| tableName := tableName h;
          setFields :=
            filter (fun field => negb (eqs (name field) (trim fieldName')))
              (setFields h)
            ++ [ {| name := trim fieldName';
                    sf_value := v;
                    sf_dataType := dataType |} ];
          whereConditions := whereConditions h;
          validationErrors := validationErrors h |}.

Definition validOperators : list jsstring :=
  map lit ["="; "!="; "<>"; "<"; ">"; "<="; ">="; "LIKE"; "NOT LIKE"; "IN";
           "NOT IN"; "IS NULL"; "IS NOT NULL"]%string.

Definition validLogicalOperators : list jsstring := [lit "AND"; lit "OR"].

(** [addWhereCondition] *)
Definition addWhereCondition (h : handler) (fieldName' operator' : jsstring)
    (v : value) (dataType logicalOperator' : jsstring) : result handler :=
  if eqs fieldName' [] || eqs (trim fieldName') [] then
    Throw (lit "Field name is required for WHERE condition")
  else if negb (includesStr validOperators (toUpperCase operator')) then
    Throw (lit "Invalid operator: " ++ operator'
           ++ lit ". Valid operators are: " ++ join (lit ", ") validOperators)
  else if negb (includesStr validLogicalOperators
                  (toUpperCase logicalOperator')) then
    Throw (lit "Invalid logical operator: " ++ logicalOperator'
           ++ lit ". Valid operators are: "
           ++ join (lit ", ") validLogicalOperators)
  else
    Ok {| tableName := tableName h;
          setFields := setFields h;
          whereConditions :=
            whereConditions h
            ++ [ {| fieldName := trim fieldName';
                    operator := toUpperCase operator';
                    wc_value := v;
                    wc_dataType := dataType;
                    logicalOperator := toUpperCase logicalOperator' |} ];
          validationErrors := validationErrors h |}.

Definition is_undefined (v : value) : bool :=
  match v with
  | VUndefined => true
  | _ => false
  end.

(** The messages the [setFields.forEach] of [validate] pushes. *)
Fixpoint validate_setFields (index : nat) (fields : list setField)
  : list jsstring :=
  match fields with
  | [] => []
  | field :: rest =>
      (if eqs (name field) [] then
         [lit "SET field at index "
          ++ Number_toString (Int (Z.of_nat index))
          ++ lit " is missing a name"]
       else [])
      ++ (if is_undefined (sf_value field) then
            [lit "SET field '" ++ name field ++ lit "' is missing a value"]
          else [])
      ++ validate_setFields (S index) rest
  end.

(** The messages the [whereConditions.forEach] of [validate] pushes. *)
Fixpoint validate_whereConditions (index : nat)
    (conditions : list whereCondition) : list jsstring :=
  match conditions with
  | [] => []
  | condition :: rest =>
      (if eqs (fieldName condition) [] then
         [lit "WHERE condition at index "
          ++ Number_toString (Int (Z.of_nat index))
          ++ lit " is missing a field name"]
       else [])
      ++ (if negb (includesStr [lit "IS NULL"; lit "IS NOT NULL"]
                     (operator condition))
             && is_undefined (wc_value condition) then
            [lit "WHERE condition '" ++ fieldName condition
             ++ lit "' is missing a value"]
          else [])
      ++ validate_whereConditions (S index) rest
  end.

(** [validate]: the messages are collected in [this.validationErrors], the
    only list the class keeps; the answer is whether it stayed empty. *)
Definition validate (h : handler) : bool * handler :=
  let errors :=
    (if eqs (tableName h) [] then [lit "Table name is required"] else [])
    ++ (if (length (setFields h) =? 0)%nat then
          [lit "At least one SET field is required for UPDATE operation"]
        else [])
    ++ (if (length (whereConditions h) =? 0)%nat then
          [lit "WHERE conditions are strongly recommended to prevent updating all rows"]
        else [])
    ++ validate_setFields 0 (setFields h)
    ++ validate_whereConditions 0 (whereConditions h) in
  ((length errors =? 0)%nat,
   {| tableName := tableName h;
      setFields := setFields h;
      whereConditions := whereConditions h;
      validationErrors := errors |}).

(** [formatValueForSQL] *)
Definition formatValueForSQL (v : value) (dataType : jsstring) : jsstring :=
  let quoted :=
    [squote] ++ replaceAll (String_ v) squote [squote; squote] ++ [squote] in
  match v with
  | VNull | VUndefined => lit "NULL"
  | _ =>
      let t := toLowerCase dataType in
      if includesStr [lit "string"; lit "text"; lit "varchar"] t then quoted
      else if includesStr [lit "number"; lit "integer"; lit "int";
                           lit "float"; lit "decimal"] t then String_ v
      else if includesStr [lit "boolean"; lit "bool"] t then
        if truthy v then lit "TRUE" else lit "FALSE"
      else if eqs t (lit "null") then lit "NULL"
      else quoted
  end.

(** [generateSetClause] *)
Definition generateSetClause (h : handler) : jsstring :=
  join (lit ", ")
    (map (fun field =>
            name field ++ lit " = "
            ++ formatValueForSQL (sf_value field) (sf_dataType field))
         (setFields h)).

(** The text one condition adds to [whereClause]. *)
Definition conditionText (index : nat) (condition : whereCondition)
  : jsstring :=
  let op := operator condition in
  (if (0 <? index)%nat
   then lit " " ++ logicalOperator condition ++ lit " " else [])
  ++ (if eqs op (lit "IS NULL") || eqs op (lit "IS NOT NULL") then
        fieldName condition ++ lit " " ++ op
      else if eqs op (lit "IN") || eqs op (lit "NOT IN") then
        match wc_value condition with
        | VArr vals =>
            fieldName condition ++ lit " " ++ op ++ lit " ("
            ++ join (lit ", ")
                 (map (fun val => formatValueForSQL val (wc_dataType condition))
                      vals)
            ++ lit ")"
        | v =>
            fieldName condition ++ lit " = "
            ++ formatValueForSQL v (wc_dataType condition)
        end
      else
        fieldName condition ++ lit " " ++ op ++ lit " "
        ++ formatValueForSQL (wc_value condition) (wc_dataType condition)).

Fixpoint whereClause_from (index : nat) (conditions : list whereCondition)
  : jsstring :=
  match conditions with
  | [] => []
  | condition :: rest =>
      conditionText index condition ++ whereClause_from (S index) rest
  end.

(** [generateWhereClause] *)
Definition generateWhereClause (h : handler) : jsstring :=
  whereClause_from 0 (whereConditions h).

(** [generateSQL]: the handler comes back with the errors [validate]
    recorded. *)
Definition generateSQL (h : handler) : result jsstring * handler :=
  let '(valid, h') := validate h in
  if negb valid then
    (Throw (lit "Validation failed: "
            ++ join (lit ", ") (validationErrors h')), h')
  else
    let setClause := generateSetClause h' in
    let whereClause := generateWhereClause h' in
    (Ok (lit "UPDATE " ++ tableName h' ++ lit " SET " ++ setClause
         ++ (if eqs whereClause [] then [] else lit " WHERE " ++ whereClause)
         ++ lit ";"), h').

(** A handler with a table name and one SET field, and no WHERE
    condition. *)
Definition rename_all : handler := {|
  tableName := lit "users";
  setFields := [ {| name := lit "name";
                    sf_value := VStr (lit "Ann");
                    sf_dataType := lit "string" |} ];
  whereConditions := [];
  validationErrors := []
|}.

(** *** The other methods *)

(** [removeSetField] *)
Definition removeSetField (h : handler) (fieldName' : jsstring) : handler :=
  {| tableName := tableName h;
     setFields :=
       filter (fun field => negb (eqs (name field) fieldName')) (setFields h);
     whereConditions := whereConditions h;
     validationErrors := validationErrors h |}.

(** [removeWhereCondition]: [splice(index, 1)] inside the bounds, nothing
    outside. *)
Definition removeWhereCondition (h : handler) (index : Z) : handler :=
  if ((0 <=? index) && (index <? Z.of_nat (length (whereConditions h))))%Z
  then
    {| tableName := tableName h;
       setFields := setFields h;
       whereConditions :=
         firstn (Z.to_nat index) (whereConditions h)
         ++ skipn (S (Z.to_nat index)) (whereConditions h);
       validationErrors := validationErrors h |}
  else h.

(** [clearWhereConditions], [clearSetFields] *)
Definition clearWhereConditions (h : handler) : handler :=
  {| tableName := tableName h;
     setFields := setFields h;
     whereConditions := [];
     validationErrors := validationErrors h |}.

Definition clearSetFields (h : handler) : handler :=
  {| tableName := tableName h;
     setFields := [];
     whereConditions := whereConditions h;
     validationErrors := validationErrors h |}.

(** What [addWhereCondition] lets in: a field name, an operator of the
    list, [AND] or [OR]. *)
Definition admitted (condition : whereCondition) : bool :=
  negb (eqs (fieldName condition) [])
  && includesStr validOperators (operator condition)
  && includesStr validLogicalOperators (logicalOperator condition).

(** [rename_all] once [addWhereCondition('id', '=', 7, 'int')] has run. *)
Definition rename_one : handler := {|
  tableName := lit "users";
  setFields := [ {| name := lit "name";
                    sf_value := VStr (lit "Ann");
                    sf_dataType := lit "string" |} ];
  whereConditions := [ {| fieldName := lit "id";
                          operator := lit "=";
                          wc_value := VNum (Int 7);
                          wc_dataType := lit "int";
                          logicalOperator := lit "AND" |} ];
  validationErrors := []
|}.

End UpdateOperationHandler.

(* ================================================================== *)
(** * Properties *)

(** ** Built-ins *)

Section BuiltIns.

Lemma eqs_refl (s : jsstring) : eqs s s = true.
Proof.
  induction s as [|c s IH]; simpl; [reflexivity|].
  now rewrite N.eqb_refl, IH.
Qed.

Lemma eqs_eq (a b : jsstring) : eqs a b = true <-> a = b.
Proof.
  split.
  - revert b. induction a as [|x a IH]; intros [|y b]; simpl; try discriminate.
    + reflexivity.
    + intros H. apply andb_true_iff in H as [Hx Hr].
      apply N.eqb_eq in Hx. apply IH in Hr. now subst.
  - intros ->. apply eqs_refl.
Qed.

Lemma eqs_nil_false (s : jsstring) : s <> [] -> eqs s [] = false.
Proof. destruct s; [congruence | reflexivity]. Qed.

Lemma eqs_nil_length {A} (s : jsstring) (x y : A) :
  (if (length s =? 0)%nat then x else y) = (if eqs s [] then x else y).
Proof. now destruct s. Qed.

Lemma startsWith_app (m p z : jsstring) :
  startsWith m p = true -> startsWith (m ++ z) p = true.
Proof.
  revert m. induction p as [|x p IH]; intros [|y m]; simpl; try easy.
  intros H. apply andb_true_iff in H as [Hx Hr].
  now rewrite Hx, IH.
Qed.

Lemma includes_app_r (m p z : jsstring) :
  includes m p = true -> includes (m ++ z) p = true.
Proof.
  induction m as [|c m IH]; simpl.
  - rewrite orb_false_r. intros H.
    destruct p; [now destruct z | discriminate].
  - intros H. apply orb_true_iff in H as [H|H].
    + change (c :: m ++ z) with ((c :: m) ++ z).
      now rewrite startsWith_app.
    + rewrite IH by assumption. apply orb_true_r.
Qed.

Lemma includes_app_l (a m p : jsstring) :
  includes m p = true -> includes (a ++ m) p = true.
Proof.
  intros H. induction a as [|c a IH]; simpl; [assumption|].
  rewrite IH. apply orb_true_r.
Qed.

(** A text found in the middle of a string is found in the string. *)
Lemma includes_middle (a m z p : jsstring) :
  includes m p = true -> includes (a ++ m ++ z) p = true.
Proof. intros H. now apply includes_app_l, includes_app_r. Qed.

End BuiltIns.

(** ** The CSV parser *)

Section ParserProperties.
Import CSVParser.

Lemma parseCSVLine_loop_grows n :
  forall line d t res cur q qc,
    (length line <= n)%nat ->
    (length res < length (parseCSVLine_loop line d t res cur q qc))%nat.
Proof.
  induction n as [|n IH]; intros [|c rest] d t res cur q qc Hn;
    cbn [parseCSVLine_loop length] in *;
    try (rewrite length_app; simpl; lia); try lia.
  assert (Hrest : (length rest <= n)%nat) by lia.
  assert (Hgrow : forall cur' q' qc',
    (length res < length (parseCSVLine_loop rest d t res cur' q' qc'))%nat)
    by (intros; now apply IH).
  destruct (is_quote c).
  - destruct (negb q); [apply Hgrow|].
    destruct (c =? qc)%N; [|apply Hgrow].
    destruct rest as [|c' rest']; [apply Hgrow|].
    destruct (c' =? qc)%N; [|apply Hgrow].
    apply IH. simpl in Hrest. lia.
  - destruct (eqs [c] d && negb q); [|apply Hgrow].
    eapply Nat.lt_trans; [|apply IH; assumption].
    rewrite length_app. simpl. lia.
Qed.

Lemma parseCSVLine_not_empty line d t :
  (length (parseCSVLine line d t) =? 0)%nat = false.
Proof.
  apply Nat.eqb_neq. unfold parseCSVLine.
  pose proof (@parseCSVLine_loop_grows (length line) line d t [] [] false dquote
                (Nat.le_refl _)).
  simpl in H. lia.
Qed.

Lemma length_pad (r : list jsstring) n :
  length (pad r n) = Nat.max (length r) n.
Proof. unfold pad. rewrite length_app, repeat_length. lia. Qed.

Lemma parseRows_origin p d t s hs :
  forall lines rows0 row,
    In row (parseRows p lines d t s hs rows0) ->
    In row rows0 \/
    exists line, In line lines /\ row = pad (parseCSVLine line d t) (length hs).
Proof.
  induction lines as [|line rest IH]; intros rows0 row Hin; simpl in Hin.
  - now left.
  - destruct (_ >=? _)%Z; [now left|].
    destruct (s && _).
    + apply IH in Hin as [H | (l & Hl & ->)]; [now left|].
      right. exists l. split; [now right | reflexivity].
    + apply IH in Hin as [H | (l & Hl & ->)].
      * apply in_app_or in H as [H | [<- | []]]; [now left|].
        right. exists line. split; [now left | reflexivity].
      * right. exists l. split; [now right | reflexivity].
Qed.

(** The outcome of [parseCSVText], case by case. *)
Lemma parseCSVText_cases p text o :
  (text = [] /\
   parseCSVText p text o
   = Throw (lit "CSV parsing failed: Invalid CSV text input")) \/
  (text <> [] /\ lines_of text o = [] /\
   parseCSVText p text o = Throw (lit "CSV parsing failed: CSV file is empty")) \/
  (exists line0 rest t,
     text <> [] /\ lines_of text o = line0 :: rest /\
     parseCSVText p text o = Ok t /\
     headers t
     = (if hasHeader o
        then parseCSVLine line0 (tb_delimiter t) (trimValues o)
        else map column_name
               (seq 0 (length (parseCSVLine line0 (tb_delimiter t)
                                 (trimValues o))))) /\
     rows t
     = parseRows p (if hasHeader o then rest else line0 :: rest)
         (tb_delimiter t) (trimValues o) (skipEmptyLines o) (headers t) [] /\
     totalRows t = Z.of_nat (length (rows t)) /\
     maxColumnCount (tb_metadata t)
     = Math_max (map (fun row => Z.of_nat (length row)) (rows t))).
Proof.
  unfold parseCSVText.
  destruct text as [|c text'] eqn:Et; [now left|]. right.
  rewrite <- Et. replace (eqs text []) with false by (now rewrite Et).
  destruct (lines_of text o) as [|line0 rest] eqn:El.
  - left. split; [now rewrite Et|]. split; reflexivity.
  - right.
    set (d := match delimiter o with
              | Some d => if eqs d [] then detectDelimiter line0 else d
              | None => detectDelimiter line0
              end).
    destruct (hasHeader o) eqn:Eh; simpl.
    + rewrite parseCSVLine_not_empty. simpl.
      rewrite parseCSVLine_not_empty.
      eexists line0, rest, _. split; [now rewrite Et|].
      split; [reflexivity|]. split; [reflexivity|]. simpl.
      repeat split.
    + destruct (length (map column_name _) =? 0)%nat eqn:E0.
      * exfalso. apply Nat.eqb_eq in E0.
        rewrite length_map, length_seq in E0.
        pose proof (parseCSVLine_not_empty line0 d (trimValues o)) as H.
        apply Nat.eqb_neq in H. contradiction.
      * eexists line0, rest, _. split; [now rewrite Et|].
        split; [reflexivity|]. split; [reflexivity|]. simpl.
        repeat split.
Qed.


(** *** Rows and headers *)

(** C5, as the code has it: a parsed row is a parsed line of the text,
    padded with empty cells up to the header count when it is shorter and
    kept whole when it is longer, so it never has fewer cells than there are
    headers. *)
Theorem parsed_rows_cover_headers p text o t :
  parseCSVText p text o = Ok t ->
  forall row, In row (rows t) ->
    (length (headers t) <= length row)%nat /\
    exists line,
      In line (lines_of text o) /\
      row = parseCSVLine line (tb_delimiter t) (trimValues o)
            ++ repeat []
                 (length (headers t)
                  - length (parseCSVLine line (tb_delimiter t) (trimValues o))).
Proof.
  intros Hok row Hrow.
  destruct (parseCSVText_cases p text o)
    as [[_ H] | [(_ & _ & H) | (l0 & rest & t' & _ & Hl & H & _ & Hr & _)]];
    try congruence.
  assert (t' = t) by congruence. subst t'.
  rewrite Hr in Hrow.
  apply parseRows_origin in Hrow as [[] | (line & Hline & ->)].
  split.
  - rewrite length_pad. lia.
  - exists line. split; [|reflexivity].
    rewrite Hl. destruct (hasHeader o); [now right | assumption].
Qed.

Lemma parsed_rows_cover_headers_witness :
  exists t,
    parseCSVText new (lit "a,b,c" ++ nl ++ lit "1") defaults = Ok t /\
    In [lit "1"; []; []] (rows t) /\
    (length (headers t) <= length [lit "1"; []; []])%nat.
Proof.
  eexists. split; [reflexivity|]. split; [left; reflexivity|].
  exact (proj1 (@parsed_rows_cover_headers new (lit "a,b,c" ++ nl ++ lit "1")
                  defaults _ eq_refl [lit "1"; []; []]
                  (or_introl eq_refl))).
Defined.

(** C5 as stated fails: a line with more cells than the header line keeps
    them all. *)
Lemma longer_row_not_truncated :
  exists t row,
    parseCSVText new (lit "a,b" ++ nl ++ lit "1,2,3") defaults = Ok t /\
    In row (rows t) /\
    length (headers t) = 2%nat /\ length row = 3%nat.
Proof.
  eexists. exists [lit "1"; lit "2"; lit "3"].
  split; [reflexivity|]. split; [now left|]. split; reflexivity.
Qed.


Lemma header_only_rows_aux p text o line :
  text <> [] ->
  hasHeader o = true ->
  lines_of text o = [line] ->
  exists t,
    parseCSVText p text o = Ok t /\
    tb_delimiter t
    = match delimiter o with
      | Some d => if eqs d [] then detectDelimiter line else d
      | None => detectDelimiter line
      end /\
    headers t = parseCSVLine line (tb_delimiter t) (trimValues o) /\
    rows t = [].
Proof.
  intros Ht Hh Hl. unfold parseCSVText.
  rewrite eqs_nil_false, Hl, Hh by assumption. simpl.
  rewrite parseCSVLine_not_empty. simpl. rewrite parseCSVLine_not_empty.
  eexists. split; [reflexivity|]. simpl. repeat split.
Qed.

(** *** A header line alone *)

(** C10: one header line and no data line parses to no row at all, and the
    maximum column count, taken over no row, is [-Infinity]. *)
Theorem header_only_table p text o line :
  text <> [] ->
  hasHeader o = true ->
  lines_of text o = [line] ->
  exists t,
    parseCSVText p text o = Ok t /\
    headers t = parseCSVLine line (tb_delimiter t) (trimValues o) /\
    rows t = [] /\
    totalRows t = 0%Z /\
    maxColumnCount (tb_metadata t) = NegInf /\
    maxColumnCount (tb_metadata t) <> Int 0 /\
    maxColumnCount (tb_metadata t) <> Int (columns t).
Proof.
  intros Ht Hh Hl.
  destruct (parseCSVText_cases p text o)
    as [[H _] | [(_ & H & _)
                | (l0 & rest & t & _ & Hl' & H & Hhd & Hr & Htot & Hmax)]];
    try congruence.
  rewrite Hl in Hl'. injection Hl' as <- <-.
  rewrite Hh in Hhd, Hr. simpl in Hr.
  exists t. rewrite Hmax, Htot, Hr.
  repeat split; try assumption; discriminate.
Qed.

Lemma header_only_table_witness :
  exists t,
    parseCSVText new (lit "id,name,email") defaults = Ok t /\
    rows t = [] /\ totalRows t = 0%Z /\
    maxColumnCount (tb_metadata t) = NegInf.
Proof.
  destruct (@header_only_table new (lit "id,name,email") defaults
              (lit "id,name,email"))
    as (t & H1 & _ & H2 & H3 & H4 & _);
    [discriminate | reflexivity | reflexivity |].
  exists t. repeat split; assumption.
Defined.


(** *** The size of the input *)

(** C2, as the code has it: [parseCSVText] never looks at [maxFileSize].
    Whatever the size of the text, it throws only for the empty text and for
    a text left with no line, and returns a table otherwise. *)
Theorem parse_succeeds_whatever_the_size p text o :
  text <> [] ->
  lines_of text o <> [] ->
  exists t, parseCSVText p text o = Ok t.
Proof.
  intros Ht Hl.
  destruct (parseCSVText_cases p text o)
    as [[H _] | [(_ & H & _) | (l0 & rest & t & _ & _ & H & _)]];
    try contradiction.
  now exists t.
Qed.

Lemma parse_succeeds_whatever_the_size_witness :
  exists t, parseCSVText new (lit "a;b" ++ nl ++ lit "1;2") defaults = Ok t.
Proof.
  apply parse_succeeds_whatever_the_size; discriminate.
Defined.

Lemma trimEnd_letters n : trimEnd (letters n) = letters n.
Proof.
  induction n as [|n IH]; [reflexivity|].
  unfold letters in *. cbn [repeat trimEnd]. rewrite IH.
  now destruct (repeat 97%N n).
Qed.

Lemma trim_letters n : trim (letters n) = letters n.
Proof.
  unfold trim. destruct n as [|n]; [reflexivity|].
  change (trimStart (letters (S n))) with (letters (S n)).
  apply trimEnd_letters.
Qed.

Lemma split_lines_letters n : split_lines (letters n) = [letters n].
Proof.
  induction n as [|n IH]; [reflexivity|].
  unfold letters in *. cbn [repeat split_lines].
  change (97 =? 10)%N with false. change (97 =? 13)%N with false.
  cbv iota. now rewrite IH.
Qed.

Lemma count_letters d n :
  eqs [97%N] d = false ->
  forall count,
    countDelimiterOccurrences_loop (letters n) d count false [] = count.
Proof.
  intros Hd. induction n as [|n IH]; intros count; [reflexivity|].
  unfold letters in *. cbn [repeat countDelimiterOccurrences_loop].
  change (is_quote 97%N) with false. rewrite Hd. apply IH.
Qed.

Lemma detectDelimiter_letters n : detectDelimiter (letters n) = lit ",".
Proof.
  unfold detectDelimiter, detect_step, countDelimiterOccurrences.
  cbn [fold_left]. now rewrite !count_letters by reflexivity.
Qed.

Lemma parseCSVLine_loop_letters d n :
  eqs [97%N] d = false ->
  forall res cur q qc,
    parseCSVLine_loop (letters n) d true res cur q qc
    = res ++ [trim (cur ++ letters n)].
Proof.
  intros Hd. induction n as [|n IH]; intros res cur q qc.
  - cbn [letters repeat parseCSVLine_loop]. rewrite app_nil_r. reflexivity.
  - unfold letters in *. cbn [repeat parseCSVLine_loop].
    change (is_quote 97%N) with false. rewrite Hd. cbn [andb].
    rewrite IH, <- app_assoc. reflexivity.
Qed.

Lemma byteSize_letters n : byteSize (letters n) = Z.of_nat n.
Proof.
  induction n as [|n IH]; [reflexivity|].
  unfold letters in *. cbn [repeat byteSize fold_right] in *.
  change (97 <? 128)%N with true. cbv iota.
  fold (byteSize (repeat 97%N n)). rewrite IH. lia.
Qed.

Lemma length_letters n : length (letters n) = n.
Proof. apply repeat_length. Qed.

(** A text of letters parses to its one header, whatever its length. *)
Lemma parse_letters n :
  (0 < n)%nat ->
  exists t,
    parseCSVText new (letters n) defaults = Ok t /\
    headers t = [letters n] /\ rows t = [].
Proof.
  intros Hn.
  assert (Hne : letters n <> []) by (destruct n; [lia | discriminate]).
  assert (Hl : lines_of (letters n) defaults = [letters n]).
  { unfold lines_of.
    replace (removeBOM (letters n)) with (letters n)
      by (destruct n as [|[|[|n]]]; reflexivity).
    rewrite split_lines_letters. cbn [skipEmptyLines defaults filter].
    rewrite trim_letters, eqs_nil_false by assumption. reflexivity. }
  destruct (@header_only_rows_aux new (letters n) defaults (letters n) Hne
              eq_refl Hl) as (t & Hok & Hd & Hh & Hr).
  exists t. split; [assumption|]. split; [|assumption].
  rewrite Hh, Hd. cbn [delimiter defaults trimValues].
  rewrite detectDelimiter_letters. unfold parseCSVLine.
  rewrite parseCSVLine_loop_letters by reflexivity.
  cbn [app]. now rewrite trim_letters.
Qed.

(** 10 MB and one byte more. *)
Lemma big_pos : (0 < Z.to_nat 10485761)%nat.
Proof.
  apply Nat2Z.inj_lt. rewrite Z2Nat.id; [reflexivity | discriminate].
Qed.

Lemma big_size : (maxFileSize new < byteSize (letters (Z.to_nat 10485761)))%Z.
Proof. rewrite byteSize_letters, Z2Nat.id by discriminate. reflexivity. Qed.

Lemma big_len :
  (maxFileSize new < Z.of_nat (length (letters (Z.to_nat 10485761))))%Z.
Proof. rewrite length_letters, Z2Nat.id by discriminate. reflexivity. Qed.

(** C2 as stated fails: a text of 10 MB and one byte more is parsed like any
    other. *)
Lemma oversized_text_is_parsed :
  let text := letters (Z.to_nat 10485761) in
  (maxFileSize new < byteSize text)%Z /\
  (maxFileSize new < Z.of_nat (length text))%Z /\
  exists t,
    parseCSVText new text defaults = Ok t /\
    headers t = [text] /\ rows t = [].
Proof.
  intros text.
  split; [exact big_size|]. split; [exact big_len|].
  exact (@parse_letters (Z.to_nat 10485761) big_pos).
Qed.

End ParserProperties.

(** ** Numbers and their numerals *)

Section NumberStrings.

Lemma parse_digits_acc d :
  forall a,
    parse_digits 10 (Some (Z.pos a)) (uint_cus d)
    = Some (Z.pos (Pos.of_uint_acc d a)).
Proof.
  induction d; intros a; cbn [uint_cus parse_digits Pos.of_uint_acc];
    [reflexivity | ..];
    match goal with
    | |- context [digit_val 10 ?c] =>
        let v := eval vm_compute in (digit_val 10 c) in
        change (digit_val 10 c) with v
    end; cbv iota beta; rewrite <- IHd; f_equal; f_equal; lia.
Qed.

Lemma parse_digits_zero d :
  parse_digits 10 (Some 0%Z) (uint_cus d) = Some (Z.of_N (Pos.of_uint d)).
Proof.
  induction d; cbn [uint_cus parse_digits Pos.of_uint];
    [reflexivity | ..];
    match goal with
    | |- context [digit_val 10 ?c] =>
        let v := eval vm_compute in (digit_val 10 c) in
        change (digit_val 10 c) with v
    end; cbv iota beta;
    [ exact IHd | .. ]; apply parse_digits_acc.
Qed.

Lemma parse_digits_uint d :
  d <> Decimal.Nil ->
  parse_digits 10 None (uint_cus d) = Some (Z.of_N (Pos.of_uint d)).
Proof.
  destruct d; intros Hd; [congruence | ..];
    cbn [uint_cus parse_digits Pos.of_uint];
    match goal with
    | |- context [digit_val 10 ?c] =>
        let v := eval vm_compute in (digit_val 10 c) in
        change (digit_val 10 c) with v
    end; cbv iota beta;
    [ apply parse_digits_zero | .. ]; apply parse_digits_acc.
Qed.

(** *** Numerals *)

Lemma digit_is_plain c :
  digit_val 10 c <> None ->
  is_ws c = false /\ (c =? 45)%N = false /\ (c =? 43)%N = false
  /\ (c =? 120)%N = false /\ (c =? 88)%N = false
  /\ exists v, digit_val 10 c = Some v /\ (0 <= v <= 9)%Z.
Proof.
  unfold digit_val.
  destruct (48 <=? c)%N eqn:E1; destruct (c <=? 57)%N eqn:E2;
    cbn [andb Z.eqb Pos.eqb]; try congruence.
  intros _. apply N.leb_le in E1, E2.
  assert (H : (c = 48 \/ c = 49 \/ c = 50 \/ c = 51 \/ c = 52 \/ c = 53
               \/ c = 54 \/ c = 55 \/ c = 56 \/ c = 57)%N) by lia.
  repeat (destruct H as [-> | H]; [repeat split; eexists; split;
                                    [reflexivity | cbn; lia] |]).
  subst c. repeat split. eexists. split; [reflexivity | cbn; lia].
Qed.

Lemma parse_digits_app u v :
  Forall (fun c => digit_val 10 c <> None) u ->
  forall acc,
    parse_digits 10 acc (u ++ v) = parse_digits 10 (parse_digits 10 acc u) v.
Proof.
  induction 1 as [|c u Hc _ IH]; intros acc; [reflexivity|].
  cbn [app parse_digits].
  destruct (digit_val 10 c); [apply IH | congruence].
Qed.

Lemma parse_digits_zeros p :
  forall a,
    parse_digits 10 (Some a) (repeat 48%N p)
    = Some (a * 10 ^ Z.of_nat p)%Z.
Proof.
  induction p as [|p IH]; intros a.
  - cbn [repeat parse_digits]. f_equal. cbn. lia.
  - cbn [repeat parse_digits].
    change (digit_val 10 48) with (Some 0%Z). cbv iota beta.
    rewrite IH, Nat2Z.inj_succ, Z.pow_succ_r by lia. f_equal. lia.
Qed.

Lemma uint_cus_digits d : Forall (fun c => digit_val 10 c <> None) (uint_cus d).
Proof.
  induction d; cbn [uint_cus]; constructor; try assumption; discriminate.
Qed.

(** A numeral made of digits only is read by [parseInt] as the Number
    nearest to its value. *)
Lemma parseInt_str_digits s m :
  s <> [] ->
  Forall (fun c => digit_val 10 c <> None) s ->
  parse_digits 10 None s = Some m ->
  parseInt_str s = to_double m.
Proof.
  intros Hs Hd Hm. destruct s as [|c r]; [congruence|].
  inversion Hd as [|? ? Hc Hr]; subst.
  destruct (@digit_is_plain c Hc) as (Hw & H45 & H43 & _ & _ & _).
  unfold parseInt_str. cbn [trimStart]. rewrite Hw, H45, H43.
  destruct r as [|x r'].
  - now rewrite Hm.
  - inversion Hr as [|? ? Hx _]; subst.
    destruct (@digit_is_plain x Hx) as (_ & _ & _ & H120 & H88 & _).
    rewrite H120, H88, andb_false_r. now rewrite Hm.
Qed.

Lemma to_uint_not_Nil n : N.to_uint n <> Decimal.Nil.
Proof.
  intros H. pose proof (DecimalN.Unsigned.of_to n) as E.
  rewrite H in E. destruct n; [discriminate|]. discriminate.
Qed.

Lemma digits_cus_not_empty a : digits_cus a <> [].
Proof.
  unfold digits_cus. pose proof (to_uint_not_Nil (Z.to_N a)) as H.
  destruct (N.to_uint (Z.to_N a)); [congruence | ..]; discriminate.
Qed.

(** The digits of [s] followed by [p] zeros read as [s * 10^p]. *)
Lemma parseInt_str_magnitude s p :
  (0 <= s)%Z ->
  parseInt_str (digits_cus s ++ repeat 48%N p)
  = to_double (s * 10 ^ Z.of_nat p).
Proof.
  intros Hs. apply parseInt_str_digits.
  - intros E. apply app_eq_nil in E as [E _].
    now apply digits_cus_not_empty in E.
  - apply Forall_app. split; [apply uint_cus_digits|].
    apply Forall_forall. intros c Hc. apply repeat_spec in Hc. now subst.
  - unfold digits_cus.
    rewrite parse_digits_app by apply uint_cus_digits.
    rewrite parse_digits_uint by apply to_uint_not_Nil.
    change (Pos.of_uint (N.to_uint (Z.to_N s)))
      with (N.of_uint (N.to_uint (Z.to_N s))).
    rewrite DecimalN.Unsigned.of_to, Z2N.id by assumption.
    apply parse_digits_zeros.
Qed.

(** *** Doubles *)

Lemma eq_num_Int n x : eq_num n (Int x) = true -> n = Int x.
Proof.
  destruct n; cbn [eq_num]; try discriminate.
  intros H. apply Z.eqb_eq in H. now subst.
Qed.

(** Rounding does not go below [10^21], which is a double. *)
Lemma to_double_ge c r :
  (10 ^ 21 <= c)%Z -> to_double c = Int r -> (10 ^ 21 <= r)%Z.
Proof.
  intros Hc. unfold to_double. cbv zeta.
  assert (Hpos : (0 < c)%Z) by (assert (0 < 10 ^ 21)%Z by reflexivity; lia).
  rewrite Z.abs_eq by lia.
  assert (HL : (69 <= Z.log2 c)%Z).
  { change 69%Z with (Z.log2 (10 ^ 21)). now apply Z.log2_le_mono. }
  destruct (Z.log2_spec c Hpos) as [Hlo Hhi].
  set (L := Z.log2 c) in *.
  replace (L + 1 - 53)%Z with (L - 52)%Z by lia.
  replace (L - 52 <=? 0)%Z with false by (symmetry; apply Z.leb_gt; lia).
  replace (c <? 0)%Z with false by (symmetry; apply Z.ltb_ge; lia).
  set (P := (2 ^ (L - 52))%Z).
  assert (HP : (0 < P)%Z) by (apply Z.pow_pos_nonneg; lia).
  set (q := (c / P)%Z).
  assert (Hq : (10 ^ 21 <= q * P)%Z).
  { destruct (Z.eq_dec L 69) as [E | E].
    - assert (EP : P = (2 ^ 17)%Z) by (subst P; now rewrite E).
      assert (Hk : (7629394531250000 <= q)%Z).
      { subst q. apply Z.div_le_lower_bound; [lia|].
        rewrite EP. exact Hc. }
      rewrite EP in *.
      change (10 ^ 21)%Z with (7629394531250000 * 2 ^ 17)%Z.
      apply Z.mul_le_mono_nonneg_r; [apply Z.pow_nonneg; lia | exact Hk].
    - assert (H52 : (2 ^ 52 <= q)%Z).
      { subst q. apply Z.div_le_lower_bound; [lia|].
        subst P. rewrite <- Z.pow_add_r by lia.
        now replace (L - 52 + 52)%Z with L by lia. }
      assert (H70 : (2 ^ 70 <= 2 ^ L)%Z)
        by (apply Z.pow_le_mono_r; lia).
      assert (EL : (2 ^ L = 2 ^ 52 * P)%Z).
      { subst P. rewrite <- Z.pow_add_r by lia. f_equal. lia. }
      assert (H21 : (10 ^ 21 <= 2 ^ 70)%Z) by (cbv; discriminate).
      assert ((2 ^ 52 * P <= q * P)%Z)
        by (apply Z.mul_le_mono_nonneg_r; lia).
      lia. }
  match goal with
  | |- context [if ?b then (q + 1)%Z else q] =>
      set (q' := if b then (q + 1)%Z else q)
  end.
  assert (Hq' : (q <= q')%Z)
    by (subst q'; match goal with |- context [if ?b then _ else _] =>
                    destruct b end; lia).
  assert (Hm : (q * P <= q' * P)%Z) by (apply Z.mul_le_mono_nonneg_r; lia).
  destruct (2 ^ 1024 <=? q' * P)%Z; [discriminate|].
  intros H. injection H as <-. lia.
Qed.

Lemma digits_from_le a N fuel :
  (a < 10 ^ N)%Z -> forall n, (n <= N)%Z -> (digits_from fuel a n <= N)%Z.
Proof.
  intros Ha. induction fuel as [|fuel IH]; intros n Hn; cbn [digits_from];
    [assumption|].
  destruct (Z.ltb_spec a (10 ^ n)) as [H | H]; [assumption|].
  apply IH. destruct (Z.eq_dec n N) as [-> | ]; lia.
Qed.

Lemma candidates_ok x k d :
  (1 <= k)%Z ->
  In d (candidates x k) ->
  (10 ^ (k - 1) <= dec_s d)%Z /\ dec_k d = k /\ (0 <= dec_n d - dec_k d)%Z
  /\ to_double (dec_value d) = Int x.
Proof.
  intros Hk Hd. unfold candidates in Hd.
  apply in_flat_map in Hd as (n & _ & Hd).
  destruct (Z.ltb_spec (n - k) 0) as [Hp | Hp]; [destruct Hd|].
  apply filter_In in Hd as [Hin Hc].
  apply andb_true_iff in Hc as [Hc He].
  apply andb_true_iff in Hc as [Hlo _].
  apply Z.leb_le in Hlo. apply eq_num_Int in He.
  destruct Hin as [<- | [<- | []]]; cbn [dec_s dec_k dec_n] in *;
    repeat split; assumption.
Qed.

Lemma closest_In x l d : closest x l = Some d -> In d l.
Proof.
  destruct l as [|d0 rest]; [discriminate|]. cbn [closest].
  intros H. injection H as <-. revert d0.
  induction rest as [|e rest IH]; intros d0; cbn [fold_left];
    [now left|].
  destruct (IH (closer x d0 e)) as [E | E].
  - rewrite <- E. unfold closer.
    destruct (_ <? _)%Z; [now left|].
    destruct (_ <? _)%Z; [right; now left|].
    destruct (Z.even _); [now left | right; now left].
  - right. now right.
Qed.

(** What [Number::toString] picks is a numeral of the Number; below
    [10^21] it is written without exponent. *)
Lemma shortest_from_ok x :
  (0 < x)%Z -> is_double x ->
  forall fuel k, (1 <= k)%Z ->
    let d := shortest_from fuel x k in
    (0 <= dec_s d)%Z /\ (0 <= dec_n d - dec_k d)%Z
    /\ to_double (dec_value d) = Int x
    /\ ((x < 10 ^ 21)%Z -> (dec_n d <= 21)%Z).
Proof.
  intros Hx Hdb. induction fuel as [|fuel IH]; intros k Hk d; subst d;
    cbn [shortest_from].
  - cbn [dec_s dec_n dec_k]. unfold dec_value. cbn [dec_s dec_n dec_k].
    rewrite Z.sub_diag, Z.mul_1_r.
    split; [lia|]. split; [lia|]. split; [exact Hdb|].
    intros Hlt. now apply digits_from_le.
  - destruct (closest x (candidates x k)) as [d|] eqn:E;
      [|apply IH; lia].
    apply closest_In, candidates_ok in E; [|assumption].
    destruct E as (Hs & Ek & Hp & Hv).
    assert (H10 : (0 < 10 ^ (k - 1))%Z) by (apply Z.pow_pos_nonneg; lia).
    split; [lia|]. split; [assumption|]. split; [assumption|].
    intros Hlt.
    destruct (Z.le_gt_cases (dec_n d) 21) as [Hn | Hn]; [assumption|].
    exfalso.
    assert (Hbig : (10 ^ 21 <= dec_value d)%Z).
    { unfold dec_value.
      assert (H1 : (10 ^ (k - 1) * 10 ^ (dec_n d - dec_k d)
                    <= dec_s d * 10 ^ (dec_n d - dec_k d))%Z)
        by (apply Z.mul_le_mono_nonneg_r; [apply Z.pow_nonneg|]; lia).
      rewrite <- Z.pow_add_r in H1 by lia.
      assert (H2 : (10 ^ 21 <= 10 ^ (k - 1 + (dec_n d - dec_k d)))%Z)
        by (apply Z.pow_le_mono_r; lia).
      lia. }
    pose proof (@to_double_ge _ _ Hbig Hv). lia.
Qed.

(** [parseInt] of a Number from 0 to below [10^21] is that Number: its text
    is a numeral of it. *)
Lemma parseInt_Int z :
  (0 <= z < 10 ^ 21)%Z -> is_double z -> parseInt (VNum (Int z)) = Int z.
Proof.
  intros [Hz Hlt] Hdb. unfold parseInt. cbn [String_ Number_toString].
  destruct (Z.eqb_spec z 0) as [-> | Hnz]; [reflexivity|].
  replace (z <? 0)%Z with false by (symmetry; now apply Z.ltb_ge).
  unfold magnitude_toString, shortest.
  destruct (@shortest_from_ok z ltac:(lia) Hdb 17 1%Z ltac:(lia))
    as (Hs & Hp & Hv & Hn).
  set (d := shortest_from 17 z 1) in *.
  replace (dec_n d <=? 21)%Z with true
    by (symmetry; apply Z.leb_le; now apply Hn).
  rewrite parseInt_str_magnitude, Z2Nat.id by assumption.
  exact Hv.
Qed.

End NumberStrings.

(** ** The SQL generator *)

Section GeneratorProperties.
Import SQLGenerator.

(** *** UPDATE rows without a WHERE or a SET column *)

Lemma whereFields_none row sx :
  has_where row = false -> whereFields row sx = [].
Proof.
  unfold has_where, whereFields.
  induction (keys row) as [|key ks IH]; [reflexivity|].
  cbn [existsb flat_map]. intros H.
  apply orb_false_iff in H as [Hk Hr]. rewrite (IH Hr), app_nil_r.
  destruct (endsWith key (lit "[WHERE]")); [|reflexivity].
  destruct (is_blank (get row key)); [reflexivity | discriminate].
Qed.

Lemma setFields_none row sx :
  has_set row = false -> setFields row sx = [].
Proof.
  unfold has_set, setFields.
  induction (keys row) as [|key ks IH]; [reflexivity|].
  cbn [existsb flat_map]. intros H.
  apply orb_false_iff in H as [Hk Hr]. rewrite (IH Hr), app_nil_r.
  destruct (endsWith key (lit "[WHERE]")); [reflexivity|].
  destruct (endsWith key (lit "[SET]")); [|reflexivity].
  destruct (is_blank (get row key)); [reflexivity | discriminate].
Qed.

Lemma set_suffix_not_where key :
  endsWith key (lit "[SET]") = true -> endsWith key (lit "[WHERE]") = false.
Proof.
  unfold endsWith.
  change (rev (lit "[SET]")) with [93; 84; 69; 83; 91]%N.
  change (rev (lit "[WHERE]")) with [93; 69; 82; 69; 72; 87; 91]%N.
  destruct (rev key) as [|a [|b r]]; cbn [startsWith]; intros H;
    rewrite ?andb_false_r in H; try discriminate.
  apply andb_true_iff in H as [_ H].
  apply andb_true_iff in H as [H _]. apply N.eqb_eq in H. subst b.
  now rewrite andb_false_r.
Qed.

(** The row has no WHERE condition (no SET assignment) for the generator
    exactly when it has no such column with a cell that is not blank. *)
Lemma whereFields_nil_iff row sx :
  whereFields row sx = [] <-> has_where row = false.
Proof.
  split; [|apply whereFields_none].
  unfold has_where, whereFields.
  induction (keys row) as [|key ks IH]; [reflexivity|].
  cbn [existsb flat_map]. intros H.
  apply app_eq_nil in H as [Hk Hr]. rewrite (IH Hr), orb_false_r.
  destruct (endsWith key (lit "[WHERE]")); [|reflexivity].
  destruct (is_blank (get row key)); [reflexivity | discriminate].
Qed.

Lemma setFields_nil_iff row sx :
  setFields row sx = [] <-> has_set row = false.
Proof.
  split; [|apply setFields_none].
  unfold has_set, setFields.
  induction (keys row) as [|key ks IH]; [reflexivity|].
  cbn [existsb flat_map]. intros H.
  apply app_eq_nil in H as [Hk Hr]. rewrite (IH Hr), orb_false_r.
  destruct (endsWith key (lit "[SET]")) eqn:Es; [|reflexivity].
  rewrite (set_suffix_not_where _ Es) in Hk.
  destruct (is_blank (get row key)); [reflexivity | discriminate].
Qed.

Lemma updateRow_throws c sx st row :
  has_where row = false \/ has_set row = false ->
  updateRow c sx st row = Throw err_no_where \/
  updateRow c sx st row = Throw err_no_set.
Proof.
  unfold updateRow. intros [H | H].
  - left. now rewrite (@whereFields_none row sx H).
  - rewrite (@setFields_none row sx H).
    destruct (length (whereFields row sx) =? 0)%nat; [now left | now right].
Qed.

(** One bad row makes the whole [forEach] throw, wherever it stands. *)
Lemma forEach_update_throws c sx rows :
  forall st row,
    In row rows ->
    has_where row = false \/ has_set row = false ->
    forEach_update c sx rows st = Throw err_no_where \/
    forEach_update c sx rows st = Throw err_no_set.
Proof.
  induction rows as [|r rest IH]; intros st row Hin Hbad; [destruct Hin|].
  cbn [forEach_update].
  destruct (updateRow c sx st r) as [st'|m] eqn:Er; cbn [bind].
  - destruct Hin as [-> | Hin]; [|now apply (IH st' row)].
    destruct (@updateRow_throws c sx st row Hbad); congruence.
  - unfold updateRow in Er.
    destruct (length (whereFields r sx) =? 0)%nat; [left; congruence|].
    destruct (length (setFields r sx) =? 0)%nat; [right; congruence|].
    discriminate.
Qed.

(** A configuration that passes [validateConfig] names a dialect of the
    syntax map. *)
Lemma validateConfig_syntax c :
  validateConfig c = Ok tt ->
  exists sx, syntaxMap (toLowerCase (databaseType c)) = Some sx.
Proof.
  unfold validateConfig, syntaxMap, supportedDatabases, includesStr.
  cbn [existsb].
  repeat match goal with
         | |- context [if eqs ?a ?b then _ else _] =>
             destruct (eqs a b); try discriminate; eauto
         end.
Qed.

(** C1: an UPDATE generation with a row that gives no WHERE condition or no
    SET assignment throws; what comes out is the error message alone - that
    of [validateConfig], or the generator's own about the missing clause -
    and none of the statements built for the rows before. *)
Theorem update_row_without_clause_aborts fuel now completed c row :
  operation c = lit "UPDATE" ->
  In row (csvData_rows c) ->
  has_where row = false \/ has_set row = false ->
  exists msg,
    generateSQL fuel now completed c = Some (Throw msg) /\
    (validateConfig c = Throw msg \/
     msg = lit "SQL generation failed: " ++ err_no_where \/
     msg = lit "SQL generation failed: " ++ err_no_set).
Proof.
  intros Hop Hin Hbad. unfold generateSQL.
  destruct (validateConfig c) as [[]|m] eqn:Ev; [|eauto].
  destruct (@validateConfig_syntax c Ev) as [sx ->].
  rewrite Hop. change (eqs (lit "UPDATE") (lit "INSERT")) with false.
  change (eqs (lit "UPDATE") (lit "UPDATE")) with true. cbv iota.
  unfold generateUpdateSQL.
  destruct (@forEach_update_throws c sx (csvData_rows c) {| b_sql := []; b_recordCount := 0; b_batchCount := 1 |} row Hin Hbad) as [-> | ->]; eauto.
Qed.


Lemma update_row_without_clause_aborts_witness :
  exists msg,
    generateSQL 0 (lit "t0") (lit "t1") update_example = Some (Throw msg).
Proof.
  destruct (@update_row_without_clause_aborts 0 (lit "t0") (lit "t1")
              update_example
              [(lit "id[WHERE]", VStr []); (lit "name[SET]", VStr (lit "Bob"))]
              eq_refl (or_intror (or_introl eq_refl)) (or_introl eq_refl))
    as (msg & H & _).
  now exists msg.
Defined.

(** *** The end-to-end example *)

Lemma validateConfig_obrien db : db <> [] -> validateConfig (obrien db) = Ok tt.
Proof.
  intros Hdb. unfold validateConfig. cbn [obrien operation databaseName].
  now rewrite (eqs_nil_false Hdb).
Qed.

Lemma insertLoop_end fuel c sx bs i st :
  lt_num i (Int (Z.of_nat (length (csvData_rows c)))) = false ->
  insertLoop fuel c sx bs i st = Some st.
Proof.
  intros H. destruct fuel; cbn [insertLoop]; now rewrite H.
Qed.

Lemma insertLoop_next fuel c sx bs i st :
  lt_num i (Int (Z.of_nat (length (csvData_rows c)))) = true ->
  insertLoop (S fuel) c sx bs i st
  = let batch := slice (csvData_rows c) i (add_num i bs) in
    if (length batch =? 0)%nat
    then insertLoop fuel c sx bs (add_num i bs) st
    else
      insertLoop fuel c sx bs (add_num i bs)
        {| b_sql := b_sql st ++ insertStatement c sx batch;
           b_recordCount := b_recordCount st + Z.of_nat (length batch);
           b_batchCount := b_batchCount st + 1 |}.
Proof.
  intros H. cbn [insertLoop]. now rewrite H.
Qed.

Lemma insertLoop_done fuel c sx bs i st :
  (Z.of_nat (length (csvData_rows c)) <= i)%Z ->
  insertLoop fuel c sx bs (Int i) st = Some st.
Proof.
  intros Hi. apply insertLoop_end. cbn [lt_num]. now apply Z.ltb_ge.
Qed.

Lemma insertLoop_step fuel c sx bs i st :
  (i < Z.of_nat (length (csvData_rows c)))%Z ->
  insertLoop (S fuel) c sx (Int bs) (Int i) st
  = let batch := slice (csvData_rows c) (Int i) (Int (i + bs)) in
    if (length batch =? 0)%nat
    then insertLoop fuel c sx (Int bs) (Int (i + bs)) st
    else
      insertLoop fuel c sx (Int bs) (Int (i + bs))
        {| b_sql := b_sql st ++ insertStatement c sx batch;
           b_recordCount := b_recordCount st + Z.of_nat (length batch);
           b_batchCount := b_batchCount st + 1 |}.
Proof.
  intros Hi. rewrite insertLoop_next; [reflexivity|].
  cbn [lt_num]. now apply Z.ltb_lt.
Qed.

Lemma generateInsertSQL_obrien fuel db :
  generateInsertSQL (S fuel) (obrien db) mysql
  = Some {| b_sql := obrien_statement;
            b_recordCount := 1; b_batchCount := 1 |}.
Proof.
  unfold generateInsertSQL.
  change (batchSize_of (cfg_options (obrien db))) with (Int 500).
  rewrite insertLoop_step by (cbn; lia).
  cbn [obrien csvData_rows].
  change (slice [[(lit "id", VNum (Int 1)); (lit "name", VStr (lit "O'Brien"))]]
            (Int 0) (Int (0 + 500)))
    with [[(lit "id", VNum (Int 1)); (lit "name", VStr (lit "O'Brien"))]].
  cbv zeta. cbn [length Nat.eqb].
  rewrite insertLoop_done by (cbn; lia).
  reflexivity.
Qed.

(** C8: the row [{id: 1, name: "O'Brien"}] for [users] on MySQL gives a
    script with [INSERT INTO `users`] and the value row [(1, 'O''Brien')]:
    the quote inside the name is doubled, and the quotes of the statement
    come in pairs. *)
Theorem obrien_end_to_end fuel now completed db :
  db <> [] ->
  exists g,
    generateSQL (S fuel) now completed (obrien db) = Some (Ok g) /\
    includes (sql g) (lit "INSERT INTO") = true /\
    includes (sql g) (lit "INSERT INTO `users`") = true /\
    includes (sql g) (lit "(1, 'O''Brien')") = true /\
    formatValue (VStr (lit "O'Brien")) m_name mysql = lit "'O''Brien'" /\
    Nat.even (count_cu squote obrien_statement) = true /\
    recordCount (gen_metadata g) = 1%Z.
Proof.
  intros Hdb. unfold generateSQL.
  rewrite (validateConfig_obrien Hdb).
  change (syntaxMap (toLowerCase (databaseType (obrien db)))) with (Some mysql).
  change (eqs (operation (obrien db)) (lit "INSERT")) with true. cbv iota.
  rewrite generateInsertSQL_obrien.
  eexists. split; [reflexivity|].
  cbn [sql gen_metadata recordCount b_sql b_recordCount].
  repeat split;
    try (apply includes_middle; vm_compute; reflexivity);
    vm_compute; reflexivity.
Qed.

Lemma obrien_end_to_end_witness :
  exists g,
    generateSQL 1 (lit "2024-01-01T00:00:00.000Z")
      (lit "2024-01-01T00:00:00.001Z") (obrien (lit "shop")) = Some (Ok g) /\
    includes (sql g) (lit "(1, 'O''Brien')") = true.
Proof.
  destruct (@obrien_end_to_end 0 (lit "2024-01-01T00:00:00.000Z")
              (lit "2024-01-01T00:00:00.001Z") (lit "shop"))
    as (g & H1 & _ & _ & H2 & _); [discriminate|].
  now exists g.
Defined.

End GeneratorProperties.

(** ** Batches of INSERT rows *)

Section BatchProperties.
Import SQLGenerator.

Variable A : Type.

Lemma firstn_beyond (l : list A) d :
  firstn (Nat.min d (length l)) l = firstn d l.
Proof.
  destruct (Nat.le_gt_cases d (length l)) as [H | H].
  - now rewrite Nat.min_l.
  - rewrite Nat.min_r, firstn_all, firstn_all2 by lia. reflexivity.
Qed.

(** With a positive batch size and an index inside the rows, [slice] takes
    the next [d] rows, or those that remain. *)
Lemma slice_batch (rows : list A) j d :
  (j < length rows)%nat ->
  slice rows (Int (Z.of_nat j)) (Int (Z.of_nat j + Z.of_nat d))
  = firstn d (skipn j rows).
Proof.
  intros Hj. unfold slice, slice_index.
  replace (Z.of_nat j <? 0)%Z with false by (symmetry; apply Z.ltb_ge; lia).
  replace (Z.of_nat j + Z.of_nat d <? 0)%Z with false
    by (symmetry; apply Z.ltb_ge; lia).
  rewrite <- (firstn_beyond (skipn j rows) d), length_skipn.
  f_equal; [lia | f_equal; lia].
Qed.

Lemma batches_from_done fuel (rows : list A) bs i :
  (Z.of_nat (length rows) <= i)%Z -> batches_from fuel rows bs (Int i) = [].
Proof.
  intros Hi.
  assert (H : lt_num (Int i) (Int (Z.of_nat (length rows))) = false)
    by (cbn [lt_num]; now apply Z.ltb_ge).
  destruct fuel; cbn [batches_from]; now rewrite H.
Qed.

Lemma batches_from_step fuel (rows : list A) j d :
  (j < length rows)%nat ->
  (1 <= d)%nat ->
  batches_from (S fuel) rows (Int (Z.of_nat d)) (Int (Z.of_nat j))
  = firstn d (skipn j rows)
    :: batches_from fuel rows (Int (Z.of_nat d)) (Int (Z.of_nat (j + d))).
Proof.
  intros Hj Hd. cbn [batches_from lt_num add_num].
  replace (Z.of_nat j <? Z.of_nat (length rows))%Z with true
    by (symmetry; apply Z.ltb_lt; lia).
  rewrite slice_batch, Nat2Z.inj_add by assumption.
  destruct (firstn d (skipn j rows)) eqn:E; [|reflexivity].
  apply (f_equal (@length A)) in E.
  rewrite length_firstn, length_skipn in E. simpl in E. lia.
Qed.

Lemma ceil_step n j d :
  (j < n)%nat -> (1 <= d)%nat ->
  ((n - j + d - 1) / d = S ((n - (j + d) + d - 1) / d))%nat.
Proof.
  intros Hj Hd.
  destruct (Nat.le_gt_cases (j + d) n) as [H | H].
  - replace (n - j + d - 1)%nat with ((n - (j + d) + d - 1) + 1 * d)%nat by lia.
    rewrite Nat.div_add by lia. lia.
  - replace (n - (j + d) + d - 1)%nat with (d - 1)%nat by lia.
    rewrite (Nat.div_small (d - 1)) by lia.
    symmetry. apply (Nat.div_unique _ _ _ (n - j - 1)); lia.
Qed.

(** What the loop goes through when the batch size is positive: consecutive
    batches of [d] rows, the last one with what remains. *)
Lemma batches_positive (rows : list A) d :
  (1 <= d)%nat ->
  forall fuel j,
    (length rows - j <= fuel)%nat ->
    let B := batches_from fuel rows (Int (Z.of_nat d)) (Int (Z.of_nat j)) in
    concat B = skipn j rows /\
    length B = ((length rows - j + d - 1) / d)%nat /\
    forall k, (k < length B)%nat ->
              nth k B [] = firstn d (skipn (j + k * d) rows).
Proof.
  intros Hd. induction fuel as [|fuel IH]; intros j Hf B; subst B.
  - rewrite batches_from_done by lia. cbn [concat length].
    rewrite skipn_all2 by lia.
    replace (length rows - j)%nat with 0%nat by lia.
    rewrite Nat.div_small by lia. repeat split. intros k Hk. lia.
  - destruct (Nat.le_gt_cases (length rows) j) as [Hj | Hj].
    + rewrite batches_from_done by lia. cbn [concat length].
      rewrite skipn_all2 by lia.
      replace (length rows - j)%nat with 0%nat by lia.
      rewrite Nat.div_small by lia. repeat split. intros k Hk. lia.
    + rewrite batches_from_step by assumption.
      destruct (IH (j + d)%nat) as (Hc & Hl & Hn); [lia|].
      cbn [concat length]. rewrite Hc, Hl. repeat split.
      * rewrite <- (firstn_skipn d (skipn j rows)) at 2.
        now rewrite skipn_skipn, (Nat.add_comm d j).
      * symmetry. now apply ceil_step.
      * intros [|k] Hk; cbn [nth].
        -- now rewrite Nat.add_0_r.
        -- rewrite Hn by lia. do 2 f_equal. lia.
Qed.


(** The sizes that follow: every batch but the last is full, the last one
    is not empty. *)
Lemma batches_sizes (rows : list A) d fuel :
  (1 <= d)%nat ->
  (length rows <= fuel)%nat ->
  let B := batches_from fuel rows (Int (Z.of_nat d)) (Int 0) in
  (forall k, (S k < length B)%nat -> length (nth k B []) = d) /\
  (forall k, S k = length B ->
             (1 <= length (nth k B []) <= d)%nat).
Proof.
  intros Hd Hf B.
  destruct (@batches_positive rows d Hd fuel 0%nat) as (_ & Hl & Hn); [lia|].
  change (Z.of_nat 0) with 0%Z in Hl, Hn.
  fold B in Hl, Hn. rewrite Nat.sub_0_r in Hl.
  pose proof (Nat.Div0.mul_div_le (length rows + d - 1) d) as Hle.
  rewrite <- Hl in Hle.
  split; intros k Hk; rewrite Hn by lia;
    rewrite length_firstn, length_skipn; cbn [Nat.add].
  - assert (H2 : (k * d + d + d <= length B * d)%nat) by nia. lia.
  - assert (H1 : (k * d + d = length B * d)%nat) by nia. lia.
Qed.

End BatchProperties.

Section InsertProperties.
Import SQLGenerator.

(** The loop of [generateInsertSQL] with a positive batch size: it ends
    within as many steps as rows remain, having added one statement per batch
    and counted every row of every batch. *)
Lemma insertLoop_positive c sx d :
  (1 <= d)%nat ->
  forall fuel j st,
    (length (csvData_rows c) - j <= fuel)%nat ->
    let B :=
      batches_from fuel (csvData_rows c) (Int (Z.of_nat d))
        (Int (Z.of_nat j)) in
    insertLoop fuel c sx (Int (Z.of_nat d)) (Int (Z.of_nat j)) st
    = Some {| b_sql := b_sql st ++ concat (map (insertStatement c sx) B);
              b_recordCount :=
                b_recordCount st + Z.of_nat (length (concat B));
              b_batchCount := b_batchCount st + Z.of_nat (length B) |}.
Proof.
  intros Hd. induction fuel as [|fuel IH]; intros j [s rc bc] Hf B; subst B.
  - rewrite insertLoop_done, batches_from_done by lia.
    cbn. now rewrite app_nil_r, !Z.add_0_r.
  - destruct (Nat.le_gt_cases (length (csvData_rows c)) j) as [Hj | Hj].
    + rewrite insertLoop_done, batches_from_done by lia.
      cbn. now rewrite app_nil_r, !Z.add_0_r.
    + rewrite insertLoop_step, batches_from_step by (assumption || lia).
      rewrite slice_batch by assumption. cbv zeta.
      assert (Hne : (length (firstn d (skipn j (csvData_rows c))) =? 0)%nat
                    = false).
      { apply Nat.eqb_neq. rewrite length_firstn, length_skipn. lia. }
      rewrite Hne, <- Nat2Z.inj_add, IH by lia.
      cbn [b_sql b_recordCount b_batchCount map concat length].
      f_equal. f_equal.
      * now rewrite <- app_assoc.
      * rewrite length_app. lia.
      * lia.
Qed.

(** [generateInsertSQL] for a positive batch size. *)
Lemma generateInsertSQL_positive fuel c sx d :
  batchSize_of (cfg_options c) = Int (Z.of_nat d) ->
  (1 <= d)%nat ->
  (length (csvData_rows c) <= fuel)%nat ->
  let B := batches_from fuel (csvData_rows c) (Int (Z.of_nat d)) (Int 0) in
  generateInsertSQL fuel c sx
  = Some {| b_sql :=
              (if truthy (includeCreateTable (cfg_options c))
               then generateCreateTableSQL (tableName c) (fieldMappings c) sx
                    ++ nl ++ nl
               else [])
              ++ concat (map (insertStatement c sx) B);
            b_recordCount := Z.of_nat (length (csvData_rows c));
            b_batchCount :=
              Z.of_nat ((length (csvData_rows c) + d - 1) / d) |}.
Proof.
  intros Hb Hd Hf B. unfold generateInsertSQL. rewrite Hb.
  change 0%Z with (Z.of_nat 0).
  rewrite insertLoop_positive by lia.
  destruct (@batches_positive _ (csvData_rows c) d Hd fuel 0%nat)
    as (Hc & Hl & _); [lia|].
  cbn [Z.of_nat] in *. fold B in Hc, Hl |- *.
  rewrite Hc, Hl, Nat.sub_0_r. reflexivity.
Qed.

(** The batch sizes outside the positive integers. *)

(** With the batch size [Infinity] the first batch is every row, and the
    loop ends. *)
Lemma generateInsertSQL_infinite fuel c sx :
  batchSize_of (cfg_options c) = PosInf ->
  csvData_rows c <> [] ->
  generateInsertSQL (S fuel) c sx
  = Some {| b_sql :=
              (if truthy (includeCreateTable (cfg_options c))
               then generateCreateTableSQL (tableName c) (fieldMappings c) sx
                    ++ nl ++ nl
               else [])
              ++ insertStatement c sx (csvData_rows c);
            b_recordCount := Z.of_nat (length (csvData_rows c));
            b_batchCount := 1 |}.
Proof.
  intros Hb Hrows. unfold generateInsertSQL. rewrite Hb.
  assert (Hlen : (0 < length (csvData_rows c))%nat)
    by (destruct (csvData_rows c); [congruence | cbn [length]; lia]).
  rewrite insertLoop_next
    by (cbn [lt_num]; apply Z.ltb_lt; lia).
  cbn [add_num]. cbv zeta.
  assert (Hs : slice (csvData_rows c) (Int 0) PosInf = csvData_rows c).
  { unfold slice, slice_index. cbn [Z.ltb Z.compare].
    rewrite Z.min_l, Z.sub_0_r, Nat2Z.id by lia.
    cbn [Z.to_nat skipn]. apply firstn_all. }
  rewrite Hs.
  replace (length (csvData_rows c) =? 0)%nat with false
    by (symmetry; apply Nat.eqb_neq; lia).
  rewrite insertLoop_end by reflexivity.
  cbn [b_sql b_recordCount b_batchCount]. reflexivity.
Qed.

Lemma insertLoop_negative c sx bs :
  lt_num bs (Int 0) = true ->
  csvData_rows c <> [] ->
  forall fuel i st,
    lt_num i (Int 1) = true -> insertLoop fuel c sx bs i st = None.
Proof.
  intros Hbs Hrows.
  assert (Hlen : (0 < Z.of_nat (length (csvData_rows c)))%Z)
    by (destruct (csvData_rows c); [congruence | cbn [length]; lia]).
  assert (Hlt : forall i, lt_num i (Int 1) = true ->
                  lt_num i (Int (Z.of_nat (length (csvData_rows c)))) = true).
  { intros [z | | |]; cbn [lt_num]; try discriminate; [|reflexivity].
    intros H. apply Z.ltb_lt in H. apply Z.ltb_lt. lia. }
  assert (Hadd : forall i, lt_num i (Int 1) = true ->
                   lt_num (add_num i bs) (Int 1) = true).
  { intros [z | | |] Hi; destruct bs as [b | | |];
      cbn [lt_num add_num] in *; try discriminate; try reflexivity.
    apply Z.ltb_lt in Hi, Hbs. apply Z.ltb_lt. lia. }
  induction fuel as [|fuel IH]; intros i st Hi; cbn [insertLoop];
    rewrite (Hlt i Hi); [reflexivity|].
  cbv zeta. destruct (_ =? 0)%nat; apply IH; now apply Hadd.
Qed.



End InsertProperties.

(** ** Empty cells *)

Section EmptyCells.
Import SQLGenerator.












End EmptyCells.

Section BatchClaims.
Import SQLGenerator.

Lemma batchSize_of_positive o b :
  batchSize o = VNum (Int b) -> is_double b -> (1 <= b < 10 ^ 21)%Z ->
  batchSize_of o = Int b.
Proof.
  intros Ho Hd Hb. unfold batchSize_of. rewrite Ho, parseInt_Int by (lia || assumption).
  cbn [truthy_num].
  replace (b =? 0)%Z with false by (symmetry; apply Z.eqb_neq; lia).
  reflexivity.
Qed.

(** C7, as the code has it: the batch size is read with [parseInt], that is
    from the text of the Number, which is a plain numeral below [10^21].
    With an integer batch size [b], [1 <= b < 10^21], a valid INSERT
    configuration of [n] rows is generated in [ceil(n/b)] batches.  The
    batches are the rows in order, [b] at a time, the last one with the
    remainder; each batch is one statement of the script; [recordCount] is
    [n]. *)
Theorem insert_batches fuel now completed c b :
  validateConfig c = Ok tt ->
  operation c = lit "INSERT" ->
  batchSize (cfg_options c) = VNum (Int b) ->
  is_double b ->
  (1 <= b < 10 ^ 21)%Z ->
  (length (csvData_rows c) <= fuel)%nat ->
  let rows := csvData_rows c in
  let n := Z.of_nat (length rows) in
  let B := batches_from fuel rows (Int b) (Int 0) in
  exists sx body g,
    syntaxMap (toLowerCase (databaseType c)) = Some sx /\
    generateInsertSQL fuel c sx = Some body /\
    generateSQL fuel now completed c = Some (Ok g) /\
    concat B = rows /\
    Z.of_nat (length B) = ((n + b - 1) / b)%Z /\
    (forall k, (k < length B)%nat ->
       nth k B [] = firstn (Z.to_nat b) (skipn (k * Z.to_nat b) rows)) /\
    (forall k, (S k < length B)%nat ->
       Z.of_nat (length (nth k B [])) = b) /\
    (forall k, S k = length B ->
       (1 <= Z.of_nat (length (nth k B [])) <= b)%Z) /\
    b_sql body
    = (if truthy (includeCreateTable (cfg_options c))
       then generateCreateTableSQL (tableName c) (fieldMappings c) sx
            ++ nl ++ nl
       else [])
      ++ concat (map (insertStatement c sx) B) /\
    recordCount (gen_metadata g) = n /\
    batchCount (gen_metadata g) = ((n + b - 1) / b)%Z /\
    forall r1 r2 r3 r4 r5 : obj value,
      map (@length _) (batches_from 5 [r1; r2; r3; r4; r5] (Int 2) (Int 0))
      = [2; 2; 1]%nat.
Proof.
  intros Hv Hop Hbs Hdb Hb Hf rows n B.
  destruct (validateConfig_syntax c Hv) as [sx Hsx].
  set (d := Z.to_nat b).
  assert (Hd : (1 <= d)%nat) by (subst d; lia).
  assert (Ebd : b = Z.of_nat d) by (subst d; lia).
  assert (Hbo : batchSize_of (cfg_options c) = Int (Z.of_nat d))
    by (rewrite <- Ebd; now apply batchSize_of_positive).
  pose proof (@generateInsertSQL_positive fuel c sx d Hbo Hd Hf) as Hgen.
  destruct (@batches_positive _ rows d Hd fuel 0%nat) as (Hc & Hl & Hn);
    [subst rows; lia|].
  destruct (@batches_sizes _ rows d fuel Hd Hf) as (Hfull & Hlast).
  change (Z.of_nat 0) with 0%Z in Hc, Hl, Hn.
  rewrite <- Ebd in Hgen, Hc, Hl, Hn, Hfull, Hlast.
  cbv zeta in Hgen, Hc, Hl, Hn, Hfull, Hlast.
  fold rows in Hgen. fold B in Hgen, Hc, Hl, Hn, Hfull, Hlast.
  rewrite Nat.sub_0_r in Hl.
  assert (Hceil : Z.of_nat ((length rows + d - 1) / d) = ((n + b - 1) / b)%Z).
  { rewrite Nat2Z.inj_div. subst n. rewrite Ebd. f_equal. lia. }
  eexists sx, _, _. split; [exact Hsx|]. split; [exact Hgen|].
  split.
  { unfold generateSQL. rewrite Hv, Hsx, Hop.
    change (eqs (lit "INSERT") (lit "INSERT")) with true. cbv iota.
    rewrite Hgen. reflexivity. }
  cbn [b_sql gen_metadata recordCount batchCount b_recordCount b_batchCount].
  split; [exact Hc|]. split; [now rewrite Hl|]. split; [exact Hn|].
  split; [intros k Hk; now rewrite Hfull|].
  split; [intros k Hk; apply Hlast in Hk; lia|].
  repeat split. exact Hceil.
Qed.

Lemma insert_batches_witness :
  exists g,
    generateSQL 5 (lit "t0") (lit "t1") (numbered 5 (VNum (Int 2)))
    = Some (Ok g) /\
    recordCount (gen_metadata g) = 5%Z /\
    batchCount (gen_metadata g) = 3%Z.
Proof.
  destruct (@insert_batches 5 (lit "t0") (lit "t1")
              (numbered 5 (VNum (Int 2))) 2 eq_refl eq_refl eq_refl eq_refl)
    as (sx & body & g & _ & _ & Hg & _ & _ & _ & _ & _ & _ & Hr & Hb & _).
  - split; [lia | vm_compute; reflexivity].
  - cbn. lia.
  - exists g. split; [exact Hg|]. split; [exact Hr | exact Hb].
Defined.

(** C7 as stated fails from [10^21] on: the text of the Number is then
    [1e+21], [parseInt] reads 1, and three rows go out in three batches
    where [ceil(3 / 10^21)] is one.  It fails for a size with a fraction
    too: of [2.5] [parseInt] keeps 2, and five rows go out in three batches
    where [ceil(5 / 2.5)] is two. *)
Lemma exponent_batch_size_one_row_batches :
  is_double (10 ^ 21) /\
  String_ (VNum (Int (10 ^ 21))) = lit "1e+21" /\
  (exists g,
     generateSQL 3 (lit "t0") (lit "t1") (numbered 3 (VNum (Int (10 ^ 21))))
     = Some (Ok g) /\
     recordCount (gen_metadata g) = 3%Z /\
     batchCount (gen_metadata g) = 3%Z) /\
  ((3 + 10 ^ 21 - 1) / 10 ^ 21 = 1)%Z /\
  (exists g,
     generateSQL 5 (lit "t0") (lit "t1") (numbered 5 (VStr (lit "2.5")))
     = Some (Ok g) /\
     recordCount (gen_metadata g) = 5%Z /\
     batchCount (gen_metadata g) = 3%Z).
Proof.
  split; [vm_compute; reflexivity|]. split; [vm_compute; reflexivity|].
  split; [|split; [vm_compute; reflexivity|]];
    (eexists; split; [vm_compute; reflexivity|]; split; reflexivity).
Qed.

(** *** No usable batch size *)

Lemma batchSize_of_default o :
  batchSize o = VUndefined \/ batchSize o = VNum (Int 0)
  \/ batchSize o = VNum NaN ->
  batchSize_of o = Int defaultBatchSize.
Proof.
  unfold batchSize_of. intros [-> | [-> | ->]]; reflexivity.
Qed.

(** C3, as the code has it: when the [batchSize] option is absent, [0] or
    [NaN], the generator falls back on its default batch size of 500.  The
    rows go out in [ceil(n/500)] batches: as one statement when there are at
    most 500 of them, as several beyond. *)
Theorem default_batch_size fuel c sx :
  batchSize (cfg_options c) = VUndefined
  \/ batchSize (cfg_options c) = VNum (Int 0)
  \/ batchSize (cfg_options c) = VNum NaN ->
  (length (csvData_rows c) <= fuel)%nat ->
  let rows := csvData_rows c in
  let n := Z.of_nat (length rows) in
  exists body,
    generateInsertSQL fuel c sx = Some body /\
    b_recordCount body = n /\
    b_batchCount body = ((n + 499) / 500)%Z /\
    ((1 <= n <= 500)%Z ->
     b_batchCount body = 1%Z /\
     b_sql body
     = (if truthy (includeCreateTable (cfg_options c))
        then generateCreateTableSQL (tableName c) (fieldMappings c) sx
             ++ nl ++ nl
        else [])
       ++ insertStatement c sx rows) /\
    ((500 < n)%Z -> (1 < b_batchCount body)%Z).
Proof.
  intros Hbs Hf rows n.
  assert (Hbo : batchSize_of (cfg_options c) = Int (Z.of_nat 500))
    by (now rewrite batchSize_of_default).
  assert (Hd : (1 <= 500)%nat) by lia.
  pose proof (@generateInsertSQL_positive fuel c sx 500 Hbo Hd Hf) as Hgen.
  destruct (@batches_positive _ rows 500 Hd fuel 0%nat) as (Hc & Hl & Hn);
    [subst rows; lia|].
  cbv zeta in Hgen, Hc, Hl, Hn. fold rows in Hgen.
  change (Z.of_nat 0) with 0%Z in Hc, Hl, Hn.
  set (B := batches_from fuel rows (Int (Z.of_nat 500)) (Int 0)) in *.
  rewrite Nat.sub_0_r in Hl.
  assert (Hceil : Z.of_nat ((length rows + 500 - 1) / 500)
                  = ((n + 499) / 500)%Z).
  { rewrite Nat2Z.inj_div. subst n. f_equal. lia. }
  eexists. split; [exact Hgen|].
  cbn [b_sql b_recordCount b_batchCount].
  split; [reflexivity|]. split; [exact Hceil|]. split.
  - intros Hone.
    assert (Hq : ((n + 499) / 500 = 1)%Z).
    { symmetry. apply (Z.div_unique _ _ _ (n - 1)); lia. }
    split; [now rewrite Hceil|].
    assert (HB : B = [rows]).
    { assert (HlB : length B = 1%nat) by lia.
      destruct B as [|x [|y B']]; try discriminate.
      cbn [concat] in Hc. rewrite app_nil_r, skipn_O in Hc. now subst x. }
    rewrite HB. cbn [map concat]. now rewrite app_nil_r.
  - intros Hmany. rewrite Hceil.
    assert (2 <= (n + 499) / 500)%Z
      by (apply Z.div_le_lower_bound; lia).
    lia.
Qed.

Lemma default_batch_size_witness :
  exists body,
    generateInsertSQL 3 (numbered 3 VUndefined) sqlite = Some body /\
    b_batchCount body = 1%Z.
Proof.
  destruct (@default_batch_size 3 (numbered 3 VUndefined) sqlite
              (or_introl eq_refl))
    as (body & Hg & _ & _ & Hone & _); [cbn; lia|].
  exists body. split; [exact Hg|].
  apply Hone. cbn. lia.
Defined.

(** C3 as stated fails: 501 rows with the batch size ["all"], or [0], come
    out in two batches. *)
Lemma unusable_batch_size_two_batches :
  (exists g,
     generateSQL 501 (lit "t0") (lit "t1") (numbered 501 (VStr (lit "all")))
     = Some (Ok g) /\
     batchCount (gen_metadata g) = 2%Z) /\
  (exists g,
     generateSQL 501 (lit "t0") (lit "t1") (numbered 501 (VNum (Int 0)))
     = Some (Ok g) /\
     batchCount (gen_metadata g) = 2%Z).
Proof.
  split; eexists; (split; [vm_compute; reflexivity | reflexivity]).
Qed.

End BatchClaims.

(** ** The UPDATE clause builder *)

Section HandlerProperties.
Import UpdateOperationHandler.

(** C4, as the code has it: the class keeps one list, [validationErrors],
    and the message about missing WHERE conditions goes into it like any
    other.  With no WHERE condition [validate] answers [false] and
    [generateSQL] throws; no clause is rendered. *)
Theorem validate_requires_where h :
  whereConditions h = [] ->
  fst (validate h) = false /\
  In (lit "WHERE conditions are strongly recommended to prevent updating all rows")
     (validationErrors (snd (validate h))) /\
  exists msg,
    fst (generateSQL h) = Throw msg /\
    startsWith msg (lit "Validation failed: ") = true.
Proof.
  intros Hw.
  assert (Hin : In (lit "WHERE conditions are strongly recommended to prevent updating all rows")
                   (validationErrors (snd (validate h)))).
  { unfold validate. cbn [snd validationErrors]. rewrite Hw. cbn [length Nat.eqb].
    apply in_or_app. right. apply in_or_app. right.
    apply in_or_app. left. now left. }
  assert (Hf : fst (validate h) = false).
  { unfold validate in *. cbn [fst snd validationErrors] in *.
    destruct (_ ++ _); [destruct Hin | reflexivity]. }
  split; [assumption|]. split; [assumption|].
  unfold generateSQL. destruct (validate h) as [valid h'].
  cbn [fst] in Hf. subst valid. cbn [negb fst].
  eexists. split; [reflexivity|].
  apply (@startsWith_app (lit "Validation failed: ") (lit "Validation failed: ")).
  reflexivity.
Qed.


Lemma validate_requires_where_witness :
  fst (validate new) = false /\
  exists msg, fst (generateSQL new) = Throw msg.
Proof.
  destruct (@validate_requires_where new eq_refl)
    as (Hv & _ & msg & Hg & _).
  split; [exact Hv | now exists msg].
Defined.

(** C4 as stated fails: with a table name and a SET field but no WHERE
    condition, validation fails and [generateSQL] throws. *)
Lemma missing_where_fails_validation :
  tableName rename_all = lit "users" /\
  length (setFields rename_all) = 1%nat /\
  whereConditions rename_all = [] /\
  fst (validate rename_all) = false /\
  fst (generateSQL rename_all)
  = Throw (lit "Validation failed: WHERE conditions are strongly recommended to prevent updating all rows").
Proof. repeat split. Qed.

End HandlerProperties.

(** ** The field mapper *)

Section MapperProperties.
Import FieldMapper.

Lemma checkTypes_skip pre rest vs hn ml :
  Forall (fun chk => fraction (snd chk) vs < 8 # 10)%Q pre ->
  checkTypes (pre ++ rest) vs hn ml = checkTypes rest vs hn ml.
Proof.
  induction 1 as [|[ty pat] pre Hlt _ IH]; [reflexivity|].
  cbn [app checkTypes snd] in *.
  destruct (Qle_bool (8 # 10) (fraction pat vs)) eqn:E; [|exact IH].
  apply Qle_bool_iff in E. exfalso. now apply (Qlt_not_le _ _ Hlt).
Qed.

(** C6: the checks are tried in the order integer, decimal, boolean,
    datetime, date, email; the first one that at least 80% of the non-empty
    values match gives the type, with the matching fraction as confidence.
    Three numerals make an integer column of confidence 1, two addresses an
    email column. *)
Theorem first_matching_type fieldName values pre ty pat post :
  let nonEmptyValues := filter nonEmpty values in
  nonEmptyValues <> [] ->
  typeChecks = pre ++ (ty, pat) :: post ->
  Forall (fun chk => fraction (snd chk) nonEmptyValues < 8 # 10)%Q pre ->
  (8 # 10 <= fraction pat nonEmptyValues)%Q ->
  jsType (analyzeField fieldName values) = ty /\
  sqlType (analyzeField fieldName values) = sqlTypes ty /\
  confidence (analyzeField fieldName values) = fraction pat nonEmptyValues /\
  map fst typeChecks
  = map lit ["integer"; "decimal"; "boolean"; "datetime"; "date"; "email"]%string /\
  jsType (analyzeField fieldName digits_column) = lit "integer" /\
  (confidence (analyzeField fieldName digits_column) == 1)%Q /\
  jsType (analyzeField fieldName emails_column) = lit "email".
Proof.
  intros vs Hne Hsplit Hpre Hpat.
  assert (Hrun : forall hn ml,
             checkTypes typeChecks vs hn ml
             = Some {| jsType := ty; sqlType := sqlTypes ty;
                       confidence := fraction pat vs;
                       hasNulls := hn; maxLength := ml |}).
  { intros hn ml. rewrite Hsplit, checkTypes_skip by assumption.
    cbn [checkTypes].
    now replace (Qle_bool (8 # 10) (fraction pat vs)) with true
      by (symmetry; now apply Qle_bool_iff). }
  unfold analyzeField. fold vs.
  replace (length vs =? 0)%nat with false
    by (symmetry; apply Nat.eqb_neq; now destruct vs).
  rewrite Hrun. cbn [jsType sqlType confidence].
  repeat split; vm_compute; reflexivity.
Qed.

Lemma first_matching_type_witness :
  jsType (analyzeField (lit "contact") emails_column) = lit "email" /\
  sqlType (analyzeField (lit "contact") emails_column) = lit "VARCHAR(255)".
Proof.
  destruct (@first_matching_type (lit "contact") emails_column
              (firstn 5 typeChecks) (lit "email") email_pattern [])
    as (H1 & H2 & _).
  - discriminate.
  - reflexivity.
  - repeat constructor.
  - vm_compute. discriminate.
  - split; [exact H1 | exact H2].
Defined.

End MapperProperties.

(* ================================================================== *)
(** * Further properties *)

(** ** More on the CSV parser *)

Section TokenizerProperties.
Import CSVParser.

(** The fields pushed so far are a prefix of the result. *)
Lemma parseCSVLine_loop_prefix n :
  forall line d t res cur q qc,
    (length line <= n)%nat ->
    parseCSVLine_loop line d t res cur q qc
    = res ++ parseCSVLine_loop line d t [] cur q qc.
Proof.
  induction n as [|n IH]; intros [|c rest] d t res cur q qc Hn;
    cbn [parseCSVLine_loop length] in *; try reflexivity; try lia.
  assert (Hrest : (length rest <= n)%nat) by lia.
  destruct (is_quote c).
  - destruct (negb q); [now apply IH|].
    destruct (c =? qc)%N; [|now apply IH].
    destruct rest as [|c' rest']; [now apply IH|].
    destruct (c' =? qc)%N; [|now apply IH].
    apply IH. simpl in Hrest. lia.
  - destruct (eqs [c] d && negb q); [|now apply IH].
    cbn [app].
    rewrite (IH rest d t (res ++ _)), (IH rest d t [_]) by assumption.
    now rewrite app_assoc.
Qed.

(** Outside quotes the remembered quote character plays no part. *)
Lemma parseCSVLine_loop_quoteChar line d t :
  forall res cur qc qc',
    parseCSVLine_loop line d t res cur false qc
    = parseCSVLine_loop line d t res cur false qc'.
Proof.
  induction line as [|c rest IH]; intros res cur qc qc';
    cbn [parseCSVLine_loop negb]; [reflexivity|].
  destruct (is_quote c); [reflexivity|].
  destruct (eqs [c] d && true); apply IH.
Qed.

Lemma parseCSVLine_loop_plain d t f :
  forallb (plain d) f = true ->
  forall rest res cur qc,
    parseCSVLine_loop (f ++ rest) d t res cur false qc
    = parseCSVLine_loop rest d t res (cur ++ f) false qc.
Proof.
  induction f as [|c f IH]; intros Hf rest res cur qc.
  - now rewrite app_nil_r.
  - cbn [forallb] in Hf. apply andb_true_iff in Hf as [Hc Hf].
    unfold plain in Hc. apply andb_true_iff in Hc as [Hq Hd].
    apply negb_true_iff in Hq, Hd.
    cbn [app parseCSVLine_loop]. rewrite Hq, Hd. cbn [andb].
    rewrite IH by assumption. now rewrite <- app_assoc.
Qed.

(** Inside quotes: the text with its quotes doubled, then the closing quote,
    reads back as the text. *)
Lemma parseCSVLine_loop_quoted d t q s :
  is_quote q = true ->
  forall rest res cur,
    hd_error rest <> Some q ->
    parseCSVLine_loop (replaceAll s q [q; q] ++ q :: rest) d t res cur true q
    = parseCSVLine_loop rest d t res (cur ++ s) false q.
Proof.
  intros Hq. induction s as [|c s IH]; intros rest res cur Hrest.
  - cbn [replaceAll app parseCSVLine_loop negb]. rewrite Hq, N.eqb_refl.
    rewrite app_nil_r.
    destruct rest as [|c' rest']; [reflexivity|].
    replace (c' =? q)%N with false; [reflexivity|].
    symmetry. apply N.eqb_neq. intros ->. now apply Hrest.
  - cbn [replaceAll]. destruct (N.eqb_spec c q) as [-> | Hc].
    + cbn [app parseCSVLine_loop negb]. rewrite Hq, N.eqb_refl.
      rewrite IH by assumption. now rewrite <- app_assoc.
    + cbn [app parseCSVLine_loop negb].
      replace (c =? q)%N with false by (symmetry; now apply N.eqb_neq).
      rewrite andb_false_r.
      destruct (is_quote c); rewrite IH by assumption;
        now rewrite <- app_assoc.
Qed.


(** X1: a cell written between quotes with its own quotes doubled reads back
    as the cell, whatever it contains (delimiters, the other quote
    character, doubled quotes); followed by the delimiter, the rest of the
    line is read as usual. *)
Theorem quoted_field_reads_back q s dc rest t :
  is_quote q = true ->
  is_quote dc = false ->
  parseCSVLine (q :: replaceAll s q [q; q] ++ [q]) [dc] t
  = [if t then trim s else s] /\
  parseCSVLine (q :: replaceAll s q [q; q] ++ q :: dc :: rest) [dc] t
  = (if t then trim s else s) :: parseCSVLine rest [dc] t.
Proof.
  intros Hq Hdc. unfold parseCSVLine. split.
  - cbn [parseCSVLine_loop negb]. rewrite Hq.
    rewrite parseCSVLine_loop_quoted by (assumption || discriminate).
    reflexivity.
  - cbn [parseCSVLine_loop negb]. rewrite Hq.
    rewrite parseCSVLine_loop_quoted; [|assumption|].
    + cbn [parseCSVLine_loop app negb]. rewrite Hdc.
      cbn [eqs]. rewrite N.eqb_refl. cbn [andb].
      rewrite (@parseCSVLine_loop_prefix (length rest)) by lia.
      now rewrite (parseCSVLine_loop_quoteChar rest [dc] t [] [] q dquote).
    + cbn [hd_error]. intros E. injection E as ->. congruence.
Qed.

Lemma quoted_field_reads_back_witness :
  parseCSVLine (lit "'it''s, here';next") (lit ";") true
  = [lit "it's, here"; lit "next"].
Proof.
  exact (proj2 (@quoted_field_reads_back squote (lit "it's, here") 59%N
                  (lit "next") true eq_refl eq_refl)).
Defined.

Lemma parseCSVLine_fields dc t :
  is_quote dc = false ->
  forall fs f res qc,
    Forall (fun x => forallb (plain [dc]) x = true) (f :: fs) ->
    parseCSVLine_loop (join [dc] (f :: fs)) [dc] t res [] false qc
    = res ++ map (fun x => if t then trim x else x) (f :: fs).
Proof.
  intros Hdc. induction fs as [|g fs IH]; intros f res qc Hall.
  - cbn [join map]. rewrite <- (app_nil_r f) at 1.
    rewrite parseCSVLine_loop_plain by now inversion Hall.
    reflexivity.
  - inversion Hall as [|? ? Hf Hrest]; subst.
    change (join [dc] (f :: g :: fs)) with (f ++ [dc] ++ join [dc] (g :: fs)).
    rewrite parseCSVLine_loop_plain by assumption.
    cbn [app parseCSVLine_loop negb]. rewrite Hdc.
    cbn [eqs]. rewrite N.eqb_refl. cbn [andb].
    rewrite IH by assumption. cbn [map]. now rewrite <- app_assoc.
Qed.

(** X2: cells without quotes and without the delimiter, joined by the
    delimiter, are read back one by one (trimmed when asked). *)
Theorem joined_fields_read_back dc t f fs :
  is_quote dc = false ->
  Forall (fun x => forallb (plain [dc]) x = true) (f :: fs) ->
  parseCSVLine (join [dc] (f :: fs)) [dc] t
  = map (fun x => if t then trim x else x) (f :: fs).
Proof.
  intros Hdc Hall. unfold parseCSVLine.
  now rewrite parseCSVLine_fields.
Qed.

Lemma joined_fields_read_back_witness :
  parseCSVLine (lit "id| name |") (lit "|") true
  = [lit "id"; lit "name"; []].
Proof.
  refine (@joined_fields_read_back 124%N true (lit "id") [lit " name "; []]
            eq_refl _).
  repeat constructor.
Defined.

(** The two loops walk the quotes the same way. *)
Lemma loops_agree d t n :
  forall line res cur q qc qs count,
    (length line <= n)%nat ->
    (q = true -> is_quote qc = true /\ qs = [qc]) ->
    (length (parseCSVLine_loop line d t res cur q qc) + count
     = S (length res)
       + countDelimiterOccurrences_loop line d count q qs)%nat.
Proof.
  induction n as [|n IH]; intros [|c rest] res cur q qc qs count Hn Hq;
    cbn [parseCSVLine_loop countDelimiterOccurrences_loop length] in *;
    try (rewrite length_app; cbn [length]; lia); try lia.
  assert (Hrest : (length rest <= n)%nat) by lia.
  destruct (is_quote c) eqn:Ec.
  - destruct q; cbn [negb andb].
    + destruct (Hq eq_refl) as [Hqc ->].
      change (eqs [c] [qc]) with ((c =? qc)%N && true).
      rewrite !andb_true_r.
      destruct (c =? qc)%N eqn:Ecq.
      * destruct rest as [|c' rest']; [now apply IH|].
        change (eqs [c'] [qc]) with ((c' =? qc)%N && true).
        rewrite andb_true_r.
        destruct (c' =? qc)%N.
        -- apply IH; [simpl in Hrest; lia | assumption].
        -- apply IH; [assumption | discriminate].
      * rewrite andb_false_r. now apply IH.
    + apply IH; [assumption|]. intros _. now split.
  - cbn [andb].
    assert (E2 : eqs [c] qs && q = false).
    { destruct q; [|apply andb_false_r].
      destruct (Hq eq_refl) as [Hqc ->].
      change (eqs [c] [qc]) with ((c =? qc)%N && true).
      rewrite !andb_true_r.
      apply N.eqb_neq. intros ->. congruence. }
    rewrite E2.
    destruct (eqs [c] d && negb q).
    + match goal with
      | |- (length (parseCSVLine_loop _ _ _ ?r ?k _ _) + _ = _)%nat =>
          pose proof (IH rest r k q qc qs (S count) Hrest Hq) as Hs
      end.
      rewrite length_app in Hs. cbn [length] in Hs. lia.
    + now apply IH.
Qed.

(** X3: the tokenizer cuts a line into one field more than the delimiters
    [countDelimiterOccurrences] finds in it, for any line and delimiter. *)
Theorem field_count_is_delimiter_count line d t :
  length (parseCSVLine line d t) = S (countDelimiterOccurrences line d).
Proof.
  unfold parseCSVLine, countDelimiterOccurrences.
  pose proof (@loops_agree d t (length line) line [] [] false dquote [] 0%nat
                (Nat.le_refl _)) as H.
  cbn [length] in H. rewrite Nat.add_0_r in H. apply H. discriminate.
Qed.

End TokenizerProperties.

Section TableProperties.
Import CSVParser.

(** What [parseCSVText] returns, field by field. *)
Lemma parseCSVText_table p text o t :
  parseCSVText p text o = Ok t ->
  exists line0 rest,
    text <> [] /\
    lines_of text o = line0 :: rest /\
    let d := match delimiter o with
             | Some d => if eqs d [] then detectDelimiter line0 else d
             | None => detectDelimiter line0
             end in
    let hs := if hasHeader o
              then parseCSVLine line0 d (trimValues o)
              else map column_name
                     (seq 0 (length (parseCSVLine line0 d (trimValues o)))) in
    let rs := parseRows p (if hasHeader o then rest else line0 :: rest) d
                (trimValues o) (skipEmptyLines o) hs [] in
    t = {| headers := hs;
           rows := rs;
           totalRows := Z.of_nat (length rs);
           columns := Z.of_nat (length hs);
           tb_delimiter := d;
           tb_encoding := encoding o;
           tb_metadata := {|
             originalLineCount := Z.of_nat (length (line0 :: rest));
             processedRows := Z.of_nat (length rs);
             skippedRows :=
               Z.of_nat (length (line0 :: rest)) - Z.of_nat (length rs)
               - (if hasHeader o then 1 else 0);
             md_hasHeader := hasHeader o;
             maxColumnCount :=
               Math_max (map (fun row => Z.of_nat (length row)) rs) |} |}.
Proof.
  unfold parseCSVText.
  destruct text as [|c text'] eqn:Et; [discriminate|].
  rewrite <- Et. replace (eqs text []) with false by (now rewrite Et).
  destruct (lines_of text o) as [|line0 rest] eqn:El; [discriminate|].
  intros H. exists line0, rest.
  split; [now rewrite Et|]. split; [reflexivity|].
  destruct (hasHeader o) eqn:Eh; cbn [rethrow bind] in H |- *.
  - rewrite parseCSVLine_not_empty in H. cbn [rethrow bind] in H.
    rewrite parseCSVLine_not_empty in H. now injection H as <-.
  - destruct (length (map column_name _) =? 0)%nat eqn:E0 in H;
      [discriminate|].
    now injection H as <-.
Qed.

Lemma parseRows_cap p d t s hs :
  forall lines rows0,
    (Z.of_nat (length (parseRows p lines d t s hs rows0))
     <= Z.max (Z.of_nat (length rows0)) (maxRows p))%Z.
Proof.
  induction lines as [|line rest IH]; intros rows0; cbn [parseRows]; [lia|].
  destruct (Z.geb_spec (Z.of_nat (length rows0)) (maxRows p)); [lia|].
  destruct (s && _); [apply IH|].
  eapply Z.le_trans; [apply IH|].
  rewrite length_app. cbn [length]. lia.
Qed.

Lemma parseRows_length p d t s hs :
  forall lines rows0,
    (length (parseRows p lines d t s hs rows0)
     <= length rows0 + length lines)%nat.
Proof.
  induction lines as [|line rest IH]; intros rows0;
    cbn [parseRows length]; [lia|].
  destruct (_ >=? _)%Z; [lia|].
  destruct (s && _).
  - specialize (IH rows0). lia.
  - specialize (IH (rows0 ++ [pad (parseCSVLine line d t) (length hs)])).
    rewrite length_app in IH. cbn [length] in IH. lia.
Qed.

Lemma parseRows_nonblank p d t hs :
  forall lines rows0 row,
    In row (parseRows p lines d t true hs rows0) ->
    In row rows0 \/ existsb (fun cell => negb (eqs cell [])) row = true.
Proof.
  induction lines as [|line rest IH]; intros rows0 row Hin;
    cbn [parseRows andb] in Hin; [now left|].
  destruct (_ >=? _)%Z; [now left|].
  destruct (forallb _ _) eqn:Eall.
  - now apply IH.
  - apply IH in Hin as [Hin | Hin]; [|now right].
    apply in_app_or in Hin as [Hin | [<- | []]]; [now left|].
    right. unfold pad. rewrite existsb_app. apply orb_true_iff. left.
    clear -Eall. induction (parseCSVLine line d t) as [|cell cells IHc];
      [discriminate|].
    cbn [forallb existsb] in *.
    destruct (eqs cell []); [now apply IHc | reflexivity].
Qed.

(** X4: a returned table never has more rows than [maxRows]. *)
Theorem row_count_is_capped p text o t :
  parseCSVText p text o = Ok t ->
  (totalRows t <= Z.max 0 (maxRows p))%Z /\
  (Z.of_nat (length (rows t)) <= Z.max 0 (maxRows p))%Z.
Proof.
  intros H. destruct (parseCSVText_table _ _ _ H) as (l0 & rest & _ & _ & ->).
  cbn [totalRows rows]. split; apply parseRows_cap.
Qed.

Lemma row_count_is_capped_witness :
  exists t,
    parseCSVText (with_maxRows 2)
      (lit "h" ++ nl ++ lit "1" ++ nl ++ lit "2" ++ nl ++ lit "3") defaults
    = Ok t /\
    (totalRows t <= 2)%Z.
Proof.
  eexists. split; [reflexivity|].
  exact (proj1 (@row_count_is_capped (with_maxRows 2)
                  (lit "h" ++ nl ++ lit "1" ++ nl ++ lit "2" ++ nl ++ lit "3")
                  defaults _ eq_refl)).
Defined.

(** X5: when blank lines are skipped, every row of the table has a cell
    that is not empty. *)
Theorem no_blank_row p text o t :
  parseCSVText p text o = Ok t ->
  skipEmptyLines o = true ->
  forall row, In row (rows t) -> exists cell, In cell row /\ cell <> [].
Proof.
  intros H Hs row Hrow.
  destruct (parseCSVText_table _ _ _ H) as (l0 & rest & _ & _ & ->).
  cbn [rows] in Hrow. rewrite Hs in Hrow.
  apply parseRows_nonblank in Hrow as [[] | Hex].
  apply existsb_exists in Hex as (cell & Hin & Hne).
  exists cell. split; [assumption|]. intros ->. discriminate.
Qed.

Lemma no_blank_row_witness :
  exists t,
    parseCSVText new (lit "a,b" ++ nl ++ lit "," ++ nl ++ lit "1,") defaults
    = Ok t /\
    rows t = [[lit "1"; []]] /\
    exists cell, In cell [lit "1"; []] /\ cell <> [].
Proof.
  eexists. split; [reflexivity|]. split; [reflexivity|].
  exact (@no_blank_row new (lit "a,b" ++ nl ++ lit "," ++ nl ++ lit "1,")
           defaults _ eq_refl eq_refl [lit "1"; []] (or_introl eq_refl)).
Defined.

(** X6: the counts of a returned table add up: the rows, the skipped
    lines and the header line make the lines read, and no count is
    negative. *)
Theorem table_counts p text o t :
  parseCSVText p text o = Ok t ->
  totalRows t = Z.of_nat (length (rows t)) /\
  processedRows (tb_metadata t) = totalRows t /\
  columns t = Z.of_nat (length (headers t)) /\
  (1 <= columns t)%Z /\
  originalLineCount (tb_metadata t) = Z.of_nat (length (lines_of text o)) /\
  (0 <= skippedRows (tb_metadata t))%Z /\
  (totalRows t + skippedRows (tb_metadata t)
   + (if hasHeader o then 1 else 0)
   = originalLineCount (tb_metadata t))%Z.
Proof.
  intros H. destruct (parseCSVText_table _ _ _ H) as (l0 & rest & _ & El & ->).
  cbn [totalRows rows processedRows tb_metadata columns headers
       originalLineCount skippedRows].
  rewrite El.
  assert (Hcols : (1 <= length
            (if hasHeader o
             then parseCSVLine l0
                    match delimiter o with
                    | Some d => if eqs d [] then detectDelimiter l0 else d
                    | None => detectDelimiter l0
                    end (trimValues o)
             else map column_name
                    (seq 0 (length (parseCSVLine l0
                       match delimiter o with
                       | Some d => if eqs d [] then detectDelimiter l0 else d
                       | None => detectDelimiter l0
                       end (trimValues o))))))%nat).
  { destruct (hasHeader o); rewrite ?length_map, ?length_seq;
      match goal with
      | |- (1 <= length (parseCSVLine ?l ?d ?t))%nat =>
          pose proof (parseCSVLine_not_empty l d t) as Hn;
          apply Nat.eqb_neq in Hn; lia
      end. }
  match goal with
  | |- context [parseRows ?p ?ls ?d ?t ?s ?hs []] =>
      pose proof (parseRows_length p d t s hs ls []) as Hlen
  end.
  cbn [length] in *.
  repeat split; try lia.
  destruct (hasHeader o); cbn [length] in Hlen; lia.
Qed.

Lemma table_counts_witness :
  exists t,
    parseCSVText new (lit "a,b" ++ nl ++ lit "," ++ nl ++ lit "1,") defaults
    = Ok t /\
    (0 <= skippedRows (tb_metadata t))%Z /\
    (totalRows t + skippedRows (tb_metadata t) + 1
     = originalLineCount (tb_metadata t))%Z.
Proof.
  eexists. split; [reflexivity|].
  destruct (@table_counts new (lit "a,b" ++ nl ++ lit "," ++ nl ++ lit "1,")
              defaults _ eq_refl) as (_ & _ & _ & _ & _ & H1 & H2).
  split; [exact H1 | exact H2].
Defined.

End TableProperties.

Section InputProperties.
Import CSVParser.

Lemma parseCSVText_lines p text text' o :
  text <> [] -> text' <> [] ->
  lines_of text o = lines_of text' o ->
  parseCSVText p text o = parseCSVText p text' o.
Proof.
  intros Ht Ht' Hl. unfold parseCSVText.
  now rewrite !eqs_nil_false, Hl by assumption.
Qed.

(** X7: a byte-order mark in front of the text, as the code point U+FEFF
    or as the three code units EF BB BF, changes nothing to the table (or
    to the failure) of a text that is not empty and does not start with a
    mark itself. *)
Theorem byte_order_mark_is_transparent p text o :
  text <> [] ->
  removeBOM text = text ->
  parseCSVText p (65279%N :: text) o = parseCSVText p text o /\
  parseCSVText p (239%N :: 187%N :: 191%N :: text) o = parseCSVText p text o.
Proof.
  intros Ht Hb.
  split; apply parseCSVText_lines; try assumption; try discriminate;
    unfold lines_of; now rewrite Hb.
Qed.

Lemma byte_order_mark_is_transparent_witness :
  parseCSVText new (65279%N :: lit "a;b") defaults
  = parseCSVText new (lit "a;b") defaults.
Proof.
  exact (proj1 (@byte_order_mark_is_transparent new (lit "a;b") defaults
                  ltac:(discriminate) eq_refl)).
Defined.

(** X8: the delimiter detected is one of comma, semicolon, tab and pipe; no
    other candidate occurs more often outside quotes in the line; and it is
    the comma when none of them occurs. *)
Theorem detected_delimiter_is_most_frequent line :
  let candidates := [lit ","; lit ";"; [9%N]; lit "|"] in
  In (detectDelimiter line) candidates /\
  (forall d, In d candidates ->
     (countDelimiterOccurrences line d
      <= countDelimiterOccurrences line (detectDelimiter line))%nat) /\
  ((forall d, In d candidates -> countDelimiterOccurrences line d = 0%nat) ->
   detectDelimiter line = lit ",").
Proof.
  intros candidates. subst candidates.
  unfold detectDelimiter, detect_step. cbn [fold_left].
  set (c1 := countDelimiterOccurrences line (lit ",")).
  set (c2 := countDelimiterOccurrences line (lit ";")).
  set (c3 := countDelimiterOccurrences line [9%N]).
  set (c4 := countDelimiterOccurrences line (lit "|")).
  assert (Hall : forall (P : list N -> Prop),
            P (lit ",") -> P (lit ";") -> P [9%N] -> P (lit "|") ->
            forall d, In d [lit ","; lit ";"; [9%N]; lit "|"] -> P d).
  { intros P H1 H2 H3 H4 d [<- | [<- | [<- | [<- | []]]]]; assumption. }
  destruct (Nat.ltb_spec 0 c1) as [L1 | L1]; cbn [fst snd];
    [ destruct (Nat.ltb_spec c1 c2) as [L2 | L2]
    | destruct (Nat.ltb_spec 0 c2) as [L2 | L2] ]; cbn [fst snd];
    match goal with
    | |- context [(?a <? c3)%nat] =>
        destruct (Nat.ltb_spec a c3) as [L3 | L3]
    end; cbn [fst snd];
    match goal with
    | |- context [(?a <? c4)%nat] =>
        destruct (Nat.ltb_spec a c4) as [L4 | L4]
    end; cbn [snd];
    (split; [cbn; tauto|]);
    (split;
     [ apply Hall; fold c1 c2 c3 c4; lia
     | intros H0;
       assert (Z1 : c1 = 0%nat) by (apply H0; cbn; tauto);
       assert (Z2 : c2 = 0%nat) by (apply H0; cbn; tauto);
       assert (Z3 : c3 = 0%nat) by (apply H0; cbn; tauto);
       assert (Z4 : c4 = 0%nat) by (apply H0; cbn; tauto);
       try reflexivity; lia ]).
Qed.

End InputProperties.

Section ValidationProperties.
Import CSVParser.
Variable lower : list N -> list N.

Lemma trim_nil_of_nil (s : list N) : s = [] -> trim s = [].
Proof. now intros ->. Qed.

Lemma empty_header_errors_nil hs :
  forall index,
    empty_header_errors index hs = [] <-> Forall (fun h => trim h <> []) hs.
Proof.
  induction hs as [|h hs IH]; intros index; cbn [empty_header_errors].
  - split; [constructor | reflexivity].
  - assert (Hb : eqs h [] || eqs (trim h) [] = true <-> trim h = []).
    { rewrite orb_true_iff, !eqs_eq. split; [|tauto].
      intros [-> | H]; [reflexivity | assumption]. }
    destruct (eqs h [] || eqs (trim h) []) eqn:E.
    + split; [discriminate|]. intros Hall. inversion Hall; subst.
      exfalso. now apply H1, Hb.
    + cbn [app]. rewrite IH. split.
      * intros Hall. constructor; [|assumption].
        intros Ht. apply Hb in Ht. congruence.
      * intros Hall. now inversion Hall.
Qed.

Lemma validateCSV_valid_iff p csv :
  v_isValid (validateCSV lower p csv) = true <->
  headers csv <> [] /\ rows csv <> [] /\
  Forall (fun h => trim h <> []) (headers csv).
Proof.
  unfold validateCSV.
  destruct (row_warnings _ _ _ _) as [n ws]. cbn [v_isValid].
  rewrite Nat.eqb_eq, length_zero_iff_nil.
  destruct (headers csv) as [|h hs] eqn:Eh; cbn [length Nat.eqb app].
  - split; [discriminate | intros [H _]; congruence].
  - destruct (rows csv) as [|r rs] eqn:Er; cbn [length Nat.eqb app].
    + split; [discriminate | intros (_ & H & _); congruence].
    + rewrite empty_header_errors_nil. split.
      * intros H. repeat split; (discriminate || assumption).
      * now intros (_ & _ & H).
Qed.

Lemma validateCSV_valid_errors p csv :
  v_isValid (validateCSV lower p csv) = true <->
  v_errors (validateCSV lower p csv) = [].
Proof.
  unfold validateCSV. destruct (row_warnings _ _ _ _) as [n ws].
  cbn [v_isValid v_errors]. now rewrite Nat.eqb_eq, length_zero_iff_nil.
Qed.

(** X9: [validateCSV] accepts a table exactly when it has a header, a row,
    and no header that is blank, and exactly when it lists no error;
    duplicate headers, rows of another length and large sizes only give
    warnings. *)
Theorem validateCSV_accepts p csv :
  (v_isValid (validateCSV lower p csv) = true <->
   headers csv <> [] /\ rows csv <> [] /\
   Forall (fun h => trim h <> []) (headers csv)) /\
  (v_isValid (validateCSV lower p csv) = true <->
   v_errors (validateCSV lower p csv) = []).
Proof.
  split; [apply validateCSV_valid_iff | apply validateCSV_valid_errors].
Qed.

(** X10: a table that [parseCSVText] returns passes [validateCSV] as soon as
    it has a row and its header cells are not blank. *)
Theorem parsed_table_validates p text o t :
  parseCSVText p text o = Ok t ->
  rows t <> [] ->
  Forall (fun h => trim h <> []) (headers t) ->
  v_isValid (validateCSV lower p t) = true /\
  v_errors (validateCSV lower p t) = [].
Proof.
  intros H Hr Hh.
  assert (Hv : v_isValid (validateCSV lower p t) = true).
  { apply validateCSV_valid_iff. split; [|now split].
    destruct (parseCSVText_cases p text o)
      as [[_ E] | [(_ & _ & E) | (l0 & rest & t' & _ & _ & E & Hhd & _)]];
      try congruence.
    assert (t' = t) by congruence. subst t'.
    intros E0. rewrite E0 in Hhd.
    destruct (hasHeader o).
    - pose proof (parseCSVLine_not_empty l0 (tb_delimiter t) (trimValues o))
        as Hn. rewrite <- Hhd in Hn. discriminate.
    - symmetry in Hhd. apply map_eq_nil in Hhd.
      pose proof (parseCSVLine_not_empty l0 (tb_delimiter t) (trimValues o))
        as Hn.
      destruct (parseCSVLine l0 (tb_delimiter t) (trimValues o));
        discriminate. }
  split; [assumption | now apply validateCSV_valid_errors].
Qed.

Lemma row_warnings_count expected rs :
  forall index seen,
    fst (row_warnings expected index seen rs)
    = (seen + length (filter (fun row => negb (length row =? expected)%nat)
                        rs))%nat /\
    length (snd (row_warnings expected index seen rs))
    = Nat.min (5 - seen)
        (length (filter (fun row => negb (length row =? expected)%nat) rs)).
Proof.
  induction rs as [|row rs IH]; intros index seen;
    cbn [row_warnings filter].
  - cbn [fst snd length]. lia.
  - destruct (length row =? expected)%nat; cbn [negb]; [apply IH|].
    destruct (row_warnings expected (S index) (S seen) rs) as [total ws] eqn:E.
    specialize (IH (S index) (S seen)). rewrite E in IH.
    cbn [fst snd length] in *. destruct IH as [-> Hl].
    rewrite length_app, Hl. split; [lia|].
    destruct (Nat.leb_spec (S seen) 5); cbn [length]; lia.
Qed.

(** X11: [validateCSV] counts every row whose length differs from the
    header count, and names the first five of them only. *)
Theorem inconsistent_rows_reported expected rs :
  let k := length (filter (fun row => negb (length row =? expected)%nat) rs) in
  fst (row_warnings expected 0 0 rs) = k /\
  length (snd (row_warnings expected 0 0 rs)) = Nat.min 5 k.
Proof.
  intros k. destruct (row_warnings_count expected rs 0 0) as [H1 H2].
  split; [exact H1 | exact H2].
Qed.

(** *** Template detection *)

Lemma pattern_found pattern hs h :
  In h hs -> includes (lower h) pattern = true ->
  existsb (fun header => includes header pattern) (map lower hs) = true.
Proof.
  intros Hin Hinc. apply existsb_exists. exists (lower h).
  split; [now apply in_map | assumption].
Qed.

Lemma min_one_range (x : Q) :
  (0 <= x)%Q -> (0 <= min_one x)%Q /\ (min_one x <= 1)%Q.
Proof.
  intros Hx. unfold min_one. destruct (Qle_bool x 1) eqn:E.
  - apply Qle_bool_iff in E. now split.
  - split; [discriminate | apply Qle_refl].
Qed.

(** X12: a table with a header carrying [[where]] and one carrying [[set]]
    (in any case, once lower-cased) is detected as an UPDATE template with
    confidence 1. *)
Theorem update_template_detected csv h1 h2 :
  In h1 (headers csv) -> includes (lower h1) (lit "[where]") = true ->
  In h2 (headers csv) -> includes (lower h2) (lit "[set]") = true ->
  d_type (detectTemplateType lower csv) = lit "UPDATE" /\
  (d_confidence (detectTemplateType lower csv) == 1)%Q.
Proof.
  intros Hin1 Hw Hin2 Hs. unfold detectTemplateType.
  destruct (headers csv) as [|h hs] eqn:Eh; [destruct Hin1|].
  cbn [length Nat.eqb]. rewrite <- Eh in *.
  set (m := pattern_matches updatePatterns (map lower (headers csv))).
  assert (Hm : (2 <= m <= 6)%nat).
  { subst m. unfold pattern_matches, updatePatterns. cbn [map filter].
    rewrite (pattern_found _ _ _ Hin1 Hw), (pattern_found _ _ _ Hin2 Hs).
    repeat match goal with
           | |- context [if existsb ?f ?l then _ else _] =>
               destruct (existsb f l)
           end; cbn [length]; lia. }
  replace (2 <=? m)%nat with true by (symmetry; apply Nat.leb_le; lia).
  cbn [d_type d_confidence]. split; [reflexivity|].
  unfold min_one. destruct (Qle_bool (Z.of_nat m # 2) 1) eqn:E;
    [|reflexivity].
  apply Qle_bool_iff in E. unfold Qle in E. cbn [Qnum Qden] in E.
  assert (E2 : m = 2%nat) by lia. now rewrite E2.
Qed.

(** X13: the confidence of a detection lies between 0 and 1; a table
    without header is unknown; a table with a header and rows never is. *)
Theorem template_detection_range csv :
  (0 <= d_confidence (detectTemplateType lower csv))%Q /\
  (d_confidence (detectTemplateType lower csv) <= 1)%Q /\
  (headers csv = [] ->
   d_type (detectTemplateType lower csv) = lit "unknown") /\
  (headers csv <> [] -> (0 < totalRows csv)%Z ->
   d_type (detectTemplateType lower csv) = lit "UPDATE" \/
   d_type (detectTemplateType lower csv) = lit "INSERT").
Proof.
  unfold detectTemplateType.
  destruct (headers csv) as [|h hs] eqn:Eh; cbn [length Nat.eqb].
  - cbn [d_confidence d_type].
    split; [discriminate|]. split; [discriminate|].
    split; [reflexivity | congruence].
  - rewrite <- Eh.
    assert (Hne : headers csv = [] -> False) by (rewrite Eh; discriminate).
    destruct (2 <=? pattern_matches updatePatterns _)%nat.
    + cbn [d_confidence d_type].
      destruct (@min_one_range
                  (Z.of_nat (pattern_matches updatePatterns
                               (map lower (headers csv))) # 2))
        as [H0 H1]; [unfold Qle; cbn [Qnum Qden]; lia|].
      split; [assumption|]. split; [assumption|].
      split; [intros E; now destruct (Hne E) | now left].
    + destruct (2 <=? pattern_matches insertPatterns _)%nat.
      * cbn [d_confidence d_type].
        destruct (@min_one_range
                    (Z.of_nat (pattern_matches insertPatterns
                                 (map lower (headers csv)))
                     # Pos.of_nat (length insertPatterns)))
          as [H0 H1]; [unfold Qle; cbn [Qnum Qden]; lia|].
        split; [assumption|]. split; [assumption|].
        split; [intros E; now destruct (Hne E) | now right].
      * destruct (Z.ltb_spec 0 (totalRows csv)); cbn [d_confidence d_type].
        -- split; [discriminate|]. split; [discriminate|].
           split; [intros E; now destruct (Hne E) | now right].
        -- split; [discriminate|]. split; [discriminate|].
           split; [intros E; now destruct (Hne E) | lia].
Qed.

End ValidationProperties.

Section ValidationWitnesses.
Import CSVParser.

Lemma parsed_table_validates_witness :
  v_isValid
    (validateCSV toLowerCase new
       {| headers := [lit "a"; lit "b"];
          rows := [[lit "1"; lit "2"; lit "3"]];
          totalRows := 1; columns := 2;
          tb_delimiter := lit ","; tb_encoding := lit "UTF-8";
          tb_metadata := {| originalLineCount := 2; processedRows := 1;
                            skippedRows := 0; md_hasHeader := true;
                            maxColumnCount := Int 3 |} |}) = true.
Proof.
  refine (proj1 (@parsed_table_validates toLowerCase new
                   (lit "a,b" ++ nl ++ lit "1,2,3") defaults _ eq_refl _ _)).
  - discriminate.
  - repeat constructor; discriminate.
Defined.

Lemma update_template_detected_witness :
  d_type (detectTemplateType toLowerCase
            {| headers := [lit "id[WHERE]"; lit "name[SET]"];
               rows := []; totalRows := 0; columns := 2;
               tb_delimiter := lit ","; tb_encoding := lit "UTF-8";
               tb_metadata := {| originalLineCount := 1; processedRows := 0;
                                 skippedRows := 0; md_hasHeader := true;
                                 maxColumnCount := NegInf |} |})
  = lit "UPDATE".
Proof.
  refine (proj1 (@update_template_detected toLowerCase _ (lit "id[WHERE]")
                   (lit "name[SET]") _ _ _ _)).
  - now left.
  - reflexivity.
  - right. now left.
  - reflexivity.
Defined.

End ValidationWitnesses.

(** ** More on the field mapper *)

Section SanitizerProperties.
Import FieldMapper.

Lemma strip_leading_sub (P : N -> Prop) s :
  Forall P s -> Forall P (strip_leading s).
Proof.
  induction 1 as [|c r Hc Hr IH]; cbn [strip_leading]; [constructor|].
  destruct (c =? underscore)%N; [assumption | now constructor].
Qed.

Lemma strip_trailing_sub (P : N -> Prop) s :
  Forall P s -> Forall P (strip_trailing s).
Proof.
  induction 1 as [|c r Hc Hr IH]; cbn [strip_trailing]; [constructor|].
  destruct (strip_trailing r) as [|x r'].
  - destruct (c =? underscore)%N; repeat constructor; assumption.
  - now constructor.
Qed.

Lemma collapse_from_sub (P : N -> Prop) s :
  Forall P s -> forall b, Forall P (collapse_from b s).
Proof.
  induction 1 as [|c r Hc Hr IH]; intros b; cbn [collapse_from];
    [constructor|].
  destruct (N.eqb_spec c underscore) as [-> | Hne].
  - destruct b; [apply IH|]. constructor; [assumption | apply IH].
  - constructor; [assumption | apply IH].
Qed.

Lemma replace_others_allowed s :
  Forall (fun c => allowed c = true) (replace_others s).
Proof.
  unfold replace_others. induction s as [|c s IH]; cbn [map]; constructor;
    [|assumption].
  unfold allowed. destruct (is_word c || is_cjk c) eqn:E;
    [assumption | reflexivity].
Qed.

Lemma firstn_sub (P : N -> Prop) n s :
  Forall P s -> Forall P (firstn n s).
Proof.
  intros H. revert n. induction H as [|c r Hc Hr IH]; intros [|n];
    cbn [firstn]; constructor; auto.
Qed.

Lemma strip_leading_head s : starts_with_underscore (strip_leading s) = false.
Proof.
  induction s as [|c r IH]; cbn [strip_leading]; [reflexivity|].
  destruct (c =? underscore)%N eqn:E; [assumption | exact E].
Qed.

Lemma strip_trailing_head s :
  starts_with_underscore s = false ->
  starts_with_underscore (strip_trailing s) = false.
Proof.
  destruct s as [|c r]; cbn [strip_trailing starts_with_underscore];
    [reflexivity|].
  intros Hc. destruct (strip_trailing r); rewrite ?Hc; exact Hc.
Qed.

Lemma collapse_from_head s b :
  starts_with_underscore s = false ->
  starts_with_underscore (collapse_from b s) = false.
Proof.
  destruct s as [|c r]; cbn [collapse_from starts_with_underscore];
    [reflexivity|].
  intros Hc. rewrite Hc. exact Hc.
Qed.

Lemma collapse_from_true_head s :
  starts_with_underscore (collapse_from true s) = false.
Proof.
  induction s as [|c r IH]; cbn [collapse_from]; [reflexivity|].
  destruct (c =? underscore)%N eqn:E; [assumption | exact E].
Qed.

Lemma firstn_head n s :
  starts_with_underscore s = false ->
  starts_with_underscore (firstn n s) = false.
Proof. destruct n, s; cbn; auto. Qed.

(** Pairs of underscores *)
Lemma includes_pair c rest :
  includes (c :: rest) [underscore; underscore]
  = (underscore =? c)%N && starts_with_underscore rest
    || includes rest [underscore; underscore].
Proof.
  cbn [includes startsWith]. f_equal. f_equal.
  destruct rest as [|d rest']; cbn [startsWith starts_with_underscore];
    [reflexivity|].
  now rewrite andb_true_r, N.eqb_sym.
Qed.

Lemma collapse_from_no_pair s :
  forall b, includes (collapse_from b s) [underscore; underscore] = false.
Proof.
  induction s as [|c r IH]; intros b; cbn [collapse_from]; [reflexivity|].
  destruct (c =? underscore)%N eqn:E.
  - destruct b; [apply IH|].
    now rewrite includes_pair, collapse_from_true_head, andb_false_r, IH.
  - rewrite includes_pair, IH, orb_false_r.
    now rewrite N.eqb_sym, E.
Qed.

Lemma includes_firstn n s p :
  includes s p = false -> includes (firstn n s) p = false.
Proof.
  intros H. destruct (includes (firstn n s) p) eqn:E; [|reflexivity].
  apply includes_app_r with (z := skipn n s) in E.
  rewrite firstn_skipn in E. congruence.
Qed.

(** X14: whatever the header, the sanitized name has at most 64 characters,
    all of them letters, digits, underscores or characters of the range
    U+4E00-U+9FFF; it does not start with an underscore and has no two
    underscores in a row. *)
Theorem sanitized_name_shape lower fieldName :
  let r := sanitizeFieldName lower fieldName in
  (length r <= 64)%nat /\
  Forall (fun c => allowed c = true) r /\
  hd_error r <> Some underscore /\
  includes r [underscore; underscore] = false.
Proof.
  intros r. subst r. unfold sanitizeFieldName.
  set (s := replace_others (lower fieldName)).
  split; [apply firstn_le_length|].
  split.
  { apply firstn_sub, collapse_from_sub, strip_trailing_sub,
      strip_leading_sub, replace_others_allowed. }
  split.
  - assert (H : starts_with_underscore
                  (firstn 64 (collapse (strip_trailing (strip_leading s))))
                = false)
      by (apply firstn_head, collapse_from_head, strip_trailing_head,
            strip_leading_head).
    destruct (firstn 64 _) as [|c r]; [discriminate|].
    cbn [starts_with_underscore hd_error] in *.
    intros E. injection E as ->. now rewrite N.eqb_refl in H.
  - apply includes_firstn, collapse_from_no_pair.
Qed.

End SanitizerProperties.

Section AnalysisProperties.
Import FieldMapper.

Lemma filter_shorter {A} (f : A -> bool) l :
  (length (filter f l) <= length l)%nat.
Proof.
  induction l as [|x l IH]; cbn [filter length]; [lia|].
  destruct (f x); cbn [length]; lia.
Qed.

Lemma filter_strictly_shorter {A} (f : A -> bool) l :
  (length (filter f l) < length l)%nat <-> exists x, In x l /\ f x = false.
Proof.
  induction l as [|x l IH]; cbn [filter length].
  - split; [lia | intros (x & [] & _)].
  - pose proof (filter_shorter f l) as Hle.
    destruct (f x) eqn:E; cbn [length].
    + split.
      * intros H. destruct IH as [IH _].
        destruct IH as (y & Hy & Hf); [lia|]. exists y. split; [now right|easy].
      * intros (y & [-> | Hy] & Hf); [congruence|].
        destruct IH as [_ IH]. assert (length (filter f l) < length l)%nat by
          (apply IH; now exists y). lia.
    + split; [|lia]. intros _. exists x. split; [now left | assumption].
Qed.

Lemma fraction_range pattern vs :
  vs <> [] ->
  (0 <= fraction pattern vs)%Q /\ (fraction pattern vs <= 1)%Q.
Proof.
  intros Hne. unfold fraction, matches, Qle. cbn [Qnum Qden].
  pose proof (filter_shorter (fun v => test pattern (trim (String_ v))) vs).
  assert (Hpos : Z.pos (Pos.of_nat (length vs)) = Z.of_nat (length vs)).
  { destruct vs; [congruence|]. cbn [length]. lia. }
  rewrite Hpos. lia.
Qed.

Lemma checkTypes_confident checks vs hn ml a :
  checkTypes checks vs hn ml = Some a ->
  exists ty pattern,
    In (ty, pattern) checks /\
    jsType a = ty /\
    confidence a = fraction pattern vs /\
    (8 # 10 <= fraction pattern vs)%Q.
Proof.
  induction checks as [|[ty pattern] rest IH]; cbn [checkTypes];
    [discriminate|].
  destruct (Qle_bool (8 # 10) (fraction pattern vs)) eqn:E.
  - intros H. injection H as <-. exists ty, pattern.
    split; [now left|]. repeat split. now apply Qle_bool_iff.
  - intros H. destruct (IH H) as (ty' & p' & Hin & Hrest).
    exists ty', p'. split; [now right | assumption].
Qed.

(** X15: the confidence [analyzeField] reports is 0 for a column without
    any value, and between 0.8 and 1 for every other column, typed or not.
    A confidence under one half therefore marks the empty columns, and only
    them. *)
Theorem confidence_levels fieldName values :
  let a := analyzeField fieldName values in
  (filter nonEmpty values = [] -> confidence a = 0%Q) /\
  (filter nonEmpty values <> [] ->
   (8 # 10 <= confidence a)%Q /\ (confidence a <= 1)%Q) /\
  (Qle_bool (1 # 2) (confidence a) = false <-> filter nonEmpty values = []).
Proof.
  intros a. subst a. unfold analyzeField.
  destruct (filter nonEmpty values) as [|v vs] eqn:Ef.
  - cbn [length Nat.eqb confidence].
    split; [reflexivity|]. split; [congruence|]. split; reflexivity.
  - cbn [length Nat.eqb].
    assert (Hhalf : forall q : Q, (8 # 10 <= q)%Q ->
              Qle_bool (1 # 2) q = false <-> v :: vs = []).
    { intros q Hq. split; [|discriminate]. intros Hlow. exfalso.
      assert (Hle : (1 # 2 <= q)%Q)
        by (eapply Qle_trans; [|exact Hq]; discriminate).
      apply Qle_bool_iff in Hle. congruence. }
    destruct (checkTypes _ _ _ _) as [a|] eqn:Ec.
    + destruct (checkTypes_confident _ _ _ _ Ec)
        as (ty & pattern & _ & _ & -> & Hge).
      split; [discriminate|].
      split; [intros _; split; [assumption | now apply fraction_range]|].
      now apply Hhalf.
    + cbn [confidence]. split; [discriminate|].
      split; [intros _; split; discriminate|].
      apply Hhalf. discriminate.
Qed.

Lemma checkTypes_hasNulls checks vs hn ml (other : analysis) :
  hasNulls match checkTypes checks vs hn ml with
           | Some a => a
           | None => other
           end
  = match checkTypes checks vs hn ml with
    | Some _ => hn
    | None => hasNulls other
    end.
Proof.
  induction checks as [|[ty p] rest IH]; cbn [checkTypes]; [reflexivity|].
  destruct (Qle_bool _ _); [reflexivity | exact IH].
Qed.

(** X16: [analyzeField] marks a column as having nulls exactly when the
    column is empty or one of its values is [null], [undefined] or the empty
    string. *)
Theorem hasNulls_iff_empty_cell fieldName values :
  hasNulls (analyzeField fieldName values) = true <->
  values = [] \/ exists v, In v values /\ nonEmpty v = false.
Proof.
  unfold analyzeField.
  destruct (filter nonEmpty values) as [|w ws] eqn:Ef.
  - cbn [length Nat.eqb hasNulls]. split; [intros _|reflexivity].
    destruct values as [|v vs]; [now left|]. right.
    apply filter_strictly_shorter. rewrite Ef. cbn [length]. lia.
  - cbn [length Nat.eqb].
    rewrite checkTypes_hasNulls. cbn [hasNulls].
    replace (match checkTypes _ _ _ _ with Some _ => _ | None => _ end)
      with (S (length ws) <? length values)%nat
      by (now destruct (checkTypes _ _ _ _)).
    rewrite Nat.ltb_lt.
    change (S (length ws)) with (length (w :: ws)). rewrite <- Ef.
    rewrite filter_strictly_shorter. split.
    + intros H. now right.
    + intros [-> | H]; [discriminate | assumption].
Qed.

End AnalysisProperties.

Section MappingValidation.
Import FieldMapper.
Variable percent : Q -> list N.

Lemma includesStr_In l s : includesStr l s = true <-> In s l.
Proof.
  unfold includesStr. rewrite existsb_exists. split.
  - intros (x & Hx & E). apply eqs_eq in E. now subst.
  - intros H. exists s. split; [assumption | apply eqs_refl].
Qed.

(** The errors of the [forEach], from any state on: none is added exactly
    when the names are new, distinct and short enough. *)
Lemma checkMapping_errors ms :
  forall st,
    NoDup (mc_usedSqlNames st) ->
    exists added,
      mc_errors (fold_left (checkMapping percent) ms st)
      = mc_errors st ++ added /\
      (added = [] <->
       NoDup (mc_usedSqlNames st ++ map (fun e => fm_sqlFieldName (snd e)) ms)
       /\ Forall (fun e => (length (fm_sqlFieldName (snd e)) <= 64)%nat) ms).
Proof.
  induction ms as [|[originalName m] ms IH]; intros st Hused.
  - exists []. cbn [fold_left map]. rewrite !app_nil_r.
    split; [reflexivity|]. split; [now split | reflexivity].
  - cbn [fold_left map snd].
    set (st' := checkMapping percent st (originalName, m)).
    destruct (includesStr (mc_usedSqlNames st) (fm_sqlFieldName m)) eqn:Ed.
    + (* a duplicate *)
      destruct (IH st') as (added & -> & _).
      { subst st'. cbn [checkMapping mc_usedSqlNames]. now rewrite Ed. }
      subst st'. cbn [checkMapping mc_errors]. rewrite Ed.
      eexists. rewrite <- !app_assoc. split; [reflexivity|].
      split; [discriminate|]. intros [Hnd _]. exfalso.
      apply NoDup_remove_2 in Hnd. apply Hnd, in_or_app. left.
      now apply includesStr_In.
    + assert (Hnew : ~ In (fm_sqlFieldName m) (mc_usedSqlNames st)).
      { intros H. apply includesStr_In in H. congruence. }
      destruct (IH st') as (added & -> & Hadded).
      { subst st'. cbn [checkMapping mc_usedSqlNames]. rewrite Ed.
        apply NoDup_app; [assumption | repeat constructor; intros [] |].
        intros a Ha [<- | []]. contradiction. }
      subst st'. cbn [checkMapping mc_errors mc_usedSqlNames] in *.
      rewrite Ed in *. cbn [app] in *.
      eexists. rewrite <- !app_assoc. split; [reflexivity|].
      rewrite <- app_assoc in Hadded. cbn [app] in Hadded.
      destruct (Nat.ltb_spec 64 (length (fm_sqlFieldName m))) as [Hl | Hl];
        cbn [app].
      * split; [discriminate|]. intros [_ Hall]. inversion Hall; subst.
        cbn [snd] in *. lia.
      * rewrite Hadded. split.
        -- intros [Hnd Hall]. split; [assumption|]. now constructor.
        -- intros [Hnd Hall]. split; [assumption|]. now inversion Hall.
Qed.

(** X17: [validateMappings] accepts a set of mappings exactly when no SQL
    field name occurs twice and none is longer than 64 characters; a low
    confidence only gives a warning. *)
Theorem validateMappings_accepts ms :
  mv_isValid (validateMappings percent ms) = true <->
  NoDup (map (fun e => fm_sqlFieldName (snd e)) ms) /\
  Forall (fun e => (length (fm_sqlFieldName (snd e)) <= 64)%nat) ms.
Proof.
  unfold validateMappings. cbn [mv_isValid].
  destruct (@checkMapping_errors ms
              {| mc_errors := []; mc_warnings := []; mc_usedSqlNames := [] |})
    as (added & -> & Hadded); [constructor|].
  cbn [mc_errors mc_usedSqlNames app] in *.
  now rewrite Nat.eqb_eq, length_zero_iff_nil.
Qed.

(** X18: the entries [generateMapping] builds are never too long for
    [validateMappings], their names coming out of [sanitizeFieldName]:
    such mappings are accepted exactly when their SQL names are distinct. *)
Theorem sanitized_mappings_valid_iff_distinct lower ms :
  Forall (fun e => exists header columnData,
            snd e = mappingEntry lower header columnData) ms ->
  (mv_isValid (validateMappings percent ms) = true <->
   NoDup (map (fun e => fm_sqlFieldName (snd e)) ms)).
Proof.
  intros Hs. unfold validateMappings. cbn [mv_isValid].
  destruct (@checkMapping_errors ms
              {| mc_errors := []; mc_warnings := []; mc_usedSqlNames := [] |})
    as (added & -> & Hadded); [constructor|].
  cbn [mc_errors mc_usedSqlNames app] in *.
  rewrite Nat.eqb_eq, length_zero_iff_nil, Hadded.
  split; [now intros [H _] | intros H; split; [assumption|]].
  apply Forall_impl with (2 := Hs). intros e (header & columnData & ->).
  apply firstn_le_length.
Qed.

End MappingValidation.

Section MappingWitnesses.
Import FieldMapper.

Lemma sanitized_mappings_valid_iff_distinct_witness :
  sanitizeFieldName toLowerCase (lit "First Name!") = lit "first_name" /\
  mv_isValid
    (validateMappings (fun _ => [])
       [(lit "First Name!", mappingEntry toLowerCase (lit "First Name!") [])])
  = true.
Proof.
  split; [reflexivity|].
  apply (@sanitized_mappings_valid_iff_distinct (fun _ => []) toLowerCase
           [(lit "First Name!",
             mappingEntry toLowerCase (lit "First Name!") [])]).
  - constructor; [now exists (lit "First Name!"), [] | constructor].
  - cbn. repeat constructor. intros [].
Defined.

End MappingWitnesses.

(** ** More on the SQL generator *)

Section MoreGeneratorProperties.
Import SQLGenerator.

(** *** Quotes *)

Lemma count_cu_app c a b : count_cu c (a ++ b) = (count_cu c a + count_cu c b)%nat.
Proof. unfold count_cu. now rewrite filter_app, length_app. Qed.

Lemma count_cu_cons q c s :
  count_cu q (c :: s)
  = ((if (q =? c)%N then 1 else 0) + count_cu q s)%nat.
Proof. unfold count_cu. cbn [filter]. now destruct (q =? c)%N. Qed.

Lemma count_cu_doubled q s :
  count_cu q (replaceAll s q [q; q]) = (2 * count_cu q s)%nat.
Proof.
  induction s as [|c s IH]; [reflexivity|].
  cbn [replaceAll]. rewrite count_cu_app, IH, count_cu_cons.
  destruct (N.eqb_spec c q) as [-> | Hne].
  - rewrite !count_cu_cons, N.eqb_refl. cbn. lia.
  - replace (q =? c)%N with false
      by (symmetry; apply N.eqb_neq; congruence).
    rewrite count_cu_cons.
    replace (q =? c)%N with false
      by (symmetry; apply N.eqb_neq; congruence).
    cbn. lia.
Qed.

(** X19: for a mapping that is neither integer, decimal nor boolean, a cell
    that is not blank goes out between quotes with each quote of its
    (trimmed) text doubled, so that the literal holds an even number of
    quotes, two more than twice those of the text. *)
Theorem string_literal_is_balanced v m sx :
  is_blank v = false ->
  eqs (jsType m) (lit "integer") = false ->
  eqs (jsType m) (lit "decimal") = false ->
  eqs (jsType m) (lit "boolean") = false ->
  stringQuote sx = [squote] ->
  let text := trim (String_ v) in
  formatValue v m sx
  = [squote] ++ replaceAll text squote [squote; squote] ++ [squote] /\
  count_cu squote (formatValue v m sx) = (2 * count_cu squote text + 2)%nat /\
  Nat.even (count_cu squote (formatValue v m sx)) = true.
Proof.
  intros Hb Hi Hd Hbo Hq text.
  assert (E : formatValue v m sx
              = [squote] ++ replaceAll text squote [squote; squote]
                ++ [squote]).
  { unfold formatValue. now rewrite Hb, Hi, Hd, Hbo, Hq. }
  assert (Hc : count_cu squote (formatValue v m sx)
               = (2 * count_cu squote text + 2)%nat).
  { rewrite E, !count_cu_app, count_cu_doubled. cbn. lia. }
  split; [exact E|]. split; [exact Hc|].
  rewrite Hc, Nat.add_comm. cbn [Nat.add Nat.even].
  now rewrite Nat.even_mul.
Qed.

Lemma string_literal_is_balanced_witness :
  formatValue (VStr (lit " it's 'x' ")) m_name postgresql
  = lit "'it''s ''x'''".
Proof.
  exact (proj1 (@string_literal_is_balanced (VStr (lit " it's 'x' ")) m_name
                  postgresql eq_refl eq_refl eq_refl eq_refl eq_refl)).
Defined.

(** *** UPDATE generation that succeeds *)

Lemma updateRow_ok c sx st row :
  has_where row = true -> has_set row = true ->
  updateRow c sx st row
  = Ok {| b_sql := b_sql st ++ updateStatement c sx row;
          b_recordCount := b_recordCount st + 1;
          b_batchCount := b_batchCount st |}.
Proof.
  intros Hw Hs. unfold updateRow, updateStatement.
  destruct (whereFields row sx) as [|w ws] eqn:Ew.
  { apply whereFields_nil_iff in Ew. congruence. }
  destruct (setFields row sx) as [|f fs] eqn:Es.
  { apply setFields_nil_iff in Es. congruence. }
  reflexivity.
Qed.

Lemma forEach_update_ok c sx rows :
  (forall row, In row rows -> has_where row = true /\ has_set row = true) ->
  forall st,
    forEach_update c sx rows st
    = Ok {| b_sql := b_sql st ++ concat (map (updateStatement c sx) rows);
            b_recordCount := b_recordCount st + Z.of_nat (length rows);
            b_batchCount := b_batchCount st |}.
Proof.
  induction rows as [|row rest IH]; intros Hall [s rc bc].
  - cbn. now rewrite app_nil_r, Z.add_0_r.
  - cbn [forEach_update].
    destruct (Hall row (or_introl eq_refl)) as [Hw Hs].
    rewrite updateRow_ok by assumption. cbn [bind].
    rewrite IH by (intros r Hr; apply Hall; now right).
    cbn [b_sql b_recordCount b_batchCount map concat length].
    rewrite <- app_assoc. do 2 f_equal. lia.
Qed.

(** X20: [generateUpdateSQL] succeeds exactly when every row has a filled
    [[WHERE]] cell and a filled [[SET]] cell; it then returns one statement
    per row, in order, counts the rows, and reports a single batch. *)
Theorem update_generation_succeeds_iff c sx :
  (forall row, In row (csvData_rows c) ->
     has_where row = true /\ has_set row = true) <->
  generateUpdateSQL c sx
  = Ok {| b_sql := concat (map (updateStatement c sx) (csvData_rows c));
          b_recordCount := Z.of_nat (length (csvData_rows c));
          b_batchCount := 1 |}.
Proof.
  unfold generateUpdateSQL. split.
  - intros Hall. now rewrite forEach_update_ok.
  - intros Hok row Hin.
    destruct (has_where row) eqn:Ew, (has_set row) eqn:Es;
      try (split; reflexivity); exfalso;
      match goal with
      | |- _ =>
          destruct (@forEach_update_throws c sx (csvData_rows c)
                      {| b_sql := []; b_recordCount := 0; b_batchCount := 1 |}
                      row Hin) as [E | E];
          [ (now left) || (now right) | congruence | congruence ]
      end.
Qed.

(** *** An operation in another case *)

(** X21: [validateConfig] accepts the operation in any case, [generateSQL]
    compares it as written: for ["insert"] or ["Update"] the call succeeds
    and the script holds the comments and the transaction, and not one
    statement; no record is counted. *)
Theorem other_case_operation_generates_nothing fuel now completed c :
  validateConfig c = Ok tt ->
  operation c <> lit "INSERT" ->
  operation c <> lit "UPDATE" ->
  let md := {| md_operation := operation c;
               md_databaseType := databaseType c;
               md_tableName := tableName c;
               recordCount := 0;
               batchCount := 0;
               generatedAt := now |} in
  generateSQL fuel now completed c
  = Some (Ok {| sql := script_head now c ++ script_tail completed c md;
                gen_metadata := md;
                success := true |}).
Proof.
  intros Hv Hi Hu md. unfold generateSQL. rewrite Hv.
  destruct (validateConfig_syntax c Hv) as [sx ->].
  replace (eqs (operation c) (lit "INSERT")) with false
    by (symmetry; apply not_true_is_false; intros E; now apply eqs_eq in E).
  replace (eqs (operation c) (lit "UPDATE")) with false
    by (symmetry; apply not_true_is_false; intros E; now apply eqs_eq in E).
  reflexivity.
Qed.


Lemma other_case_operation_generates_nothing_witness :
  exists g,
    generateSQL 1 (lit "t0") (lit "t1") obrien_lowercase = Some (Ok g) /\
    recordCount (gen_metadata g) = 0%Z /\
    includes (sql g) (lit "INSERT INTO") = false.
Proof.
  eexists. split.
  - refine (@other_case_operation_generates_nothing 1 (lit "t0") (lit "t1")
              obrien_lowercase eq_refl _ _); discriminate.
  - split; reflexivity.
Defined.

(** *** The estimate *)

Lemma ceil_div_nat n d :
  (1 <= d)%nat ->
  Z.of_nat ((n + d - 1) / d) = Math_ceil_div (Z.of_nat n) (Int (Z.of_nat d)).
Proof.
  intros Hd. unfold Math_ceil_div. rewrite Nat2Z.inj_div.
  replace (Z.of_nat (n + d - 1)) with (Z.of_nat n + Z.of_nat d - 1)%Z by lia.
  set (a := Z.of_nat n). set (b := Z.of_nat d).
  assert (Hb : (0 < b)%Z) by (subst b; lia).
  pose proof (Z.div_mod (- a) b ltac:(lia)) as Hdm.
  pose proof (Z.mod_pos_bound (- a) b Hb) as Hr.
  symmetry. apply Z.div_unique with (r := (b - 1 - (- a) mod b)%Z); lia.
Qed.

(** X22: for a finite batch size of 1 or more (the default that replaces an
    unusable one included) the batch and record counts [estimateSize]
    announces are the ones [generateInsertSQL] then reports.  For the batch
    size [Infinity] (a numeral too long for a double) they are not: the
    rows go out in one batch, and the estimate counts none. *)
Theorem estimate_matches_generation fuel c sx :
  (forall b,
     batchSize_of (cfg_options c) = Int b ->
     (1 <= b)%Z ->
     (length (csvData_rows c) <= fuel)%nat ->
     exists body,
       generateInsertSQL fuel c sx = Some body /\
       b_batchCount body = est_batchCount (estimateSize c) /\
       b_recordCount body = est_recordCount (estimateSize c)) /\
  (batchSize_of (cfg_options c) = PosInf ->
   csvData_rows c <> [] ->
   (1 <= fuel)%nat ->
   exists body,
     generateInsertSQL fuel c sx = Some body /\
     b_batchCount body = 1%Z /\
     est_batchCount (estimateSize c) = 0%Z /\
     b_recordCount body = est_recordCount (estimateSize c)).
Proof.
  split.
  - intros b Eb Hb Hf.
    set (d := Z.to_nat b).
    assert (Hd : (1 <= d)%nat) by (subst d; lia).
    assert (Ebd : batchSize_of (cfg_options c) = Int (Z.of_nat d))
      by (rewrite Eb; f_equal; subst d; lia).
    pose proof (@generateInsertSQL_positive fuel c sx d Ebd Hd Hf) as Hgen.
    cbv zeta in Hgen. eexists. split; [exact Hgen|].
    cbn [b_batchCount b_recordCount estimateSize est_batchCount
         est_recordCount].
    split; [|reflexivity]. rewrite Ebd. now apply ceil_div_nat.
  - intros Eb Hrows Hf. destruct fuel as [|fuel]; [lia|].
    rewrite generateInsertSQL_infinite by assumption.
    eexists. split; [reflexivity|].
    cbn [b_batchCount b_recordCount estimateSize est_batchCount
         est_recordCount].
    rewrite Eb. repeat split.
Qed.

Lemma estimate_matches_generation_witness :
  (exists body,
     generateInsertSQL 7 (numbered 7 (VStr (lit "3"))) sqlite = Some body /\
     b_batchCount body = 3%Z /\
     est_batchCount (estimateSize (numbered 7 (VStr (lit "3")))) = 3%Z) /\
  (exists body,
     generateInsertSQL 1 (numbered 7 (VStr (repeat 57%N 310))) sqlite
     = Some body /\
     b_batchCount body = 1%Z /\
     est_batchCount (estimateSize (numbered 7 (VStr (repeat 57%N 310))))
     = 0%Z).
Proof.
  split.
  - destruct (proj1 (@estimate_matches_generation 7
                       (numbered 7 (VStr (lit "3"))) sqlite) 3%Z)
      as (body & Hg & Hb & _).
    + vm_compute. reflexivity.
    + lia.
    + cbn. lia.
    + exists body. split; [exact Hg|]. split; [|reflexivity].
      rewrite Hb. reflexivity.
  - destruct (proj2 (@estimate_matches_generation 1
                       (numbered 7 (VStr (repeat 57%N 310))) sqlite))
      as (body & Hg & Hb & He & _).
    + vm_compute. reflexivity.
    + discriminate.
    + lia.
    + exists body. split; [exact Hg|]. split; assumption.
Defined.

(** *** A negative batch size *)

(** X23: with a negative batch size and at least one row, the loop of
    [generateInsertSQL] never gets past the rows: whatever the number of steps
    allowed, neither it nor [generateSQL] returns. *)
Theorem negative_batch_size_never_returns fuel now completed c sx :
  lt_num (batchSize_of (cfg_options c)) (Int 0) = true ->
  csvData_rows c <> [] ->
  generateInsertSQL fuel c sx = None /\
  (validateConfig c = Ok tt -> operation c = lit "INSERT" ->
   generateSQL fuel now completed c = None).
Proof.
  intros Hbs Hrows.
  assert (Hins : forall sx', generateInsertSQL fuel c sx' = None)
    by (intros sx'; unfold generateInsertSQL;
        now apply insertLoop_negative).
  split; [apply Hins|].
  intros Hv Hop. unfold generateSQL. rewrite Hv.
  destruct (validateConfig_syntax c Hv) as [sx' ->].
  rewrite Hop. change (eqs (lit "INSERT") (lit "INSERT")) with true.
  cbv iota. now rewrite Hins.
Qed.

Lemma negative_batch_size_never_returns_witness :
  generateSQL 1000 (lit "t0") (lit "t1") (numbered 3 (VNum (Int (-5))))
  = None.
Proof.
  refine (proj2 (@negative_batch_size_never_returns 1000 (lit "t0") (lit "t1")
                   (numbered 3 (VNum (Int (-5)))) sqlite _ _)
            eq_refl eq_refl).
  - vm_compute. reflexivity.
  - discriminate.
Defined.

End MoreGeneratorProperties.

(** ** More on the UPDATE clause builder *)

Section MoreHandlerProperties.
Import UpdateOperationHandler.

Lemma filter_filter_neg {A} (f : A -> bool) l :
  filter f (filter (fun x => negb (f x)) l) = [].
Proof.
  induction l as [|x l IH]; [reflexivity|]. cbn [filter].
  destruct (f x) eqn:E; cbn [negb filter]; [assumption|].
  now rewrite E.
Qed.

Lemma filter_idem {A} (f : A -> bool) l :
  filter f (filter f l) = filter f l.
Proof.
  induction l as [|x l IH]; [reflexivity|]. cbn [filter].
  destruct (f x) eqn:E; cbn [filter]; [|assumption].
  now rewrite E, IH.
Qed.

Lemma filter_all {A} (f : A -> bool) l :
  forallb f l = true -> filter f l = l.
Proof.
  induction l as [|x l IH]; [reflexivity|]. cbn [forallb filter].
  intros H. apply andb_true_iff in H as [Hx Hl]. now rewrite Hx, IH.
Qed.

Lemma NoDup_map_filter {A B} (g : A -> B) (f : A -> bool) l :
  NoDup (map g l) -> NoDup (map g (filter f l)).
Proof.
  induction l as [|x l IH]; cbn [map filter]; [trivial|].
  intros H. inversion H as [|? ? Hx Hl]; subst.
  destruct (f x); [|now apply IH]. cbn [map]. constructor; [|now apply IH].
  intros Hin. apply Hx. apply in_map_iff in Hin as (y & <- & Hy).
  apply in_map. now apply filter_In in Hy.
Qed.

Lemma addSetField_ok h n v t h' :
  addSetField h n v t = Ok h' ->
  trim n <> [] /\
  h' = {| tableName := tableName h;
          setFields :=
            filter (fun field => negb (eqs (name field) (trim n)))
              (setFields h)
            ++ [ {| name := trim n; sf_value := v; sf_dataType := t |} ];
          whereConditions := whereConditions h;
          validationErrors := validationErrors h |}.
Proof.
  unfold addSetField.
  destruct (eqs n [] || eqs (trim n) []) eqn:E; [discriminate|].
  intros H. injection H as <-. split; [|reflexivity].
  apply orb_false_iff in E as [_ E]. intros Ht. rewrite Ht in E. discriminate.
Qed.

(** X24: after [addSetField], the handler holds exactly one SET field of
    that (trimmed) name, the one just given, after the others, which are
    kept as they were; names that were distinct stay distinct. *)
Theorem addSetField_last_write_wins h n v t h' :
  addSetField h n v t = Ok h' ->
  let added := {| name := trim n; sf_value := v; sf_dataType := t |} in
  let others field := negb (eqs (name field) (trim n)) in
  filter (fun field => eqs (name field) (trim n)) (setFields h') = [added] /\
  setFields h' = filter others (setFields h) ++ [added] /\
  (NoDup (map name (setFields h)) -> NoDup (map name (setFields h'))) /\
  tableName h' = tableName h /\
  whereConditions h' = whereConditions h.
Proof.
  intros H added others. apply addSetField_ok in H as [Hn ->].
  cbn [setFields tableName whereConditions].
  split.
  { rewrite filter_app.
    rewrite (filter_filter_neg (fun field => eqs (name field) (trim n))).
    cbn [filter name app]. now rewrite eqs_refl. }
  split; [reflexivity|]. split; [|split; reflexivity].
  intros Hnd. rewrite map_app. cbn [map name].
  apply NoDup_app.
  - now apply NoDup_map_filter.
  - repeat constructor. intros [].
  - intros a Ha [<- | []].
    apply in_map_iff in Ha as (f & Hf & Hin).
    apply filter_In in Hin as [_ Hne].
    rewrite Hf, eqs_refl in Hne. discriminate.
Qed.

Lemma addSetField_last_write_wins_witness :
  exists h',
    addSetField rename_all (lit " name ") (VStr (lit "Bob")) (lit "string")
    = Ok h' /\
    setFields h'
    = [ {| name := lit "name"; sf_value := VStr (lit "Bob");
           sf_dataType := lit "string" |} ].
Proof.
  eexists. split; [reflexivity|].
  exact (proj1 (proj2 (@addSetField_last_write_wins rename_all (lit " name ")
                         (VStr (lit "Bob")) (lit "string") _ eq_refl))).
Defined.

Lemma addWhereCondition_ok h f op v t lop h' :
  addWhereCondition h f op v t lop = Ok h' ->
  h' = {| tableName := tableName h;
          setFields := setFields h;
          whereConditions :=
            whereConditions h
            ++ [ {| fieldName := trim f; operator := toUpperCase op;
                    wc_value := v; wc_dataType := t;
                    logicalOperator := toUpperCase lop |} ];
          validationErrors := validationErrors h |}.
Proof.
  unfold addWhereCondition.
  destruct (eqs f [] || eqs (trim f) []); [discriminate|].
  destruct (includesStr validOperators (toUpperCase op)); cbn [negb];
    [|discriminate].
  destruct (includesStr validLogicalOperators (toUpperCase lop)); cbn [negb];
    [|discriminate].
  intros H. now injection H as <-.
Qed.

(** X25: [addWhereCondition] succeeds exactly for a field name that is not
    blank, an operator of the list and [AND] or [OR], in any case; the
    condition is then stored last, with its operators in upper case, and a
    handler whose conditions are all of that kind stays so. *)
Theorem addWhereCondition_admits h f op v t lop :
  ((exists h', addWhereCondition h f op v t lop = Ok h') <->
   trim f <> [] /\
   includesStr validOperators (toUpperCase op) = true /\
   includesStr validLogicalOperators (toUpperCase lop) = true) /\
  forall h',
    addWhereCondition h f op v t lop = Ok h' ->
    let c := {| fieldName := trim f; operator := toUpperCase op;
                wc_value := v; wc_dataType := t;
                logicalOperator := toUpperCase lop |} in
    whereConditions h' = whereConditions h ++ [c] /\
    admitted c = true /\
    (forallb admitted (whereConditions h) = true ->
     forallb admitted (whereConditions h') = true) /\
    setFields h' = setFields h.
Proof.
  unfold addWhereCondition.
  assert (Hblank : eqs f [] || eqs (trim f) [] = false <-> trim f <> []).
  { split.
    - intros E Ht. apply orb_false_iff in E as [_ E].
      rewrite Ht in E. discriminate.
    - intros Ht. apply orb_false_iff. split.
      + destruct f; [now destruct Ht | reflexivity].
      + now apply eqs_nil_false. }
  destruct (eqs f [] || eqs (trim f) []) eqn:Ef.
  { split; [|discriminate]. split; [intros [h' H]; discriminate|].
    intros (Ht & _). apply Hblank in Ht. discriminate. }
  assert (Ht : trim f <> []) by now apply Hblank.
  destruct (includesStr validOperators (toUpperCase op)) eqn:Eo; cbn [negb].
  2:{ split; [|discriminate]. split; [intros [h' H]; discriminate|].
      intros (_ & H & _). discriminate. }
  destruct (includesStr validLogicalOperators (toUpperCase lop)) eqn:El;
    cbn [negb].
  2:{ split; [|discriminate]. split; [intros [h' H]; discriminate|].
      intros (_ & _ & H). discriminate. }
  split; [split; [now intros _ | intros _; eauto]|].
  intros h' H. injection H as <-. cbn [whereConditions setFields].
  set (c := {| fieldName := trim f; operator := toUpperCase op;
               wc_value := v; wc_dataType := t;
               logicalOperator := toUpperCase lop |}).
  assert (Hc : admitted c = true).
  { unfold admitted, c. cbn [fieldName operator logicalOperator].
    now rewrite (eqs_nil_false Ht), Eo, El. }
  split; [reflexivity|]. split; [exact Hc|]. split; [|reflexivity].
  intros Hall. rewrite forallb_app, Hall. cbn [forallb].
  now rewrite Hc.
Qed.

Lemma conditionText_not_empty index condition :
  conditionText index condition <> [].
Proof.
  unfold conditionText. intros H.
  apply (f_equal (@length N)) in H.
  destruct (eqs (operator condition) (lit "IS NULL")
            || eqs (operator condition) (lit "IS NOT NULL"));
    [|destruct (eqs (operator condition) (lit "IN")
                || eqs (operator condition) (lit "NOT IN"));
      [destruct (wc_value condition)|]];
    rewrite !length_app in H;
    change (length (lit " ")) with 1%nat in H;
    change (length (lit " = ")) with 3%nat in H;
    cbn [length] in H; lia.
Qed.

Lemma Ok_inj {A} (a b : A) : Ok a = Ok b -> a = b.
Proof. intros H. now injection H. Qed.

Lemma update_text_has_where (t sc wc : list N) :
  includes (lit "UPDATE " ++ t ++ lit " SET " ++ sc
            ++ (lit " WHERE " ++ wc) ++ lit ";") (lit " WHERE ") = true.
Proof.
  apply includes_app_l, includes_app_l, includes_app_l, includes_app_l.
  rewrite <- app_assoc. now apply includes_app_r.
Qed.

(** X26: a statement [generateSQL] returns always has its WHERE clause:
    the handler had a table name, SET fields and WHERE conditions, and the
    text starts with [UPDATE ] and contains [ WHERE ]. *)
Theorem rendered_update_has_where h s :
  fst (generateSQL h) = Ok s ->
  tableName h <> [] /\ setFields h <> [] /\ whereConditions h <> [] /\
  startsWith s (lit "UPDATE ") = true /\
  includes s (lit " WHERE ") = true.
Proof.
  unfold generateSQL, validate.
  set (errors := _ ++ _ ++ _ ++ _ ++ _).
  destruct (length errors =? 0)%nat eqn:Ev; cbn [negb fst];
    [|discriminate].
  apply Nat.eqb_eq, length_zero_iff_nil in Ev. subst errors.
  apply app_eq_nil in Ev as [E1 Ev]. apply app_eq_nil in Ev as [E2 Ev].
  apply app_eq_nil in Ev as [E3 _].
  assert (Ht : tableName h <> [])
    by (intros E; rewrite E in E1; discriminate).
  assert (Hs : setFields h <> [])
    by (intros E; rewrite E in E2; discriminate).
  assert (Hw : whereConditions h <> [])
    by (intros E; rewrite E in E3; discriminate).
  unfold generateWhereClause, generateSetClause.
  cbn [whereConditions tableName setFields].
  assert (Hc : whereClause_from 0 (whereConditions h) <> []).
  { destruct (whereConditions h) as [|wc wcs]; [congruence|].
    cbn [whereClause_from]. intros E. apply app_eq_nil in E as [E _].
    now apply conditionText_not_empty in E. }
  rewrite (eqs_nil_false Hc). intros H. apply Ok_inj in H. subst s.
  split; [assumption|]. split; [assumption|]. split; [assumption|].
  split; [reflexivity | apply update_text_has_where].
Qed.

Lemma rendered_update_has_where_witness :
  addWhereCondition rename_all (lit "id") (lit "=") (VNum (Int 7))
    (lit "int") (lit "and") = Ok rename_one /\
  fst (generateSQL rename_one)
  = Ok (lit "UPDATE users SET name = 'Ann' WHERE id = 7;") /\
  includes (lit "UPDATE users SET name = 'Ann' WHERE id = 7;")
    (lit " WHERE ") = true.
Proof.
  split; [reflexivity|]. split; [reflexivity|].
  exact (proj2 (proj2 (proj2 (proj2
    (@rendered_update_has_where rename_one
       (lit "UPDATE users SET name = 'Ann' WHERE id = 7;") eq_refl))))).
Defined.

(** X27: removing undoes adding: the condition just added is the one at
    the old length and removing it restores the conditions; removing a SET
    field just added restores the fields that had another name; an index
    outside the conditions removes nothing. *)
Theorem remove_undoes_add h :
  (forall f op v t lop h',
     addWhereCondition h f op v t lop = Ok h' ->
     whereConditions
       (removeWhereCondition h' (Z.of_nat (length (whereConditions h))))
     = whereConditions h) /\
  (forall n v t h',
     addSetField h n v t = Ok h' ->
     setFields (removeSetField h' (trim n))
     = filter (fun field => negb (eqs (name field) (trim n))) (setFields h)) /\
  (forall index,
     (index < 0 \/ Z.of_nat (length (whereConditions h)) <= index)%Z ->
     removeWhereCondition h index = h).
Proof.
  split; [|split].
  - intros f op v t lop h' H.
    apply addWhereCondition_ok in H. subst h'.
    unfold removeWhereCondition. cbn [whereConditions].
    rewrite length_app. cbn [length].
    replace ((0 <=? Z.of_nat (length (whereConditions h)))
             && (Z.of_nat (length (whereConditions h))
                 <? Z.of_nat (length (whereConditions h) + 1)))%Z
      with true by (symmetry; apply andb_true_iff; split;
                    [apply Z.leb_le | apply Z.ltb_lt]; lia).
    cbn [whereConditions]. rewrite Nat2Z.id.
    rewrite firstn_app, Nat.sub_diag, firstn_all. cbn [firstn].
    rewrite skipn_all2 by (rewrite length_app; cbn [length]; lia).
    now rewrite !app_nil_r.
  - intros n v t h' H. apply addSetField_ok in H as [_ ->].
    unfold removeSetField. cbn [setFields].
    rewrite filter_app, filter_idem. cbn [filter name].
    rewrite eqs_refl. cbn [negb]. now rewrite app_nil_r.
  - intros index Hi. unfold removeWhereCondition.
    replace ((0 <=? index)
             && (index <? Z.of_nat (length (whereConditions h))))%Z
      with false; [reflexivity|].
    symmetry. apply andb_false_iff.
    destruct Hi; [left; apply Z.leb_gt | right; apply Z.ltb_ge]; lia.
Qed.

Lemma remove_undoes_add_witness :
  whereConditions (removeWhereCondition rename_one 0) = [] /\
  removeWhereCondition rename_one 5 = rename_one.
Proof.
  split.
  - exact (proj1 (remove_undoes_add rename_all) (lit "id") (lit "=")
             (VNum (Int 7)) (lit "int") (lit "and") rename_one eq_refl).
  - apply (proj2 (proj2 (remove_undoes_add rename_one)) 5%Z).
    right. cbn. lia.
Defined.

End MoreHandlerProperties.
